(** * Admission pipeline of the pubsub chat and live-presence surfaces

    A shallow embedding of the message-authentication code shared by the
    chat room ([pubsub_chat]) and the live cursor room ([pubsub_livegame]):
    the payload codec, the proof-of-work check, the signature adapter and
    the inbound handler that [connect] subscribes to the topic.

    JavaScript strings are sequences of UTF-16 code units ([list N]);
    numbers that the code computes with as fractions are binary64 floats;
    [Map]s keyed by address are finite maps; the insertion-ordered [Set] of
    seen message ids is a duplicate-free list, oldest entry first.  The
    capabilities the host injects ([Date.now], [crypto.subtle.digest],
    [wallet.verifyArbitrary]) are calls of a small resumption monad, so that
    "before verification is attempted" is a statement about the program and
    not about one particular host.

    Deliveries are handled one at a time. The chat handler touches its
    stores only after its last [await], so what it does to them is atomic,
    in the order in which verifications complete; the live cursor handler
    updates its seen set before its only [await]. A state update of React
    is taken to be applied before the next delivery is handled, and every
    reading of the clock while one delivery is handled gives the same time.
    The sending side ([publishSigned], [minePowPayload], [sendMessage]) is
    modelled apart, in [Sender]: a send is one computation on a host whose
    clock and random digits are sequences, and it meets the handler through
    the stores and through the envelope it hands to the network. The
    rendering is left out. *)

From Stdlib Require Import ZArith NArith Lia List Ascii String Permutation Sorted.
From Stdlib Require Import Floats.
From Stdlib Require Uint63.
From stdpp Require Import base option list gmap.

Local Open Scope N_scope.

(** ** JavaScript strings *)

Abbreviation jsstring := (list N).

(** An ASCII literal as a sequence of code units. *)
Definition js (s : string) : jsstring :=
  map N_of_ascii (list_ascii_of_string s).

(** WhiteSpace and LineTerminator code units, the ones [String.prototype.trim]
    strips and [\s] matches. *)
Definition is_space (c : N) : bool :=
  ((9 <=? c) && (c <=? 13)) || (c =? 32) || (c =? 160) || (c =? 5760)
  || ((8192 <=? c) && (c <=? 8202)) || (c =? 8232) || (c =? 8233)
  || (c =? 8239) || (c =? 8287) || (c =? 12288) || (c =? 65279).

Fixpoint trim_start (s : jsstring) : jsstring :=
  match s with
  | [] => []
  | c :: r => if is_space c then trim_start r else s
  end.

Definition trim_end (s : jsstring) : jsstring :=
  rev (trim_start (rev s)).

(** [s.trim()] *)
Definition trim (s : jsstring) : jsstring := trim_end (trim_start s).

(** [s.split(sep)] for a one-unit separator: never the empty array. *)
Fixpoint split_on (sep : N) (s : jsstring) : list jsstring :=
  match s with
  | [] => [[]]
  | c :: r =>
      if c =? sep then [] :: split_on sep r
      else match split_on sep r with
           | seg :: segs => (c :: seg) :: segs
           | [] => [[c]]
           end
  end.

(** [parts.join(sep)] *)
Fixpoint join_with (sep : N) (parts : list jsstring) : jsstring :=
  match parts with
  | [] => []
  | [p] => p
  | p :: ps => p ++ sep :: join_with sep ps
  end.

(** [s.indexOf(c)]: position of the first occurrence, or -1. *)
Fixpoint indexOf (c : N) (s : jsstring) : Z :=
  match s with
  | [] => (-1)%Z
  | d :: r =>
      if d =? c then 0%Z
      else let i := indexOf c r in
           if (i <? 0)%Z then (-1)%Z else (i + 1)%Z
  end.

(** [s.slice(0, i)] and [s.slice(i)] for [0 <= i]. *)
Definition slice_to (i : Z) (s : jsstring) : jsstring := take (Z.to_nat i) s.
Definition slice_from (i : Z) (s : jsstring) : jsstring := drop (Z.to_nat i) s.

(** [s.slice(0, n)] for a literal [n]. *)
Definition slice_first (n : nat) (s : jsstring) : jsstring := take n s.

(** [s.slice(s.length - n)] for [n <= s.length]: the last [n] units. *)
Definition keep_last {A} (n : nat) (l : list A) : list A :=
  drop (length l - n)%nat l.

(** [x || d] on strings: the empty string is falsy. *)
Definition or_else (x d : jsstring) : jsstring :=
  match x with [] => d | _ => x end.

(** [String(o.k || '')]: a missing property reads as the empty string. *)
Definition prop_or_empty (o : gmap jsstring jsstring) (k : jsstring) : jsstring :=
  default [] (o !! k).

Definition str_eqb (a b : jsstring) : bool := bool_decide (a = b).

(** ** [encodeURIComponent] and [decodeURIComponent]

    Modelled from ECMA-262 (Encode and Decode with the unreserved set of
    [encodeURIComponent] and an empty reserved set): these are built-ins of
    the host language, not functions of the repository. [None] is a thrown
    [URIError]. *)

Definition is_alpha (c : N) : bool :=
  ((65 <=? c) && (c <=? 90)) || ((97 <=? c) && (c <=? 122)).
Definition is_digit (c : N) : bool := (48 <=? c) && (c <=? 57).
(** - _ . ! ~ * ' ( ) *)
Definition is_mark (c : N) : bool :=
  (c =? 45) || (c =? 95) || (c =? 46) || (c =? 33) || (c =? 126)
  || (c =? 42) || (c =? 39) || (c =? 40) || (c =? 41).
Definition uriUnreserved (c : N) : bool := is_alpha c || is_digit c || is_mark c.

Definition is_lead (c : N) : bool := (55296 <=? c) && (c <=? 56319).
Definition is_trail (c : N) : bool := (56320 <=? c) && (c <=? 57343).

(** The code point of a surrogate pair. *)
Definition pair_code_point (hi lo : N) : N :=
  (hi - 55296) * 1024 + (lo - 56320) + 65536.

(** The UTF-8 octets of a code point. *)
Definition utf8_octets (cp : N) : list N :=
  if cp <? 128 then [cp]
  else if cp <? 2048 then [192 + cp / 64; 128 + cp mod 64]
  else if cp <? 65536 then
    [224 + cp / 4096; 128 + (cp / 64) mod 64; 128 + cp mod 64]
  else
    [240 + cp / 262144; 128 + (cp / 4096) mod 64;
     128 + (cp / 64) mod 64; 128 + cp mod 64].

(** An upper-case hexadecimal digit. *)
Definition hex_digit (d : N) : N := if d <? 10 then 48 + d else 55 + d.

Definition hex_value (c : N) : option N :=
  if is_digit c then Some (c - 48)
  else if (65 <=? c) && (c <=? 70) then Some (c - 55)
  else if (97 <=? c) && (c <=? 102) then Some (c - 87)
  else None.

(** [%XX] *)
Definition pct_octet (b : N) : jsstring := [37; hex_digit (b / 16); hex_digit (b mod 16)].

Definition pct_octets (bs : list N) : jsstring := concat (map pct_octet bs).

Fixpoint encodeURIComponent (s : jsstring) : option jsstring :=
  match s with
  | [] => Some []
  | c :: r =>
      if uriUnreserved c then cons c <$> encodeURIComponent r
      else if is_trail c then None
      else if is_lead c then
        match r with
        | t :: r' =>
            if is_trail t
            then app (pct_octets (utf8_octets (pair_code_point c t)))
                   <$> encodeURIComponent r'
            else None
        | [] => None
        end
      else app (pct_octets (utf8_octets c)) <$> encodeURIComponent r
  end.

(** What Decode reads: a literal code unit or an escaped octet. *)
Inductive Token : Type :=
| Lit (c : N)
| Oct (b : N).

Fixpoint pct_tokens (s : jsstring) : option (list Token) :=
  match s with
  | [] => Some []
  | c :: r =>
      if c =? 37 then
        match r with
        | h :: l :: r' =>
            match hex_value h, hex_value l with
            | Some a, Some b => cons (Oct (16 * a + b)) <$> pct_tokens r'
            | _, _ => None
            end
        | _ => None
        end
      else cons (Lit c) <$> pct_tokens r
  end.

(** The UTF-16 code units of a code point. *)
Definition utf16_units (cp : N) : jsstring :=
  if cp <? 65536 then [cp]
  else [55296 + (cp - 65536) / 1024; 56320 + (cp - 65536) mod 1024].

Definition is_cont (b : N) : bool := (128 <=? b) && (b <? 192).

(** Octets with the high bit set must form one well-formed UTF-8 sequence
    (no over-long form, no surrogate, at most U+10FFFF), each of its octets
    escaped. *)
Fixpoint decode_tokens (ts : list Token) : option jsstring :=
  match ts with
  | [] => Some []
  | Lit c :: r => cons c <$> decode_tokens r
  | Oct b :: r =>
      if b <? 128 then cons b <$> decode_tokens r
      else if b <? 192 then None
      else if b <? 224 then
        match r with
        | Oct b2 :: r' =>
            let cp := (b - 192) * 64 + (b2 - 128) in
            if is_cont b2 && (128 <=? cp)
            then app (utf16_units cp) <$> decode_tokens r'
            else None
        | _ => None
        end
      else if b <? 240 then
        match r with
        | Oct b2 :: Oct b3 :: r' =>
            let cp := (b - 224) * 4096 + (b2 - 128) * 64 + (b3 - 128) in
            if is_cont b2 && is_cont b3 && (2048 <=? cp)
               && negb ((55296 <=? cp) && (cp <=? 57343))
            then app (utf16_units cp) <$> decode_tokens r'
            else None
        | _ => None
        end
      else if b <? 248 then
        match r with
        | Oct b2 :: Oct b3 :: Oct b4 :: r' =>
            let cp := (b - 240) * 262144 + (b2 - 128) * 4096
                      + (b3 - 128) * 64 + (b4 - 128) in
            if is_cont b2 && is_cont b3 && is_cont b4
               && (65536 <=? cp) && (cp <=? 1114111)
            then app (utf16_units cp) <$> decode_tokens r'
            else None
        | _ => None
        end
      else None
  end.

Definition decodeURIComponent (s : jsstring) : option jsstring :=
  pct_tokens s ≫= decode_tokens.

(** [new TextEncoder().encode(s)]: UTF-8, a lone surrogate becomes U+FFFD. *)
Fixpoint text_encode (s : jsstring) : list N :=
  match s with
  | [] => []
  | c :: r =>
      if is_lead c then
        match r with
        | t :: r' =>
            if is_trail t
            then utf8_octets (pair_code_point c t) ++ text_encode r'
            else utf8_octets 65533 ++ text_encode r
        | [] => utf8_octets 65533
        end
      else if is_trail c then utf8_octets 65533 ++ text_encode r
      else utf8_octets c ++ text_encode r
  end.

(** ** Plain objects

    A plain object is the finite map of its own properties.  Reading a
    property that is not an own property falls through to
    [Object.prototype]; assigning a string to [__proto__] runs the setter of
    [Object.prototype], which ignores values that are not objects. *)

Definition proto_key : jsstring := js "__proto__".

Definition inherited_key (k : jsstring) : bool :=
  bool_decide (k ∈ map js
    ["constructor"; "__proto__"; "hasOwnProperty"; "isPrototypeOf";
     "propertyIsEnumerable"; "toLocaleString"; "toString"; "valueOf";
     "__defineGetter__"; "__defineSetter__"; "__lookupGetter__";
     "__lookupSetter__"]%string).

(** [obj[k] = v] for a string [v]. *)
Definition assign (k v : jsstring) (obj : gmap jsstring jsstring)
  : gmap jsstring jsstring :=
  if bool_decide (k = proto_key) then obj else <[k := v]> obj.

(** ** Payload codec ([encodePayload], [decodePayload])

    The two surfaces carry the same two functions and differ in the protocol
    tag only. [localeCompare] is the collation of the host
    ([String.prototype.localeCompare]): negative, zero or positive. *)

Inductive Decoded : Type :=
| DecodeThrows                                (* a URIError escaped *)
| DecodeNull                                  (* [return null] *)
| DecodeObj (parsed : gmap jsstring jsstring) (* [{ type, ...obj }] *).

Section Codec.
Variable localeCompare : jsstring → jsstring → Z.
Variable tag : jsstring.

(** [entries.sort((a, b) => a[0].localeCompare(b[0]))]: the sort of
    [Array.prototype.sort] is stable; with a consistent comparator its
    result is the one of this insertion sort. *)
Fixpoint insert_entry (e : jsstring * jsstring) (l : list (jsstring * jsstring))
  : list (jsstring * jsstring) :=
  match l with
  | [] => [e]
  | x :: r =>
      if (localeCompare e.1 x.1 <=? 0)%Z then e :: l
      else x :: insert_entry e r
  end.

Definition sort_entries (es : list (jsstring * jsstring))
  : list (jsstring * jsstring) :=
  foldr insert_entry [] es.

(** [`${k}=${encodeURIComponent(v)}`] *)
Definition encode_entry (e : jsstring * jsstring) : option jsstring :=
  (λ v, e.1 ++ 61 :: v) <$> encodeURIComponent e.2.

(** [fields] is given by [Object.entries(fields)], the own properties in
    property order; values are already strings. [None] is a thrown
    URIError. *)
Definition encodePayload (type : jsstring) (fields : list (jsstring * jsstring))
  : option jsstring :=
  parts ← mapM encode_entry (sort_entries fields);
  Some (tag ++ js "|v1|" ++ type ++ 124 :: join_with 124 parts).

(** The loop over [parts.slice(3)]. *)
Fixpoint decode_fields (ps : list jsstring) (obj : gmap jsstring jsstring)
  : option (gmap jsstring jsstring) :=
  match ps with
  | [] => Some obj
  | p :: r =>
      let i := indexOf 61 p in
      if (i <=? 0)%Z then decode_fields r obj
      else
        v ← decodeURIComponent (slice_from (i + 1) p);
        decode_fields r (assign (slice_to i p) v obj)
  end.

Definition decodePayload (payload : jsstring) : Decoded :=
  let parts := split_on 124 payload in
  if (length parts <? 4)%nat then DecodeNull
  else if negb (str_eqb (nth 0 parts []) tag)
          || negb (str_eqb (nth 1 parts []) (js "v1"))
  then DecodeNull
  else
    let type := nth 2 parts [] in
    match decode_fields (drop 3 parts) ∅ with
    | None => DecodeThrows
    | Some obj => DecodeObj (obj ∪ {[ js "type" := type ]})
    end.
End Codec.

(** ** Proof of work *)

Definition POW_DIFFICULTY_BITS : Z := 12.
Definition AUTO_BLOCK_WINDOW_MS : Z := 2000.
Definition AUTO_BLOCK_MAX_MESSAGES : Z := 10.

(** The inner loop [for (let i = 7; i >= 0; i--)] with [n = i + 1]. *)
Fixpoint scan_bits (b : Z) (n : nat) (bits : Z) : Z :=
  match n with
  | O => bits
  | S i =>
      if (Z.land b (Z.shiftl 1 (Z.of_nat i)) =? 0)%Z
      then scan_bits b i (bits + 1)%Z
      else bits
  end.

Fixpoint leadingZeroBits_from (bytes : list Z) (bits : Z) : Z :=
  match bytes with
  | [] => bits
  | b :: r =>
      if (b =? 0)%Z then leadingZeroBits_from r (bits + 8)%Z
      else scan_bits b 8 bits
  end.

(** [bytes] are the elements of a [Uint8Array]. *)
Definition leadingZeroBits (bytes : list Z) : Z := leadingZeroBits_from bytes 0.




(** ** Host capabilities *)

Inductive DigestAnswer : Type :=
| DigestUnavailable                    (* no [crypto.subtle.digest] *)
| DigestRejected (message : jsstring)  (* the promise rejects *)
| DigestOk (bytes : list Z).

Record VerifyRequest : Type := {
  req_payload : jsstring;
  req_signatureB64 : jsstring;
  req_pubkeyB64 : jsstring;
  req_address : jsstring
}.

(** The object [wallet.verifyArbitrary] resolves to: flags by truthiness,
    [None] for a flag that is [null] or [undefined], strings empty when the
    property is missing. *)
Record VerifyResult : Type := {
  res_ok : bool;
  res_signatureValid : option bool;
  res_addressMatches : option bool;
  res_derivedAddress : jsstring;
  res_derivedAddr : jsstring;
  res_error : jsstring
}.

Inductive VerifyAnswer : Type :=
| VerifyAbsent                  (* no [wallet.verifyArbitrary] *)
| VerifyRejected                (* the call throws or rejects *)
| VerifyNull                    (* resolves to [null] or [undefined] *)
| VerifyOk (res : VerifyResult).

(** A computation that calls the host: [Date.now()],
    [crypto.subtle.digest('SHA-256', data)] and [wallet.verifyArbitrary]. *)
Inductive Host (A : Type) : Type :=
| Ret (a : A)
| DateNow (k : Z → Host A)
| SubtleDigest (data : list N) (k : DigestAnswer → Host A)
| VerifyArbitrary (req : VerifyRequest) (k : VerifyAnswer → Host A).

Arguments Ret {A} a.
Arguments DateNow {A} k.
Arguments SubtleDigest {A} data k.
Arguments VerifyArbitrary {A} req k.

Fixpoint host_bind {A B} (f : A → Host B) (p : Host A) : Host B :=
  match p with
  | Ret a => f a
  | DateNow k => DateNow (λ t, host_bind f (k t))
  | SubtleDigest d k => SubtleDigest d (λ r, host_bind f (k r))
  | VerifyArbitrary q k => VerifyArbitrary q (λ r, host_bind f (k r))
  end.

#[export] Instance host_mret : MRet Host := @Ret.
#[export] Instance host_mbind : MBind Host := @host_bind.

Definition nowMs : Host Z := DateNow Ret.

(** One delivery as the host sees it: the clock while the handler runs and
    the answers of the two capabilities. *)
Record HostEnv : Type := {
  env_now : Z;
  env_digest : list N → DigestAnswer;
  env_verify : VerifyRequest → VerifyAnswer
}.

Fixpoint run {A} (h : HostEnv) (p : Host A) : A :=
  match p with
  | Ret a => a
  | DateNow k => run h (k (env_now h))
  | SubtleDigest d k => run h (k (env_digest h d))
  | VerifyArbitrary q k => run h (k (env_verify h q))
  end.

(** No call of the given kind on any path of the program. *)
Fixpoint no_digest {A} (p : Host A) : Prop :=
  match p with
  | Ret _ => True
  | DateNow k => ∀ t, no_digest (k t)
  | SubtleDigest _ _ => False
  | VerifyArbitrary _ k => ∀ r, no_digest (k r)
  end.

Fixpoint no_verify {A} (p : Host A) : Prop :=
  match p with
  | Ret _ => True
  | DateNow k => ∀ t, no_verify (k t)
  | SubtleDigest _ k => ∀ r, no_verify (k r)
  | VerifyArbitrary _ _ => False
  end.

(** [sha256Utf8]: the digest bytes, or the message of the error thrown. *)
Definition webcrypto_unavailable : jsstring :=
  js "WebCrypto unavailable (crypto.subtle.digest)".

Definition sha256Utf8 (str : jsstring) : Host (jsstring + list Z) :=
  SubtleDigest (text_encode str) (λ r,
    match r with
    | DigestUnavailable => Ret (inl webcrypto_unavailable)
    | DigestRejected m => Ret (inl m)
    | DigestOk bytes => Ret (inr bytes)
    end).

(** [hasValidPow(payload, bits)] *)
Definition hasValidPow (payload : jsstring) (bits : Z) : Host (jsstring + bool) :=
  hash ← sha256Utf8 payload;
  match hash with
  | inl e => Ret (inl e)
  | inr bytes => Ret (inr (bits <=? leadingZeroBits bytes)%Z)
  end.

(** What one run of an inbound handler did: returned without touching the
    drop counter, recorded a drop reason in [rxStats], or handed the event
    to the view. *)
Inductive Outcome (E : Type) : Type :=
| Ignored
| Dropped (reason : jsstring)
| Accepted (event : E).

Arguments Ignored {E}.
Arguments Dropped {E} reason.
Arguments Accepted {E} event.

(** The raw pubsub delivery [m]: [m.json] is an object with the four string
    fields (a missing field reads as empty), or it is not an object and only
    [m.text] is looked at. *)
Record Envelope : Type := {
  e_payload : jsstring;
  e_address : jsstring;
  e_pubkeyB64 : jsstring;
  e_signatureB64 : jsstring
}.

Inductive Inbound : Type :=
| NotJson (text : jsstring)
| Json (data : Envelope).

Definition is_empty (s : jsstring) : bool :=
  match s with [] => true | _ => false end.

(** [s.replace(/\s+/g, ' ')]; [in_run] says the previous unit was a space. *)
Fixpoint collapse_spaces (in_run : bool) (s : jsstring) : jsstring :=
  match s with
  | [] => []
  | c :: r =>
      if is_space c
      then (if in_run then collapse_spaces true r else 32 :: collapse_spaces true r)
      else c :: collapse_spaces false r
  end.

(** ** The chat room *)

Module Chat.

Definition PROTOCOL : jsstring := js "pubsub_chat".

Record RxStats : Type := {
  total : N;
  accepted : N;
  dropped : N;
  lastDrop : jsstring
}.

(** [Number(parsed.ts || 0) || nowMs()]: the field of the payload when it
    reads as a number other than zero, the clock otherwise. *)
Inductive Timestamp : Type :=
| TsField (raw : jsstring)
| TsClock (now : Z).

Record Message : Type := {
  msg_id : jsstring;
  msg_addr : jsstring;
  msg_text : jsstring;
  msg_ts : Timestamp
}.

Record BlockEntry : Type := {
  blk_addr : jsstring;
  blk_name : jsstring;
  blk_blockedAt : Z;
  blk_reason : jsstring
}.

(** The state and the refs of [App] that the inbound handler touches.
    [blockedByAddr] stands for the state and for [blockedByAddrRef], which
    an effect copies from it after every change; a state update is taken
    to be applied before the next delivery is handled. *)
Record State : Type := {
  messages : list Message;
  nameByAddr : gmap jsstring jsstring;
  rxStats : RxStats;
  blockedByAddr : gmap jsstring BlockEntry;
  lastAcceptedAt : gmap jsstring Z;
  recentNonces : gmap jsstring (list jsstring);
  seenMsgId : list jsstring;
  spamWindow : gmap jsstring (list Z)
}.

(** What a function of the component closes over: the [topic], [status]
    and [nameByAddr] of the render that created it. The handler is
    created by [connect], which returns at once when [status.connected],
    and [status] has an address only while connected (the initial state
    and [disconnect] set ['']): for the handler [status_address] is
    empty. A button of the page calls [blockUser] with the [status] of
    the current render. *)
Record Closure : Type := {
  topic : jsstring;
  status_address : jsstring;
  names_at_connect : gmap jsstring jsstring
}.

Definition set_messages (f : list Message → list Message) (s : State) : State :=
  {| messages := f (messages s); nameByAddr := nameByAddr s;
     rxStats := rxStats s; blockedByAddr := blockedByAddr s;
     lastAcceptedAt := lastAcceptedAt s; recentNonces := recentNonces s;
     seenMsgId := seenMsgId s; spamWindow := spamWindow s |}.

Definition set_nameByAddr (f : gmap jsstring jsstring → gmap jsstring jsstring)
    (s : State) : State :=
  {| messages := messages s; nameByAddr := f (nameByAddr s);
     rxStats := rxStats s; blockedByAddr := blockedByAddr s;
     lastAcceptedAt := lastAcceptedAt s; recentNonces := recentNonces s;
     seenMsgId := seenMsgId s; spamWindow := spamWindow s |}.

Definition set_rxStats (f : RxStats → RxStats) (s : State) : State :=
  {| messages := messages s; nameByAddr := nameByAddr s;
     rxStats := f (rxStats s); blockedByAddr := blockedByAddr s;
     lastAcceptedAt := lastAcceptedAt s; recentNonces := recentNonces s;
     seenMsgId := seenMsgId s; spamWindow := spamWindow s |}.

Definition set_blockedByAddr
    (f : gmap jsstring BlockEntry → gmap jsstring BlockEntry) (s : State) : State :=
  {| messages := messages s; nameByAddr := nameByAddr s;
     rxStats := rxStats s; blockedByAddr := f (blockedByAddr s);
     lastAcceptedAt := lastAcceptedAt s; recentNonces := recentNonces s;
     seenMsgId := seenMsgId s; spamWindow := spamWindow s |}.

Definition set_lastAcceptedAt (f : gmap jsstring Z → gmap jsstring Z)
    (s : State) : State :=
  {| messages := messages s; nameByAddr := nameByAddr s;
     rxStats := rxStats s; blockedByAddr := blockedByAddr s;
     lastAcceptedAt := f (lastAcceptedAt s); recentNonces := recentNonces s;
     seenMsgId := seenMsgId s; spamWindow := spamWindow s |}.

Definition set_recentNonces
    (f : gmap jsstring (list jsstring) → gmap jsstring (list jsstring))
    (s : State) : State :=
  {| messages := messages s; nameByAddr := nameByAddr s;
     rxStats := rxStats s; blockedByAddr := blockedByAddr s;
     lastAcceptedAt := lastAcceptedAt s; recentNonces := f (recentNonces s);
     seenMsgId := seenMsgId s; spamWindow := spamWindow s |}.

Definition set_seenMsgId (f : list jsstring → list jsstring) (s : State) : State :=
  {| messages := messages s; nameByAddr := nameByAddr s;
     rxStats := rxStats s; blockedByAddr := blockedByAddr s;
     lastAcceptedAt := lastAcceptedAt s; recentNonces := recentNonces s;
     seenMsgId := f (seenMsgId s); spamWindow := spamWindow s |}.

Definition set_spamWindow (f : gmap jsstring (list Z) → gmap jsstring (list Z))
    (s : State) : State :=
  {| messages := messages s; nameByAddr := nameByAddr s;
     rxStats := rxStats s; blockedByAddr := blockedByAddr s;
     lastAcceptedAt := lastAcceptedAt s; recentNonces := recentNonces s;
     seenMsgId := seenMsgId s; spamWindow := f (spamWindow s) |}.

(** The stores as [connect] leaves them; the block list outlives the
    connection. *)
Definition fresh_session (blocked : gmap jsstring BlockEntry) : State :=
  {| messages := []; nameByAddr := ∅;
     rxStats := {| total := 0; accepted := 0; dropped := 0; lastDrop := [] |};
     blockedByAddr := blocked; lastAcceptedAt := ∅; recentNonces := ∅;
     seenMsgId := []; spamWindow := ∅ |}.

(** [setRxStats((s) => ({ ...s, total: s.total + 1 }))] *)
Definition count_total : State → State :=
  set_rxStats (λ r, {| total := total r + 1; accepted := accepted r;
                       dropped := dropped r; lastDrop := lastDrop r |}).

(** [setRxStats((s) => ({ ...s, accepted: s.accepted + 1 }))] *)
Definition count_accepted : State → State :=
  set_rxStats (λ r, {| total := total r; accepted := accepted r + 1;
                       dropped := dropped r; lastDrop := lastDrop r |}).

(** [setRxStats((s) => ({ ...s, dropped: s.dropped + 1, lastDrop }))] *)
Definition count_dropped (reason : jsstring) : State → State :=
  set_rxStats (λ r, {| total := total r; accepted := accepted r;
                       dropped := dropped r + 1; lastDrop := reason |}).

(** What an accepted envelope amounts to: a signed nickname announcement,
    or a message pushed to the history. *)
Inductive Event : Type :=
| ProfileSeen (address : jsstring)
| MessageShown (entry : Message).

Definition Result : Type := Outcome Event * State.

(** [return] with nothing recorded. *)
Definition ignored (s : State) : Result := (Ignored, s).

Definition drop (reason : jsstring) (s : State) : Result :=
  (Dropped reason, count_dropped reason s).

Definition accept (e : Event) (s : State) : Result :=
  (Accepted e, count_accepted s).

(** The result of [verifyPayload]. *)
Record Verified : Type := {
  v_ok : bool;
  v_signatureValid : bool;
  v_addressMatches : bool;
  v_derivedAddress : jsstring;
  v_error : jsstring
}.

(** [None]: the capability is missing or the call fails, and the error
    escapes to the handler's outer [catch]. *)
Definition verifyPayload (payload signatureB64 pubkeyB64 address : jsstring)
  : Host (option Verified) :=
  VerifyArbitrary
    {| req_payload := payload; req_signatureB64 := signatureB64;
       req_pubkeyB64 := pubkeyB64; req_address := address |}
    (λ ans,
       match ans with
       | VerifyAbsent | VerifyRejected => Ret None
       | VerifyNull =>
           Ret (Some {| v_ok := false; v_signatureValid := false;
                        v_addressMatches := false; v_derivedAddress := [];
                        v_error := [] |})
       | VerifyOk res =>
           Ret (Some {| v_ok := res_ok res;
                        v_signatureValid :=
                          default (res_ok res) (res_signatureValid res);
                        v_addressMatches :=
                          default (res_ok res) (res_addressMatches res);
                        v_derivedAddress :=
                          trim (or_else (res_derivedAddress res) (res_derivedAddr res));
                        v_error := res_error res |})
       end).

Definition markSeenNonce (address nonce : jsstring) (s : State) : bool * State :=
  let addr := trim address in
  let n := trim nonce in
  if is_empty addr || is_empty n then (false, s)
  else
    let existing := default [] (recentNonces s !! addr) in
    if bool_decide (n ∈ existing) then (false, s)
    else
      let next := if (24 <=? length existing)%nat
                  then keep_last 20 existing else existing in
      (true, set_recentNonces (insert addr (next ++ [n])) s).

Definition isRateLimited (address : jsstring) (s : State) : Host (bool * State) :=
  let addr := trim address in
  if is_empty addr then Ret (true, s)
  else
    let last := default 0%Z (lastAcceptedAt s !! addr) in
    now ← nowMs;
    if (now - last <? 1000)%Z then Ret (true, s)
    else Ret (false, set_lastAcceptedAt (insert addr now) s).

Definition recordSpam (address : jsstring) (s : State) : Host (Z * State) :=
  let addr := trim address in
  if is_empty addr then Ret (0%Z, s)
  else
    now ← nowMs;
    let prev := default [] (spamWindow s !! addr) in
    let next :=
      filter (λ t, (now - t < AUTO_BLOCK_WINDOW_MS)%Z) prev ++ [now] in
    Ret (Z.of_nat (length next), set_spamWindow (insert addr next) s).

Definition updateName (address nextNick : jsstring) (s : State) : State :=
  let addr := trim address in
  let nn := slice_first 22 (trim nextNick) in
  if is_empty addr || is_empty nn then s
  else set_nameByAddr
         (λ prev, if bool_decide (prev !! addr = Some nn) then prev
                  else <[addr := nn]> prev) s.

(** [!!blockedByAddrRef.current[addr]]: an own entry, or a property that
    every plain object inherits. *)
Definition has_entry (blocked : gmap jsstring BlockEntry) (addr : jsstring) : bool :=
  bool_decide (is_Some (blocked !! addr)) || inherited_key addr.

Definition isBlocked (address : jsstring) (s : State) : bool :=
  let addr := trim address in
  if is_empty addr then false else has_entry (blockedByAddr s) addr.

(** [reason] is passed explicitly at both call sites. The toast is not
    modelled. *)
Definition blockUser (cl : Closure) (address reason displayName : jsstring)
    (s : State) : Host State :=
  let addr := trim address in
  if is_empty addr then Ret s
  else if negb (is_empty (status_address cl))
          && str_eqb addr (status_address cl) then Ret s
  else
    let display :=
      or_else
        (slice_first 22
           (trim (or_else displayName
                    (or_else (default [] (names_at_connect cl !! addr))
                             (js "anon")))))
        (js "anon") in
    ts ← nowMs;
    let s1 :=
      set_blockedByAddr
        (λ prev, if has_entry prev addr then prev
                 else <[addr := {| blk_addr := addr; blk_name := display;
                                   blk_blockedAt := ts;
                                   blk_reason := or_else reason (js "manual") |}]>
                        prev) s in
    Ret (set_messages (filter (λ m, msg_addr m ≠ addr)) s1).

Definition pushMessage (entry : Message) : State → State :=
  set_messages (λ prev,
    (if (240 <? length prev)%nat then keep_last 200 prev else prev) ++ [entry]).

Section Handler.
(** Whether [Number(s)] is truthy: the numeric reading of a string is
    left to the engine. *)
Variable numberTruthy : jsstring → bool.
Variable cl : Closure.

(** The handler is one function in the source; it is cut here into the
    gates that need the canonical address ([screen]), the spam and rate
    gates ([throttle]) and the check of the payload by type ([present]).
    From the line after [verifyPayload] it runs to its end without
    another [await]. *)
Definition present (parsed : gmap jsstring jsstring)
    (canonicalAddr msgId : jsstring) (s : State) : Host Result :=
  let kind := prop_or_empty parsed (js "type") in
  if str_eqb kind (js "profile")
  then Ret (accept (ProfileSeen canonicalAddr) s)
  else if negb (str_eqb kind (js "msg"))
  then Ret (drop (js "unknown_type") s)
  else
    let txt := trim (prop_or_empty parsed (js "text")) in
    if is_empty txt then Ret (drop (js "empty_text") s)
    else if (500 <? length txt)%nat
    then Ret (drop (js "text_too_long") s)
    else
      let raw := prop_or_empty parsed (js "ts") in
      ts ← (if numberTruthy raw then Ret (TsField raw)
            else now ← nowMs; Ret (TsClock now));
      let entry := {| msg_id := msgId; msg_addr := canonicalAddr;
                      msg_text := txt; msg_ts := ts |} in
      Ret (accept (MessageShown entry) (pushMessage entry s)).

Definition throttle (parsed : gmap jsstring jsstring)
    (canonicalAddr msgId safeNick : jsstring) (s : State) : Host Result :=
  '(spamCount, s) ← recordSpam canonicalAddr s;
  if (AUTO_BLOCK_MAX_MESSAGES <? spamCount)%Z then
    s ← blockUser cl canonicalAddr (js "auto_spam") safeNick s;
    Ret (drop (js "auto_blocked") s)
  else
    '(limited, s) ← isRateLimited canonicalAddr s;
    if limited : bool then Ret (drop (js "rate_limited") s)
    else present parsed canonicalAddr msgId s.

Definition screen (parsed : gmap jsstring jsstring)
    (address nonce : jsstring) (v : Verified) (s : State) : Host Result :=
  let canonicalAddr := or_else (v_derivedAddress v) address in
  let msgId := canonicalAddr ++ 58 :: nonce in
  if bool_decide (msgId ∈ seenMsgId s) then Ret (ignored s)
  else
    let s := set_seenMsgId (λ l, l ++ [msgId]) s in
    if isBlocked canonicalAddr s then Ret (drop (js "blocked") s)
    else
      let '(fresh, s) := markSeenNonce canonicalAddr nonce s in
      if negb fresh then Ret (drop (js "nonce_replay") s)
      else
        let safeNick := slice_first 22 (trim (prop_or_empty parsed (js "nick"))) in
        let s := if is_empty safeNick then s
                 else updateName canonicalAddr safeNick s in
        throttle parsed canonicalAddr msgId safeNick s.

(** The callback [connect] hands to [pubsub.subscribe]. *)
Definition handler (m : Inbound) (s0 : State) : Host Result :=
  let s := count_total s0 in
  match m with
  | NotJson text =>
      let sample := slice_first 60 (collapse_spaces false (trim text)) in
      Ret (drop (if is_empty sample then js "bad_json"
                 else js "bad_json:" ++ sample) s)
  | Json data =>
      let payload := e_payload data in
      let address := trim (e_address data) in
      let pubkeyB64 := trim (e_pubkeyB64 data) in
      let signatureB64 := trim (e_signatureB64 data) in
      if is_empty payload || is_empty address || is_empty pubkeyB64
         || is_empty signatureB64
      then Ret (drop (js "missing_fields") s)
      else
        match decodePayload PROTOCOL payload with
        | DecodeThrows => Ret (ignored s)
        | DecodeNull => Ret (drop (js "bad_payload") s)
        | DecodeObj parsed =>
            if negb (str_eqb (prop_or_empty parsed (js "room")) (topic cl))
            then Ret (drop (js "wrong_room") s)
            else
              let nonce := trim (prop_or_empty parsed (js "nonce")) in
              if is_empty nonce || (20 <? length nonce)%nat
              then Ret (drop (js "bad_nonce") s)
              else
                okPow ← hasValidPow payload POW_DIFFICULTY_BITS;
                match okPow with
                | inl e =>
                    let suffix := trim e in
                    Ret (drop (if is_empty suffix then js "pow_error"
                               else js "pow_error:" ++ slice_first 40 suffix) s)
                | inr false => Ret (drop (js "bad_pow") s)
                | inr true =>
                    v ← verifyPayload payload signatureB64 pubkeyB64 address;
                    match v with
                    | None => Ret (ignored s)
                    | Some v =>
                        if negb (v_signatureValid v)
                        then Ret (drop (js "bad_sig"
                                        ++ (if is_empty (v_error v) then []
                                            else 58 :: slice_first 60 (v_error v))) s)
                        else screen parsed address nonce v s
                    end
                end
        end
  end.

(** One delivery: the inbound message and the host as it answers while
    this message is handled. *)
Definition deliver (d : HostEnv * Inbound) (s : State) : Result :=
  run d.1 (handler d.2 s).

(** Deliveries handled one after the other, in the order in which their
    verification completes. *)
Fixpoint deliver_all (ds : list (HostEnv * Inbound)) (s : State)
  : list (Outcome Event) * State :=
  match ds with
  | [] => ([], s)
  | d :: r =>
      let '(o, s1) := deliver d s in
      let '(os, s2) := deliver_all r s1 in
      (o :: os, s2)
  end.

Definition state_after (ds : list (HostEnv * Inbound)) (s : State) : State :=
  (deliver_all ds s).2.
End Handler.

End Chat.

(** ** The live cursor room *)

Module LiveGame.

Definition PROTOCOL : jsstring := js "pubsub_livegame".

(** [Math.min] and [Math.max] of two numbers: [NaN] when an argument is
    [NaN], and [-0] counts as less than [+0]. A number is a binary64
    float. *)
Definition Math_min (a b : float) : float :=
  if PrimFloat.is_nan a || PrimFloat.is_nan b then PrimFloat.nan
  else if PrimFloat.ltb a b then a
  else if PrimFloat.ltb b a then b
  else if PrimFloat.get_sign a then a else b.

Definition Math_max (a b : float) : float :=
  if PrimFloat.is_nan a || PrimFloat.is_nan b then PrimFloat.nan
  else if PrimFloat.ltb a b then b
  else if PrimFloat.ltb b a then a
  else if PrimFloat.get_sign a then b else a.

(** [clamp(v, a, b)] *)
Definition clamp (v a b : float) : float := Math_max a (Math_min b v).

(** An entry of [peersRef]; the colour is a function of the key. *)
Record Peer : Type := {
  peer_x : float;
  peer_y : float;
  peer_nick : jsstring;
  peer_ts : Z
}.

Record State : Type := {
  peers : gmap jsstring Peer;
  seenMsgId : list jsstring
}.

Definition Result : Type := Outcome (jsstring * Peer) * State.

Definition ignored (s : State) : Result := (Ignored, s).

Record Verified : Type := {
  v_ok : bool;
  v_signatureValid : bool;
  v_derivedAddress : jsstring;
  v_error : jsstring
}.

(** Without the capability the envelope counts as verified ("best-effort
    fallback"). [None]: the call fails and the handler's [catch] swallows
    the error. *)
Definition verifyPayload (payload signatureB64 pubkeyB64 address : jsstring)
  : Host (option Verified) :=
  VerifyArbitrary
    {| req_payload := payload; req_signatureB64 := signatureB64;
       req_pubkeyB64 := pubkeyB64; req_address := address |}
    (λ ans,
       match ans with
       | VerifyAbsent =>
           Ret (Some {| v_ok := true; v_signatureValid := true;
                        v_derivedAddress := []; v_error := [] |})
       | VerifyRejected => Ret None
       | VerifyNull =>
           Ret (Some {| v_ok := false; v_signatureValid := false;
                        v_derivedAddress := []; v_error := [] |})
       | VerifyOk res =>
           Ret (Some {| v_ok := res_ok res;
                        v_signatureValid :=
                          default (res_ok res) (res_signatureValid res);
                        v_derivedAddress :=
                          trim (or_else (res_derivedAddress res) (res_derivedAddr res));
                        v_error := res_error res |})
       end).

(** The eviction and the [add] of the seen set. *)
Definition remember (id : jsstring) (seen : list jsstring) : list jsstring :=
  (if (2500 <? length seen)%nat then drop 1200 seen else seen) ++ [id].

Section Handler.
Variable topic : jsstring.
(** [Number(s)] for a string [s] that is not empty: the numeric reading
    of a string is left to the engine. *)
Variable toNumber : jsstring → float.

(** [clamp(Number(raw || 0), 0, 1000)], where [raw] is a field of the
    payload, a string, or is missing. *)
Definition coordinate (raw : jsstring) : float :=
  clamp (if is_empty raw then 0%float else toNumber raw) 0%float 1000%float.

(** The handler from the line after [verifyPayload] returned. *)
Definition dispatch (parsed : gmap jsstring jsstring) (address : jsstring)
    (v : Verified) (s : State) : Host Result :=
  if negb (v_signatureValid v) then Ret (ignored s)
  else
    let canonicalAddr := or_else (v_derivedAddress v) address in
    let t := prop_or_empty parsed (js "type") in
    let put (nn : jsstring) : Host Result :=
      now ← nowMs;
      let peer := {| peer_x := coordinate (prop_or_empty parsed (js "x"));
                     peer_y := coordinate (prop_or_empty parsed (js "y"));
                     peer_nick := nn; peer_ts := now |} in
      Ret (Accepted (canonicalAddr, peer),
           {| peers := <[canonicalAddr := peer]> (peers s);
              seenMsgId := seenMsgId s |}) in
    if str_eqb t (js "join")
    then put (or_else (slice_first 22 (prop_or_empty parsed (js "nick")))
                      (js "player"))
    else if str_eqb t (js "state")
    then put (or_else (slice_first 22 (prop_or_empty parsed (js "nick")))
                (or_else (default [] (peer_nick <$> peers s !! canonicalAddr))
                         (js "player")))
    else Ret (ignored s).

Definition handler (m : Inbound) (s : State) : Host Result :=
  match m with
  | NotJson _ => Ret (ignored s)
  | Json data =>
      let payload := e_payload data in
      let address := trim (e_address data) in
      let pubkeyB64 := trim (e_pubkeyB64 data) in
      let signatureB64 := trim (e_signatureB64 data) in
      if is_empty payload || is_empty address || is_empty pubkeyB64
         || is_empty signatureB64
      then Ret (ignored s)
      else
        match decodePayload PROTOCOL payload with
        | DecodeThrows | DecodeNull => Ret (ignored s)
        | DecodeObj parsed =>
            if negb (str_eqb (prop_or_empty parsed (js "room")) topic)
            then Ret (ignored s)
            else
              let nonce := trim (prop_or_empty parsed (js "nonce")) in
              if is_empty nonce || (20 <? length nonce)%nat
              then Ret (ignored s)
              else
                let unverifiedId := address ++ 58 :: nonce in
                if bool_decide (unverifiedId ∈ seenMsgId s) then Ret (ignored s)
                else
                  let s := {| peers := peers s;
                              seenMsgId := remember unverifiedId (seenMsgId s) |} in
                  v ← verifyPayload payload signatureB64 pubkeyB64 address;
                  match v with
                  | None => Ret (ignored s)
                  | Some v => dispatch parsed address v s
                  end
        end
  end.

Definition deliver (d : HostEnv * Inbound) (s : State) : Result :=
  run d.1 (handler d.2 s).

Definition state_after (ds : list (HostEnv * Inbound)) (s : State) : State :=
  foldl (λ s d, (deliver d s).2) s ds.
End Handler.

(** The stores as [connect] leaves them. *)
Definition fresh_session : State := {| peers := ∅; seenMsgId := [] |}.

End LiveGame.


(** ** Vocabulary of the properties *)

(** A string of 16-bit code units in which every surrogate is paired. *)
Fixpoint well_formed (s : jsstring) : bool :=
  match s with
  | [] => true
  | c :: r =>
      (c <? 65536)
      && (if is_lead c then
            match r with
            | t :: r' => is_trail t && well_formed r'
            | [] => false
            end
          else negb (is_trail c) && well_formed r)
  end.

(** A Unicode scalar value. *)
Definition scalar (cp : N) : Prop := cp < 1114112 ∧ ¬ (55296 <= cp <= 57343).

(** What [encodeURIComponent] writes: unreserved units, [%] and hexadecimal digits. *)
Definition uri_unit (c : N) : bool := uriUnreserved c || (c =? 37).

(** [obj[k] = v] for a key other than [__proto__]. *)
Definition put_entry (o : gmap jsstring jsstring) (e : jsstring * jsstring) :=
  <[e.1 := e.2]> o.

(** The string does not start with a space. *)
Definition no_lead_space (s : jsstring) : Prop :=
  match s with
  | [] => True
  | c :: _ => is_space c = false
  end.

(** The code points of a string; an unpaired surrogate counts as itself. *)
Fixpoint code_points (s : jsstring) : list N :=
  match s with
  | [] => []
  | c :: r =>
      if is_lead c then
        match r with
        | t :: r' =>
            if is_trail t then pair_code_point c t :: code_points r'
            else c :: code_points r
        | [] => [c]
        end
      else c :: code_points r
  end.

Fixpoint lex_compare (key : N → N) (a b : list N) : comparison :=
  match a, b with
  | [], [] => Eq
  | [], _ :: _ => Lt
  | _ :: _, [] => Gt
  | x :: a', y :: b' =>
      match key x ?= key y with
      | Eq => lex_compare key a' b'
      | c => c
      end
  end.

(** [a] comes before [b] in code-point order. *)
Definition code_point_ltb (a b : jsstring) : bool :=
  match lex_compare (λ c, c) (code_points a) (code_points b) with
  | Lt => true
  | _ => false
  end.

(** The keys are in strictly ascending code-point order. *)
Fixpoint ascending_by_code_point (ks : list jsstring) : bool :=
  match ks with
  | a :: (b :: _) as r => code_point_ltb a b && ascending_by_code_point r
  | _ => true
  end.

(** The comparator is a consistent comparison on the strings [ks], and
    tells any two different ones among them apart. *)
Definition consistent_on (cmp : jsstring → jsstring → Z) (ks : list jsstring) : bool :=
  forallb (λ x,
    forallb (λ y,
      bool_decide ((cmp x y < 0)%Z ↔ (0 < cmp y x)%Z)
      && (negb (cmp x y =? 0)%Z || str_eqb x y)
      && forallb (λ z,
           negb ((cmp x y <=? 0)%Z && (cmp y z <=? 0)%Z) || (cmp x z <=? 0)%Z) ks)
      ks) ks.

(** A key that survives the codec: not empty, free of the two delimiters,
    and neither [type] nor [__proto__]. *)
Definition plain_key (k : jsstring) : bool :=
  negb (is_empty k)
  && forallb (λ c, negb (c =? 124) && negb (c =? 61)) k
  && negb (str_eqb k (js "type"))
  && negb (str_eqb k proto_key).

Definition bar_free (s : jsstring) : bool := forallb (λ c, negb (c =? 124)) s.


(** The four fields of the envelope are present and its payload decodes to
    [parsed] under the protocol tag. *)
Definition decodes_as (tag : jsstring) (data : Envelope)
    (parsed : gmap jsstring jsstring) : Prop :=
  (is_empty (e_payload data) || is_empty (trim (e_address data))
   || is_empty (trim (e_pubkeyB64 data))
   || is_empty (trim (e_signatureB64 data))) = false
  ∧ decodePayload tag (e_payload data) = DecodeObj parsed.

Module GameFacts.
Import LiveGame.

(** The envelope gets as far as the seen set: it decodes to [parsed], is
    for the topic of the subscription and carries the nonce [nonce]. *)
Definition gated (topic : jsstring) (data : Envelope)
    (parsed : gmap jsstring jsstring) (nonce : jsstring) : Prop :=
  decodes_as PROTOCOL data parsed
  ∧ str_eqb (prop_or_empty parsed (js "room")) topic = true
  ∧ nonce = trim (prop_or_empty parsed (js "nonce"))
  ∧ (is_empty nonce || (20 <? length nonce)%nat) = false.

(** What [verifyPayload] returns when the host cannot verify. *)
Definition provisional : Verified :=
  {| v_ok := true; v_signatureValid := true;
     v_derivedAddress := []; v_error := [] |}.
End GameFacts.

Module ChatFacts.
Import Chat.

(** The envelope [data] gets through every gate before [screen] when the
    host answers as [h] does: the four fields are present, the payload
    decodes to [parsed] for the topic of the subscription, [nonce] is its
    nonce, the proof of work is found valid, and verification returns [v]
    with a valid signature. *)
Definition verified_as (cl : Closure) (h : HostEnv) (data : Envelope)
    (parsed : gmap jsstring jsstring) (nonce : jsstring) (v : Verified) : Prop :=
  decodes_as PROTOCOL data parsed
  ∧ str_eqb (prop_or_empty parsed (js "room")) (topic cl) = true
  ∧ nonce = trim (prop_or_empty parsed (js "nonce"))
  ∧ (is_empty nonce || (20 <? length nonce)%nat) = false
  ∧ run h (hasValidPow (e_payload data) POW_DIFFICULTY_BITS) = inr true
  ∧ run h (verifyPayload (e_payload data) (trim (e_signatureB64 data))
             (trim (e_pubkeyB64 data)) (trim (e_address data))) = Some v
  ∧ v_signatureValid v = true.

(** [const canonicalAddr = v.derivedAddress || address] *)
Definition canonical (data : Envelope) (v : Verified) : jsstring :=
  or_else (v_derivedAddress v) (trim (e_address data)).

(** In state [s] an envelope of address [a] with nonce [nonce] gets
    through the duplicate, block-list and replay gates. *)
Definition passes_replay_gates (a nonce : jsstring) (s : State) : Prop :=
  bool_decide (a ++ 58 :: nonce ∈ seenMsgId s) = false
  ∧ isBlocked a s = false
  ∧ bool_decide (nonce ∈ default [] (recentNonces s !! a)) = false.

(** The stores when an envelope of address [a] has got through the replay
    gates: its id is in the seen set, its nonce in the history of [a], and
    the nickname of the payload is known. *)
Definition noted (parsed : gmap jsstring jsstring) (a nonce : jsstring)
    (s : State) : State :=
  let nick := slice_first 22 (trim (prop_or_empty parsed (js "nick"))) in
  let existing := default [] (recentNonces s !! a) in
  let s2 :=
    set_recentNonces
      (insert a ((if (24 <=? length existing)%nat
                  then keep_last 20 existing else existing) ++ [nonce]))
      (set_seenMsgId (λ l, l ++ [a ++ 58 :: nonce]) s) in
  if is_empty nick then s2 else updateName a nick s2.

(** The stores after [recordSpam] for address [a] at time [now]. *)
Definition stamped (a : jsstring) (now : Z) (s : State) : State :=
  set_spamWindow
    (insert a (filter (λ t, (now - t < AUTO_BLOCK_WINDOW_MS)%Z)
                      (default [] (spamWindow s !! a)) ++ [now])) s.

(** The number [recordSpam] returns for address [a] at time [now]. *)
Definition spam_count (a : jsstring) (now : Z) (s : State) : Z :=
  Z.of_nat (length (filter (λ t, (now - t < AUTO_BLOCK_WINDOW_MS)%Z)
                           (default [] (spamWindow s !! a)) ++ [now])).

(** The text of a [msg] payload passes the last gate. *)
Definition valid_msg (parsed : gmap jsstring jsstring) : Prop :=
  prop_or_empty parsed (js "type") = js "msg"
  ∧ (is_empty (trim (prop_or_empty parsed (js "text")))
     || (500 <? length (trim (prop_or_empty parsed (js "text"))))%nat) = false.

(** One arrival: the delivery together with what the gates find in it. *)
Record Arrival : Type := {
  arr_host : HostEnv;
  arr_data : Envelope;
  arr_parsed : gmap jsstring jsstring;
  arr_nonce : jsstring;
  arr_verified : Verified
}.

Definition delivery (x : Arrival) : HostEnv * Inbound :=
  (arr_host x, Json (arr_data x)).

Section Runs.
Variable numberTruthy : jsstring → bool.
Variable cl : Closure.

End Runs.

(** The address of an accepted event. *)
Definition event_address (e : Event) : jsstring :=
  match e with
  | ProfileSeen a => a
  | MessageShown m => msg_addr m
  end.

(** What handling one delivery at time [now] does to the rate store:
    nothing, and then nothing is accepted; or it admits one address, at
    least a second after that address was last admitted. *)
Definition rate_step (now : Z) (s s' : State) (o : Outcome Event) : Prop :=
  (lastAcceptedAt s' = lastAcceptedAt s ∧ ∀ e, o ≠ Accepted e)
  ∨ (∃ a, lastAcceptedAt s' = <[a := now]> (lastAcceptedAt s)
          ∧ (1000 ≤ now - default 0 (lastAcceptedAt s !! a))%Z
          ∧ ∀ e, o = Accepted e → event_address e = a).

(** The arrival of [data] at host [h], with what the gates find in it. *)
Definition arrive (h : HostEnv) (data : Envelope) : Arrival :=
  let parsed := match decodePayload PROTOCOL (e_payload data) with
                | DecodeObj p => p
                | _ => ∅
                end in
  {| arr_host := h; arr_data := data; arr_parsed := parsed;
     arr_nonce := trim (prop_or_empty parsed (js "nonce"));
     arr_verified :=
       default {| v_ok := false; v_signatureValid := false;
                  v_addressMatches := false; v_derivedAddress := [];
                  v_error := [] |}
         (run h (verifyPayload (e_payload data) (trim (e_signatureB64 data))
                   (trim (e_pubkeyB64 data)) (trim (e_address data)))) |}.
End ChatFacts.

(** ** Test doubles

    A concrete host for the examples: every digest starts with enough zero
    bits, and verification derives the address it is asked about unless told
    otherwise. *)

Definition to_upper (c : N) : N :=
  if (97 <=? c) && (c <=? 122) then c - 32 else c.

Definition swap_case (c : N) : N :=
  if (97 <=? c) && (c <=? 122) then c - 32
  else if (65 <=? c) && (c <=? 90) then c + 32
  else c.

(** [e] followed by the combining acute accent U+0301 is canonically
    equivalent to U+00E9. *)
Fixpoint compose (s : jsstring) : jsstring :=
  match s with
  | [] => []
  | c :: r =>
      match r with
      | d :: r' =>
          if (c =? 101) && (d =? 769) then 233 :: compose r'
          else c :: compose r
      | [] => [c]
      end
  end.

(** A collation in the manner of the root locale on ASCII letters:
    alphabetical without regard to case, the lower-case letter first among
    equals; any other unit by its number. As [localeCompare] must, it
    returns zero for canonically equivalent strings (here the one pair that
    [compose] knows). *)
Definition collation_compare (a b : jsstring) : Z :=
  let a := compose a in
  let b := compose b in
  match lex_compare to_upper a b with
  | Lt => (-1)%Z
  | Gt => 1%Z
  | Eq =>
      match lex_compare swap_case a b with
      | Lt => (-1)%Z
      | Gt => 1%Z
      | Eq => 0%Z
      end
  end.

Definition zero_digest : list Z := replicate 32 0%Z.

Definition derive (address : jsstring) : VerifyResult :=
  {| res_ok := true; res_signatureValid := Some true;
     res_addressMatches := Some true; res_derivedAddress := address;
     res_derivedAddr := []; res_error := [] |}.

(** Verification derives the claimed address. *)
Definition stub_host (now : Z) : HostEnv :=
  {| env_now := now;
     env_digest := λ _, DigestOk zero_digest;
     env_verify := λ q, VerifyOk (derive (req_address q)) |}.

(** Verification derives [address] whatever the envelope claims. *)
Definition deriving_host (address : jsstring) (now : Z) : HostEnv :=
  {| env_now := now;
     env_digest := λ _, DigestOk zero_digest;
     env_verify := λ _, VerifyOk (derive address) |}.

(** Verification finds the signature invalid. *)
Definition rejecting_host (now : Z) : HostEnv :=
  {| env_now := now;
     env_digest := λ _, DigestOk zero_digest;
     env_verify := λ _, VerifyOk
       {| res_ok := false; res_signatureValid := Some false;
          res_addressMatches := Some false; res_derivedAddress := [];
          res_derivedAddr := []; res_error := js "bad signature" |} |}.

(** The deployment has no [wallet.verifyArbitrary]. *)
Definition bare_host (now : Z) : HostEnv :=
  {| env_now := now;
     env_digest := λ _, DigestOk zero_digest;
     env_verify := λ _, VerifyAbsent |}.

Definition decimal_truthy (s : jsstring) : bool :=
  forallb is_digit s && existsb (λ c, negb (c =? 48)) s.

(** [Number] on decimal numerals without an exponent, of at most fifteen
    digits: white space around, a sign, digits with or without a point, or
    [Infinity]; the numerals that [toFixed] writes are among them. Both the
    digits read as an integer and the power of ten are below 2^53, so their
    quotient is rounded once, as the engine rounds the numeral. The
    examples use no numeral with an exponent, a radix prefix or more
    digits; this reading gives [NaN] for them, as for what is no numeral. *)
Definition decimal_number (s : jsstring) : float :=
  let s := trim s in
  let negative := match s with 45 :: _ => true | _ => false end in
  let body := match s with 45 :: r | 43 :: r => r | _ => s end in
  let signed (q : float) : float := if negative then (- q)%float else q in
  let value (ds : jsstring) (k : nat) : float :=
    if forallb is_digit ds && (length ds <=? 15)%nat then
      let m := foldl (λ acc c, 10 * acc + Z.of_N (c - 48))%Z 0%Z ds in
      signed (PrimFloat.of_uint63 (Uint63.of_Z m)
              / PrimFloat.of_uint63 (Uint63.of_Z (10 ^ Z.of_nat k)))%float
    else PrimFloat.nan in
  if is_empty s then 0%float
  else if str_eqb body (js "Infinity") then signed PrimFloat.infinity
  else
    match split_on 46 body with
    | [i] => if is_empty i then PrimFloat.nan else value i 0%nat
    | [i; f] =>
        if is_empty i && is_empty f then PrimFloat.nan else value (i ++ f) (length f)
    | _ => PrimFloat.nan
    end.

Definition chat_topic : jsstring := js "lumen/pubsub_chat/v1/lobby".
Definition game_topic : jsstring := js "lumen/pubsub_livegame/v1/lobby".

Definition chat_closure : Chat.Closure :=
  {| Chat.topic := chat_topic; Chat.status_address := [];
     Chat.names_at_connect := ∅ |}.

(** The fields [publishSigned] puts into a payload. *)
Definition sample_fields (room address nonce : jsstring)
    (extra : list (jsstring * jsstring)) : list (jsstring * jsstring) :=
  [(js "room", room); (js "ts", js "1700000000000"); (js "addr", address);
   (js "nick", js "ann")] ++ extra ++ [(js "nonce", nonce)].

(** The envelope [publishSigned] sends; the handler never looks into the
    key or the signature, the host does. *)
Definition sign (tag type room address nonce : jsstring)
    (extra : list (jsstring * jsstring)) : Envelope :=
  {| e_payload :=
       default [] (encodePayload collation_compare tag type
                     (sample_fields room address nonce extra));
     e_address := address;
     e_pubkeyB64 := js "cHVia2V5";
     e_signatureB64 := js "c2lnbmF0dXJl" |}.

(** A chat message of [address] in [room]. *)
Definition chat_msg (room address nonce text : jsstring) : Envelope :=
  sign Chat.PROTOCOL (js "msg") room address nonce [(js "text", text)].

(** A [join] of the live cursor room. *)
Definition game_join (room address nonce : jsstring) : Envelope :=
  sign LiveGame.PROTOCOL (js "join") room address nonce
    [(js "x", js "500.0"); (js "y", js "500.0")].

(** The members of a crowded room: member [i] has its own address and sends
    one chat message. *)
Definition crowd_address (i : nat) : jsstring := repeat 97 (S i).

Definition crowd (n : nat) : list (HostEnv * Inbound) :=
  (λ i, (stub_host 0, Json (chat_msg chat_topic (crowd_address i) (js "ab12") (js "hi"))))
    <$> seq 0 n.

Definition alice : jsstring := js "lumen1alice".
Definition bob : jsstring := js "lumen1bob".

(** [decodePayload(encodePayload(type, fields))], where both succeed. *)
Definition round_trip (tag type : jsstring) (fields : list (jsstring * jsstring))
  : option (gmap jsstring jsstring) :=
  payload ← encodePayload collation_compare tag type fields;
  match decodePayload tag payload with
  | DecodeObj parsed => Some parsed
  | _ => None
  end.

(** What [decodePayload] makes of a payload, empty where it fails. *)
Definition parsed_of (tag : jsstring) (data : Envelope) : gmap jsstring jsstring :=
  match decodePayload tag (e_payload data) with
  | DecodeObj parsed => parsed
  | _ => ∅
  end.


(** A digest with exactly twelve leading zero bits. *)
Definition twelve_zero_bits : list Z := [0; 15; 255]%Z.

(** ** One delivery to the chat handler, case by case *)

Module ChatSteps.
Import Chat ChatFacts.

(** The reasons recorded by the gates that come before the seen set:
    [bad_json], [bad_payload], [bad_nonce], [bad_pow], [bad_sig],
    [missing_fields], [wrong_room] and [pow_error], with or without a
    suffix. *)
Definition early_reason (r : jsstring) : bool :=
  bool_decide (take 4 r ∈ js <$> ["bad_"; "miss"; "wron"; "pow_"]%string).

(** The reasons recorded by the check of the payload by type. *)
Definition type_reason (r : jsstring) : bool :=
  bool_decide (r ∈ js <$> ["unknown_type"; "empty_text"; "text_too_long"]%string).

(** What the counters of [rxStats] show after an outcome. *)
Definition tally (o : Outcome Event) (r : RxStats) : RxStats :=
  match o with
  | Ignored =>
      {| total := total r + 1; accepted := accepted r;
         dropped := dropped r; lastDrop := lastDrop r |}
  | Dropped reason =>
      {| total := total r + 1; accepted := accepted r;
         dropped := dropped r + 1; lastDrop := reason |}
  | Accepted _ =>
      {| total := total r + 1; accepted := accepted r + 1;
         dropped := dropped r; lastDrop := lastDrop r |}
  end.

Definition is_accepted (o : Outcome Event) : bool :=
  match o with Accepted _ => true | _ => false end.

Definition is_dropped (o : Outcome Event) : bool :=
  match o with Dropped _ => true | _ => false end.

(** Every nonce in a history has its message id in the seen set. *)
Definition histories_in_seen (s : State) : Prop :=
  ∀ a n, n ∈ default [] (recentNonces s !! a) → a ++ 58 :: n ∈ seenMsgId s.

Section Steps.
Variable numberTruthy : jsstring → bool.
Variable cl : Closure.

(** The entry the handler pushes for an arrival. *)
Definition shown (x : Arrival) : Message :=
  let a := canonical (arr_data x) (arr_verified x) in
  let raw := prop_or_empty (arr_parsed x) (js "ts") in
  {| msg_id := a ++ 58 :: arr_nonce x; msg_addr := a;
     msg_text := trim (prop_or_empty (arr_parsed x) (js "text"));
     msg_ts := if numberTruthy raw then TsField raw
               else TsClock (env_now (arr_host x)) |}.

(** The stores when the arrival has got through the replay gates and
    the spam gate has counted it. *)
Definition counted (x : Arrival) (s : State) : State :=
  let a := canonical (arr_data x) (arr_verified x) in
  stamped a (env_now (arr_host x))
    (noted (arr_parsed x) a (arr_nonce x) (count_total s)).

(** The stores when the rate gate has let the arrival through. *)
Definition admitted (x : Arrival) (s : State) : State :=
  let a := canonical (arr_data x) (arr_verified x) in
  set_lastAcceptedAt (insert a (env_now (arr_host x))) (counted x s).

(** What handling a verified arrival does, gate by gate. *)
Inductive verified_step (x : Arrival) (s : State) : Outcome Event → State → Prop :=
| step_seen :
    canonical (arr_data x) (arr_verified x) ++ 58 :: arr_nonce x ∈ seenMsgId s →
    verified_step x s Ignored (count_total s)
| step_blocked :
    canonical (arr_data x) (arr_verified x) ++ 58 :: arr_nonce x ∉ seenMsgId s →
    has_entry (blockedByAddr s) (canonical (arr_data x) (arr_verified x)) = true →
    verified_step x s (Dropped (js "blocked"))
      (count_dropped (js "blocked")
         (set_seenMsgId
            (λ l, l ++ [canonical (arr_data x) (arr_verified x) ++ 58 :: arr_nonce x])
            (count_total s)))
| step_replay :
    canonical (arr_data x) (arr_verified x) ++ 58 :: arr_nonce x ∉ seenMsgId s →
    has_entry (blockedByAddr s) (canonical (arr_data x) (arr_verified x)) = false →
    arr_nonce x
      ∈ default [] (recentNonces s !! canonical (arr_data x) (arr_verified x)) →
    verified_step x s (Dropped (js "nonce_replay"))
      (count_dropped (js "nonce_replay")
         (set_seenMsgId
            (λ l, l ++ [canonical (arr_data x) (arr_verified x) ++ 58 :: arr_nonce x])
            (count_total s)))
| step_auto_blocked :
    passes_replay_gates (canonical (arr_data x) (arr_verified x)) (arr_nonce x) s →
    (AUTO_BLOCK_MAX_MESSAGES
     < spam_count (canonical (arr_data x) (arr_verified x)) (env_now (arr_host x)) s)%Z →
    verified_step x s (Dropped (js "auto_blocked"))
      (count_dropped (js "auto_blocked")
         (run (arr_host x)
            (blockUser cl (canonical (arr_data x) (arr_verified x)) (js "auto_spam")
               (slice_first 22 (trim (prop_or_empty (arr_parsed x) (js "nick"))))
               (counted x s))))
| step_rate_limited :
    passes_replay_gates (canonical (arr_data x) (arr_verified x)) (arr_nonce x) s →
    (spam_count (canonical (arr_data x) (arr_verified x)) (env_now (arr_host x)) s
     ≤ AUTO_BLOCK_MAX_MESSAGES)%Z →
    (env_now (arr_host x)
     - default 0 (lastAcceptedAt s !! canonical (arr_data x) (arr_verified x)) < 1000)%Z →
    verified_step x s (Dropped (js "rate_limited"))
      (count_dropped (js "rate_limited") (counted x s))
| step_profile :
    passes_replay_gates (canonical (arr_data x) (arr_verified x)) (arr_nonce x) s →
    (spam_count (canonical (arr_data x) (arr_verified x)) (env_now (arr_host x)) s
     ≤ AUTO_BLOCK_MAX_MESSAGES)%Z →
    (1000 ≤ env_now (arr_host x)
            - default 0 (lastAcceptedAt s !! canonical (arr_data x) (arr_verified x)))%Z →
    prop_or_empty (arr_parsed x) (js "type") = js "profile" →
    verified_step x s
      (Accepted (ProfileSeen (canonical (arr_data x) (arr_verified x))))
      (count_accepted (admitted x s))
| step_refused r :
    passes_replay_gates (canonical (arr_data x) (arr_verified x)) (arr_nonce x) s →
    (spam_count (canonical (arr_data x) (arr_verified x)) (env_now (arr_host x)) s
     ≤ AUTO_BLOCK_MAX_MESSAGES)%Z →
    (1000 ≤ env_now (arr_host x)
            - default 0 (lastAcceptedAt s !! canonical (arr_data x) (arr_verified x)))%Z →
    type_reason r = true →
    ¬ valid_msg (arr_parsed x) →
    verified_step x s (Dropped r) (count_dropped r (admitted x s))
| step_message :
    passes_replay_gates (canonical (arr_data x) (arr_verified x)) (arr_nonce x) s →
    (spam_count (canonical (arr_data x) (arr_verified x)) (env_now (arr_host x)) s
     ≤ AUTO_BLOCK_MAX_MESSAGES)%Z →
    (1000 ≤ env_now (arr_host x)
            - default 0 (lastAcceptedAt s !! canonical (arr_data x) (arr_verified x)))%Z →
    valid_msg (arr_parsed x) →
    verified_step x s (Accepted (MessageShown (shown x)))
      (count_accepted (pushMessage (shown x) (admitted x s))).

(** What handling any delivery does. *)
Inductive step (h : HostEnv) (m : Inbound) (s : State)
  : Outcome Event → State → Prop :=
| step_unreadable :
    step h m s Ignored (count_total s)
| step_early r :
    early_reason r = true →
    step h m s (Dropped r) (count_dropped r (count_total s))
| step_verified x o s' :
    arr_host x = h → m = Json (arr_data x) →
    verified_as cl h (arr_data x) (arr_parsed x) (arr_nonce x) (arr_verified x) →
    verified_step x s o s' →
    step h m s o s'.
End Steps.
End ChatSteps.

(** ** The rest of the chat room: views and the block list *)

Module ChatApp.
Import Chat.

(** [shortAddr]: an address of more than 16 units is shown as its first
    seven units, an ellipsis (U+2026) and its last five. *)
Definition shortAddr (addr : jsstring) : jsstring :=
  if (length addr <=? 16)%nat then addr
  else slice_first 7 addr ++ 8230 :: keep_last 5 addr.

Definition BLOCKLIST_KEY_PREFIX : jsstring := js "lumen.pubsub_chat.blocklist.v1:".

(** [blocklistStorageKey]: [None] is the URIError of [encodeURIComponent],
    which [loadBlocklist] and [saveBlocklist] catch. *)
Definition blocklistStorageKey (topic : jsstring) : option jsstring :=
  app BLOCKLIST_KEY_PREFIX <$> encodeURIComponent (trim topic).

(** [unblockUser]: [delete] takes an own entry away and leaves what the
    object inherits. The toast is not modelled. *)
Definition unblockUser (address : jsstring) (s : State) : State :=
  let addr := trim address in
  if is_empty addr then s
  else set_blockedByAddr
         (λ prev, if has_entry prev addr then delete addr prev else prev) s.
End ChatApp.

(** ** The rest of the live cursor room *)

Module GameApp.
Import LiveGame.

(** [push] of [useLog]; [stamp] is [new Date().toLocaleTimeString()] at
    the time of the call. *)
Definition push (stamp line : jsstring) (lines : list jsstring) : list jsstring :=
  if is_empty line then lines
  else (if (250 <? length lines)%nat then keep_last 200 lines else lines)
       ++ [91 :: stamp ++ js "] " ++ line].

(** The pruning of the render loop: a peer not heard of for more than
    6000 ms goes. *)
Definition prune (t : Z) (ps : gmap jsstring Peer) : gmap jsstring Peer :=
  filter (λ kp, ¬ (t - peer_ts kp.2 > 6000)%Z) ps.
End GameApp.

(** ** The sending side

    What a send needs from the host besides the clock and the digest: the
    active wallet profile, [wallet.signArbitrary], [pubsub.publish] and
    [Math.random]. A send reads the clock and draws random digits several
    times, so both are sequences here, read one value after the other. *)

Module Sender.

Record Profile : Type := {
  prof_id : jsstring;
  prof_walletAddress : jsstring;
  prof_address : jsstring
}.

(** What [profiles.getActive] gives; a property that is missing reads as the
    empty string, [null] as a profile without properties. *)
Inductive ProfileAnswer : Type :=
| ProfileAbsent                        (* no [profiles.getActive] *)
| ProfileRejected (message : jsstring) (* the call throws or rejects *)
| ProfileOk (p : Profile).

Record SignRequest : Type := {
  sign_profileId : jsstring;
  sign_address : jsstring;
  sign_payload : jsstring
}.

Record SignResult : Type := {
  sig_ok : bool;
  sig_error : jsstring;
  sig_address : jsstring;
  sig_pubkeyB64 : jsstring;
  sig_signatureB64 : jsstring
}.

Inductive SignAnswer : Type :=
| SignAbsent                        (* no [wallet.signArbitrary] *)
| SignRejected (message : jsstring) (* the call throws or rejects *)
| SignNull                          (* resolves to [null] or [undefined] *)
| SignOk (res : SignResult).

(** The call [pubsub.publish(topic, msg, { encoding: 'json' })]: [msg] is
    the envelope and its [t]. *)
Record Outgoing : Type := {
  out_topic : jsstring;
  out_t : jsstring;
  out_data : Envelope
}.

Inductive PublishAnswer : Type :=
| PublishRejected (message : jsstring)
| PublishNull
| PublishOk (ok : bool) (error : jsstring).

(** The host during one send. [clock] and [dice] are the successive values
    of [Date.now()] and of [(Math.random() * 16) | 0]. *)
Record Platform : Type := {
  clock : nat → Z;
  dice : nat → N;
  digest : list N → DigestAnswer;
  verifier : VerifyRequest → VerifyAnswer;
  profile : ProfileAnswer;
  signer : SignRequest → SignAnswer;
  network : option (Outgoing → PublishAnswer)
}.

(** How far the two sequences have been read, and what was handed to
    [pubsub.publish], oldest first. *)
Record Trace : Type := {
  ticks : nat;
  rolls : nat;
  sent : list Outgoing
}.

(** How a computation ends: with a value, with an error thrown, or not
    within the number of mining attempts looked at. *)
Inductive Res (A : Type) : Type :=
| Done (a : A)
| Threw (message : jsstring)
| Spinning.

Arguments Done {A} a.
Arguments Threw {A} message.
Arguments Spinning {A}.

Definition Io (A : Type) : Type := Platform → Trace → Trace * Res A.

Definition io_ret {A} (a : A) : Io A := λ _ t, (t, Done a).

Definition io_bind {A B} (f : A → Io B) (p : Io A) : Io B :=
  λ d t,
    match p d t with
    | (t1, Done a) => f a d t1
    | (t1, Threw e) => (t1, Threw e)
    | (t1, Spinning) => (t1, Spinning)
    end.

#[export] Instance io_mret : MRet Io := @io_ret.
#[export] Instance io_mbind : MBind Io := @io_bind.

Definition throw {A} (message : jsstring) : Io A := λ _ t, (t, Threw message).

(** [try { p; k } catch { c }] where [k] does not throw. *)
Definition attempt {A B} (p : Io A) (k : A → Io B) (c : jsstring → Io B) : Io B :=
  λ d t,
    match p d t with
    | (t1, Done a) => k a d t1
    | (t1, Threw e) => c e d t1
    | (t1, Spinning) => (t1, Spinning)
    end.

(** [Date.now()] *)
Definition now : Io Z :=
  λ d t, ({| ticks := S (ticks t); rolls := rolls t; sent := sent t |},
          Done (clock d (ticks t))).

(** [(Math.random() * 16) | 0] *)
Definition roll : Io N :=
  λ d t, ({| ticks := ticks t; rolls := S (rolls t); sent := sent t |},
          Done (dice d (rolls t))).

(** A computation of the receiving side, run on this host. *)
Fixpoint perform {A} (p : Host A) : Io A :=
  match p with
  | Ret a => mret a
  | DateNow k => λ d t, io_bind (λ n, perform (k n)) now d t
  | SubtleDigest data k => λ d t, perform (k (digest d data)) d t
  | VerifyArbitrary q k => λ d t, perform (k (verifier d q)) d t
  end.

Definition HEX_ALPHABET : jsstring := js "0123456789abcdef".

(** [alphabet[i]] appended to a string: past the end it is [undefined]. *)
Definition alphabet_at (i : N) : jsstring :=
  match HEX_ALPHABET !! N.to_nat i with
  | Some c => [c]
  | None => js "undefined"
  end.

(** [randHex(n)] *)
Fixpoint randHex (n : nat) : Io jsstring :=
  match n with
  | O => mret []
  | S n' => i ← roll; rest ← randHex n'; mret (alphabet_at i ++ rest)
  end.

(** [String(n)] for an integer below 10^21 in size, as the clock gives. *)
Fixpoint digits (fuel : nat) (n : N) (acc : jsstring) : jsstring :=
  match fuel with
  | O => acc
  | S fuel' =>
      let acc := (48 + n mod 10) :: acc in
      if n <? 10 then acc else digits fuel' (n / 10) acc
  end.

Definition decimal (z : Z) : jsstring :=
  match z with
  | Z0 => [48]
  | Zpos p => digits (Pos.size_nat p) (Npos p) []
  | Zneg p => 45 :: digits (Pos.size_nat p) (Npos p) []
  end.

(** [o[k] = v] on the entries of an object in property order: a property
    that is there keeps its place. (Keys that are array indices come first
    in [Object.entries]; no caller uses one.) *)
Fixpoint set_prop (k v : jsstring) (o : list (jsstring * jsstring))
  : list (jsstring * jsstring) :=
  match o with
  | [] => [(k, v)]
  | e :: r => if str_eqb e.1 k then (k, v) :: r else e :: set_prop k v r
  end.

(** [{ ...o, ...fields }] *)
Definition spread (o fields : list (jsstring * jsstring)) : list (jsstring * jsstring) :=
  foldl (λ acc e, set_prop e.1 e.2 acc) o fields.

(** [getActiveProfile]: the profile id and the address. *)
Definition getActiveProfile : Io (jsstring * jsstring) :=
  λ d t,
    match profile d with
    | ProfileAbsent => (t, Threw (js "lumen.profiles.getActive unavailable"))
    | ProfileRejected e => (t, Threw e)
    | ProfileOk p =>
        let profileId := trim (prof_id p) in
        let address := trim (or_else (prof_walletAddress p) (prof_address p)) in
        if is_empty profileId || is_empty address
        then (t, Threw (js "No active wallet profile"))
        else (t, Done (profileId, address))
    end.

(** [signPayload] *)
Definition signPayload (profileId address payload : jsstring) : Io SignResult :=
  λ d t,
    match signer d {| sign_profileId := profileId; sign_address := address;
                      sign_payload := payload |} with
    | SignAbsent => (t, Threw (js "lumen.wallet.signArbitrary unavailable"))
    | SignRejected e => (t, Threw e)
    | SignNull => (t, Threw (js "sign failed"))
    | SignOk res =>
        if sig_ok res then (t, Done res)
        else (t, Threw (or_else (sig_error res) (js "sign failed")))
    end.

(** [const res = await api.pubsub.publish(topic, msg, ...);
     if (!res?.ok) throw ...] *)
Definition publish (send : Outgoing → PublishAnswer) (msg : Outgoing) : Io unit :=
  λ d t,
    let t1 := {| ticks := ticks t; rolls := rolls t; sent := sent t ++ [msg] |} in
    match send msg with
    | PublishRejected e => (t1, Threw e)
    | PublishNull => (t1, Threw (js "publish failed"))
    | PublishOk ok error =>
        if ok then (t1, Done tt)
        else (t1, Threw (or_else error (js "publish failed")))
    end.

(** The envelope [publishSigned] builds from the signature. *)
Definition envelope (sig : SignResult) (address payload : jsstring) : Envelope :=
  {| e_payload := payload;
     e_address := or_else (sig_address sig) address;
     e_pubkeyB64 := sig_pubkeyB64 sig;
     e_signatureB64 := sig_signatureB64 sig |}.

(** ** Vocabulary of the sending side *)

(** The string [randHex(n)] makes of the digits drawn from position
    [from] on. *)
Definition drawn (d : Platform) (from n : nat) : jsstring :=
  concat ((λ j, alphabet_at (dice d j)) <$> seq from n).

(** [Math.random()] is below 1, so every digit drawn is below 16. *)
Definition fair (d : Platform) : Prop := ∀ i, dice d i < 16.

(** The inbound handler's view of a host whose clock shows [now]. *)
Definition receiver (d : Platform) (now : Z) : HostEnv :=
  {| env_now := now; env_digest := digest d; env_verify := verifier d |}.

(** Printable ASCII other than the space. *)
Definition plain_unit (c : N) : bool := (32 <? c) && (c <? 127).

Definition plain_text (s : jsstring) : bool := forallb plain_unit s.

(** The address [getActiveProfile] returns on this host, empty where
    it throws. *)
Definition wallet_address (d : Platform) : jsstring :=
  match profile d with
  | ProfileOk p => trim (or_else (prof_walletAddress p) (prof_address p))
  | _ => []
  end.

(** The nick [publishSigned] puts into the payload. *)
Definition safe_nick (nick : jsstring) : jsstring :=
  or_else (slice_first 22 (trim nick)) (js "anon").

(** The host of a receiver finds the envelope complete and its signature
    valid: [v] is what its [verifyPayload] returns. *)
Definition vouched (h : HostEnv) (data : Envelope) (v : Chat.Verified) : Prop :=
  (is_empty (trim (e_address data)) || is_empty (trim (e_pubkeyB64 data))
   || is_empty (trim (e_signatureB64 data))) = false
  ∧ run h (Chat.verifyPayload (e_payload data) (trim (e_signatureB64 data))
             (trim (e_pubkeyB64 data)) (trim (e_address data))) = Some v
  ∧ Chat.v_signatureValid v = true.

(** The trace when [n] more digits have been drawn. *)
Definition after_rolls (n : nat) (t : Trace) : Trace :=
  {| ticks := ticks t; rolls := rolls t + n; sent := sent t |}.

Module ChatSend.
Import Chat.

Record Mined : Type := {
  mined_payload : jsstring;
  mined_nonce : jsstring;
  mined_attempts : N
}.

(** What [publishSigned] returns. *)
Record Published : Type := {
  pub_address : jsstring;
  pub_nonce : jsstring;
  pub_ts : Z;
  pub_type : jsstring;
  pub_payload : jsstring
}.

(** The state of [App] that sending looks at, with the stores it shares
    with the inbound handler. *)
Record App : Type := {
  store : State;
  connected : bool;      (* [status.connected] *)
  peerCount : Z;
  sending : bool;
  text : jsstring;
  nick : jsstring;
  topic : jsstring;
  lastSentAt : Z         (* [lastSentAtRef.current] *)
}.

Definition set_store (f : State → State) (app : App) : App :=
  {| store := f (store app); connected := connected app; peerCount := peerCount app;
     sending := sending app; text := text app; nick := nick app; topic := topic app;
     lastSentAt := lastSentAt app |}.

Definition set_sending (b : bool) (app : App) : App :=
  {| store := store app; connected := connected app; peerCount := peerCount app;
     sending := b; text := text app; nick := nick app; topic := topic app;
     lastSentAt := lastSentAt app |}.

Definition set_text (s : jsstring) (app : App) : App :=
  {| store := store app; connected := connected app; peerCount := peerCount app;
     sending := sending app; text := s; nick := nick app; topic := topic app;
     lastSentAt := lastSentAt app |}.

Definition set_lastSentAt (n : Z) (app : App) : App :=
  {| store := store app; connected := connected app; peerCount := peerCount app;
     sending := sending app; text := text app; nick := nick app; topic := topic app;
     lastSentAt := n |}.

Section Sending.
Variable localeCompare : jsstring → jsstring → Z.

(** The loop of [minePowPayload], looked at for [fuel] attempts. The
    pause after every 64th attempt lets other tasks run and changes
    nothing here. *)
Fixpoint mine (fuel : nat) (type : jsstring) (base : list (jsstring * jsstring))
    (bits : Z) (attempts : N) : Io Mined :=
  match fuel with
  | O => λ _ t, (t, Spinning)
  | S fuel' =>
      nonce ← randHex 16;
      match encodePayload localeCompare PROTOCOL type
              (set_prop (js "nonce") nonce base) with
      | None => throw (js "URI malformed")
      | Some payload =>
          ok ← perform (hasValidPow payload bits);
          match ok with
          | inl e => throw e
          | inr true =>
              mret {| mined_payload := payload; mined_nonce := nonce;
                      mined_attempts := attempts + 1 |}
          | inr false => mine fuel' type base bits (attempts + 1)
          end
      end
  end.

(** [minePowPayload(type, baseFields, bits)] *)
Definition minePowPayload (fuel : nat) (type : jsstring)
    (baseFields : list (jsstring * jsstring)) (bits : Z) : Io Mined :=
  mine fuel type baseFields bits 0.

(** The payload of attempt number [i] (from 0) of a mining that
    starts with the trace [t]. *)
Definition candidate (d : Platform) (t : Trace) (type : jsstring)
    (base : list (jsstring * jsstring)) (i : nat) : option jsstring :=
  encodePayload localeCompare PROTOCOL type
    (set_prop (js "nonce") (drawn d (rolls t + 16 * i) 16) base).

(** [publishSigned(type, fields)] in a render with this [topic] and
    [nick]. *)
Definition publishSigned (fuel : nat) (topic nick type : jsstring)
    (fields : list (jsstring * jsstring)) : Io Published :=
  λ d,
    match network d with
    | None => throw (js "lumen.pubsub.publish unavailable") d
    | Some send =>
        ('(profileId, address) ← getActiveProfile;
         let safeNick := or_else (slice_first 22 (trim nick)) (js "anon") in
         ts ← now;
         let baseFields :=
           spread [(js "room", topic); (js "ts", decimal ts); (js "addr", address);
                   (js "nick", safeNick)] fields in
         mined ← minePowPayload fuel type baseFields POW_DIFFICULTY_BITS;
         sig ← signPayload profileId address (mined_payload mined);
         let data := envelope sig address (mined_payload mined) in
         publish send {| out_topic := topic; out_t := type; out_data := data |};;
         mret {| pub_address := e_address data; pub_nonce := mined_nonce mined;
                 pub_ts := ts; pub_type := type;
                 pub_payload := mined_payload mined |}) d
    end.

(** [canSendNow] *)
Definition canSendNow (app : App) : Io bool :=
  n ← now; mret (1000 <=? n - lastSentAt app)%Z.

(** What [sendMessage] does with the stores once [publishSigned] has
    returned [res]: the own message is shown at once, under the id the
    handler would give it. *)
Definition echo (msg userNick : jsstring) (res : Published) (s : State) : Io State :=
  if is_empty (pub_address res) || is_empty (pub_nonce res) then mret s
  else
    let s := updateName (pub_address res) (slice_first 22 (trim userNick)) s in
    let msgId := pub_address res ++ 58 :: pub_nonce res in
    if bool_decide (msgId ∈ seenMsgId s) then mret s
    else
      let s := set_seenMsgId (λ l, l ++ [msgId]) s in
      let s := (markSeenNonce (pub_address res) (pub_nonce res) s).2 in
      ts ← (if (pub_ts res =? 0)%Z then now else mret (pub_ts res));
      mret (pushMessage {| msg_id := msgId; msg_addr := pub_address res;
                           msg_text := msg; msg_ts := TsClock ts |} s).

(** [sendMessage]; the toasts are not modelled. *)
Definition sendMessage (fuel : nat) (app : App) : Io App :=
  if negb (connected app) then mret app
  else if (peerCount app <=? 0)%Z then mret app
  else if sending app then mret app
  else
    let msg := trim (text app) in
    if is_empty msg then mret app
    else if (500 <? length msg)%nat then mret app
    else
      ok ← canSendNow app;
      if negb ok then mret app
      else
        n ← now;
        let app := set_lastSentAt n (set_sending true app) in
        attempt
          (publishSigned fuel (topic app) (nick app) (js "msg") [(js "text", msg)])
          (λ res,
             s ← echo msg (nick app) res (store app);
             mret (set_sending false (set_store (λ _, s) (set_text [] app))))
          (λ _, mret (set_sending false app)).

(** [updateProfile] *)
Definition updateProfile (fuel : nat) (app : App) : Io App :=
  if negb (connected app) then mret app
  else
    ok ← canSendNow app;
    if negb ok then mret app
    else
      n ← now;
      let app := set_lastSentAt n app in
      attempt (publishSigned fuel (topic app) (nick app) (js "profile") [])
        (λ _, mret app) (λ _, mret app).
End Sending.
End ChatSend.

Module GameSend.
Import LiveGame.

Section Sending.
Variable localeCompare : jsstring → jsstring → Z.

(** [publishSigned(type, fields)] of the live cursor room: no proof of
    work, a nonce of eight digits. *)
Definition publishSigned (topic type : jsstring)
    (fields : list (jsstring * jsstring)) : Io unit :=
  λ d,
    match network d with
    | None => throw (js "lumen.pubsub.publish unavailable") d
    | Some send =>
        ('(profileId, address) ← getActiveProfile;
         ts ← now;
         nonce ← randHex 8;
         match encodePayload localeCompare PROTOCOL type
                 (spread [(js "room", topic); (js "ts", decimal ts);
                          (js "nonce", nonce); (js "addr", address)] fields) with
         | None => throw (js "URI malformed")
         | Some payload =>
             sig ← signPayload profileId address payload;
             publish send {| out_topic := topic; out_t := type;
                             out_data := envelope sig address payload |}
         end) d
    end.
End Sending.
End GameSend.
End Sender.

(** ** Test doubles of the sending side

    A wallet that signs under the address it is asked for, a network that
    takes everything, a clock that advances by a millisecond per reading,
    and random digits that repeat sixteen times each, so that the first
    nonce is sixteen zeros and the second sixteen ones. *)

Definition demo_signer (q : Sender.SignRequest) : Sender.SignAnswer :=
  Sender.SignOk
    {| Sender.sig_ok := true; Sender.sig_error := [];
       Sender.sig_address := Sender.sign_address q;
       Sender.sig_pubkeyB64 := js "cHVia2V5";
       Sender.sig_signatureB64 := js "c2lnbmF0dXJl" |}.

Definition demo_host_with (digest : list N → DigestAnswer) : Sender.Platform :=
  {| Sender.clock := λ i, (1700000000000 + Z.of_nat i)%Z;
     Sender.dice := λ i, N.of_nat (i / 16) mod 16;
     Sender.digest := digest;
     Sender.verifier := λ q, VerifyOk (derive (req_address q));
     Sender.profile :=
       Sender.ProfileOk {| Sender.prof_id := js "profile-1";
                           Sender.prof_walletAddress := alice;
                           Sender.prof_address := [] |};
     Sender.signer := demo_signer;
     Sender.network := Some (λ _, Sender.PublishOk true []) |}.

(** Every digest starts with enough zero bits. *)
Definition demo_host : Sender.Platform := demo_host_with (λ _, DigestOk zero_digest).

(** The digest of data that ends in the digit 0 has no leading zero bit. *)
Definition picky_host : Sender.Platform :=
  demo_host_with (λ data, DigestOk (if bool_decide (last data = Some 48)
                                    then [255%Z] else zero_digest)).

Definition idle : Sender.Trace :=
  {| Sender.ticks := 0; Sender.rolls := 0; Sender.sent := [] |}.

Definition demo_app (nick text : jsstring) : Sender.ChatSend.App :=
  {| Sender.ChatSend.store := Chat.fresh_session ∅;
     Sender.ChatSend.connected := true; Sender.ChatSend.peerCount := 1;
     Sender.ChatSend.sending := false; Sender.ChatSend.text := text;
     Sender.ChatSend.nick := nick; Sender.ChatSend.topic := chat_topic;
     Sender.ChatSend.lastSentAt := 0 |}.

(** One send of [ hello ] by ann. *)
Definition demo_send : Sender.Trace * Sender.Res Sender.ChatSend.App :=
  Sender.ChatSend.sendMessage collation_compare 1 (demo_app (js "ann") (js " hello "))
    demo_host idle.

(** The app after a send, as it was where the send did not return. *)
Definition app_after (r : Sender.Trace * Sender.Res Sender.ChatSend.App)
    (app : Sender.ChatSend.App) : Sender.ChatSend.App :=
  match r.2 with Sender.Done app' => app' | _ => app end.

(** The trace a thousand readings of the clock later. *)
Definition a_second_later (t : Sender.Trace) : Sender.Trace :=
  {| Sender.ticks := Sender.ticks t + 1000; Sender.rolls := Sender.rolls t;
     Sender.sent := Sender.sent t |}.

Definition nothing_sent : Sender.Outgoing :=
  {| Sender.out_topic := []; Sender.out_t := [];
     Sender.out_data := {| e_payload := []; e_address := []; e_pubkeyB64 := [];
                           e_signatureB64 := [] |} |}.

(** What was handed to the network last. *)
Definition last_sent (t : Sender.Trace) : Sender.Outgoing :=
  default nothing_sent (last (Sender.sent t)).

(** The announcement of the live cursor room by ann. *)
Definition demo_join : Sender.Trace * Sender.Res unit :=
  Sender.GameSend.publishSigned collation_compare game_topic (js "join")
    [(js "nick", js "ann"); (js "x", js "1200.5"); (js "y", js "300.0")] demo_host idle.

(** A nick of 23 units whose 22nd and 23rd are the surrogate pair of
    U+1F600. *)
Definition emoji_nick : jsstring := repeat 97 21 ++ [55357; 56832].

Definition blocked_bob : Chat.BlockEntry :=
  {| Chat.blk_addr := bob; Chat.blk_name := js "bob"; Chat.blk_blockedAt := 0;
     Chat.blk_reason := js "manual" |}.


(** * Proofs *)

Ltac Zify.zify_post_hook ::= Z.to_euclidean_division_equations.

(** Case analysis on the comparisons of the goal. *)
Ltac ncase :=
  match goal with
  | |- context [N.ltb ?a ?b] => destruct (N.ltb_spec a b)
  | |- context [N.leb ?a ?b] => destruct (N.leb_spec a b)
  | |- context [N.eqb ?a ?b] => destruct (N.eqb_spec a b)
  end; simpl; try (exfalso; lia).
Ltac ncases := repeat ncase.

Lemma hex_value_digit d : d < 16 → hex_value (hex_digit d) = Some d.
Proof.
  intros Hd. unfold hex_value, hex_digit, is_digit.
  destruct (N.ltb_spec d 10); ncases; f_equal; lia.
Qed.

Lemma pct_tokens_octet b rest :
  b < 256 → pct_tokens (pct_octet b ++ rest) = cons (Oct b) <$> pct_tokens rest.
Proof.
  intros Hb. unfold pct_octet. cbn [app pct_tokens]. 
  change (37 =? 37) with true. cbn iota.
  rewrite !hex_value_digit by lia.
  replace (16 * (b / 16) + b mod 16) with b by lia. done.
Qed.

Lemma pct_tokens_octets bs rest :
  Forall (λ b, b < 256) bs →
  pct_tokens (pct_octets bs ++ rest) = app (map Oct bs) <$> pct_tokens rest.
Proof.
  induction 1 as [|b bs Hb _ IH].
  - simpl. by destruct (pct_tokens rest).
  - change (pct_octets (b :: bs)) with (pct_octet b ++ pct_octets bs).
    rewrite <- app_assoc, pct_tokens_octet, IH by done.
    by destruct (pct_tokens rest).
Qed.

Lemma utf8_octets_bytes cp : cp < 1114112 → Forall (λ b, b < 256) (utf8_octets cp).
Proof.
  intros H. unfold utf8_octets. ncases; repeat constructor; lia.
Qed.

Lemma decode_tokens_utf8 cp ts :
  scalar cp →
  decode_tokens (map Oct (utf8_octets cp) ++ ts) = app (utf16_units cp) <$> decode_tokens ts.
Proof.
  intros [H1 H2]. unfold utf8_octets.
  destruct (N.ltb_spec cp 128).
  { simpl. destruct (N.ltb_spec cp 128); [|lia]. unfold utf16_units.
    destruct (N.ltb_spec cp 65536); [|lia]. done. }
  destruct (N.ltb_spec cp 2048).
  { cbn [map app decode_tokens]. unfold is_cont.
    replace ((192 + cp / 64 - 192) * 64 + (128 + cp mod 64 - 128)) with cp by lia.
    ncases; done. }
  destruct (N.ltb_spec cp 65536).
  { cbn [map app decode_tokens]. unfold is_cont.
    replace ((224 + cp / 4096 - 224) * 4096 + (128 + (cp / 64) mod 64 - 128) * 64
             + (128 + cp mod 64 - 128)) with cp by lia.
    ncases; done. }
  cbn [map app decode_tokens]. unfold is_cont.
  replace ((240 + cp / 262144 - 240) * 262144 + (128 + (cp / 4096) mod 64 - 128) * 4096
             + (128 + (cp / 64) mod 64 - 128) * 64 + (128 + cp mod 64 - 128)) with cp by lia.
  ncases; done.
Qed.

Lemma unreserved_not_pct c : uriUnreserved c = true → (c =? 37) = false.
Proof.
  unfold uriUnreserved, is_alpha, is_digit, is_mark. intros H.
  destruct (N.eqb_spec c 37) as [->|]; [|done]. by vm_compute in H.
Qed.

Lemma utf16_units_pair c t :
  is_lead c = true → is_trail t = true → utf16_units (pair_code_point c t) = [c; t].
Proof.
  unfold is_lead, is_trail, utf16_units, pair_code_point.
  intros [H1 H2]%andb_prop [H3 H4]%andb_prop.
  apply N.leb_le in H1, H2, H3, H4.
  ncases. f_equal; [lia|]. f_equal. lia.
Qed.

Lemma scalar_pair c t :
  is_lead c = true → is_trail t = true → scalar (pair_code_point c t).
Proof.
  unfold is_lead, is_trail, pair_code_point, scalar.
  intros [H1 H2]%andb_prop [H3 H4]%andb_prop.
  apply N.leb_le in H1, H2, H3, H4. lia.
Qed.

Lemma uri_round_trip_aux n : ∀ s e,
  (length s ≤ n)%nat → well_formed s = true → encodeURIComponent s = Some e →
  ∃ ts, pct_tokens e = Some ts ∧ decode_tokens ts = Some s.
Proof.
  induction n as [|n IH]; intros [|c r] e Hlen Hwf Henc; simpl in *; try lia.
  - injection Henc as <-. by exists [].
  - injection Henc as <-. by exists [].
  - apply andb_prop in Hwf as [Hc Hwf]. apply N.ltb_lt in Hc.
    destruct (uriUnreserved c) eqn:Hun.
    { assert (well_formed r = true) as Hr.
      { destruct (is_lead c) eqn:Hl.
        - exfalso. unfold uriUnreserved, is_alpha, is_digit, is_mark, is_lead in *.
          revert Hun Hl. ncases; done.
        - by apply andb_prop in Hwf as [_ ?]. }
      destruct (encodeURIComponent r) as [e'|] eqn:He; [|done].
      injection Henc as <-.
      destruct (IH r e') as (ts & Hts & Hdec); [lia|done..|].
      exists (Lit c :: ts). simpl. rewrite unreserved_not_pct, Hts by done.
      simpl. by rewrite Hdec. }
    destruct (is_trail c) eqn:Htr; [done|].
    destruct (is_lead c) eqn:Hl.
    + destruct r as [|t r']; [done|].
      destruct (is_trail t) eqn:Ht; [|done].
      rewrite andb_true_l in Hwf.
      destruct (encodeURIComponent r') as [e'|] eqn:He; [|done].
      injection Henc as <-. simpl in Hlen.
      destruct (IH r' e') as (ts & Hts & Hdec); [lia|done..|].
      exists (map Oct (utf8_octets (pair_code_point c t)) ++ ts).
      pose proof (scalar_pair c t Hl Ht) as Hs.
      rewrite pct_tokens_octets, Hts by (apply utf8_octets_bytes, Hs).
      split; [done|]. rewrite decode_tokens_utf8, Hdec by done.
      simpl. by rewrite utf16_units_pair.
    + simpl in Hwf.
      destruct (encodeURIComponent r) as [e'|] eqn:He; [|done].
      injection Henc as <-.
      destruct (IH r e') as (ts & Hts & Hdec); [lia|done..|].
      exists (map Oct (utf8_octets c) ++ ts).
      assert (scalar c) as Hs.
      { unfold scalar, is_lead, is_trail in *. revert Htr Hl. ncases; intros; try done; lia. }
      rewrite pct_tokens_octets, Hts by (apply utf8_octets_bytes, Hs).
      split; [done|]. rewrite decode_tokens_utf8, Hdec by done.
      simpl. unfold utf16_units. by destruct (N.ltb_spec c 65536); [|lia].
Qed.

Lemma decode_encode_URIComponent s e :
  well_formed s = true → encodeURIComponent s = Some e → decodeURIComponent e = Some s.
Proof.
  intros Hwf He. destruct (uri_round_trip_aux (length s) s e) as (ts & Hts & Hd); [done..|].
  unfold decodeURIComponent. by rewrite Hts.
Qed.

Lemma encodeURIComponent_total n : ∀ s,
  (length s ≤ n)%nat → well_formed s = true → is_Some (encodeURIComponent s).
Proof.
  induction n as [|n IH]; intros [|c r] Hlen Hwf; simpl in *; try lia; try done.
  apply andb_prop in Hwf as [Hc Hwf].
  destruct (uriUnreserved c) eqn:Hun.
  { assert (well_formed r = true) as Hr.
    { destruct (is_lead c) eqn:Hl.
      - exfalso. unfold uriUnreserved, is_alpha, is_digit, is_mark, is_lead in *.
        revert Hun Hl. ncases; done.
      - by apply andb_prop in Hwf as [_ ?]. }
    destruct (IH r) as [e' ->]; [lia|done|]. done. }
  destruct (is_lead c) eqn:Hl.
  - destruct r as [|t r']; [done|].
    apply andb_prop in Hwf as [Ht Hwf].
    assert (is_trail c = false) as ->.
    { unfold is_lead, is_trail in *. revert Hl. ncases; done. }
    rewrite Ht. simpl in Hlen. destruct (IH r') as [e' ->]; [lia|done|]. done.
  - apply andb_prop in Hwf as [Htr Hwf]. apply negb_true_iff in Htr. rewrite Htr.
    destruct (IH r) as [e' ->]; [lia|done|]. done.
Qed.

Lemma pct_octets_units bs : Forall (λ b, b < 256) bs → forallb uri_unit (pct_octets bs) = true.
Proof.
  induction 1 as [|b bs Hb _ IH]; [done|].
  change (pct_octets (b :: bs)) with (pct_octet b ++ pct_octets bs).
  rewrite forallb_app, IH, andb_true_r. unfold pct_octet. simpl.
  assert (∀ d, d < 16 → uri_unit (hex_digit d) = true) as Hd.
  { intros d Hlt. unfold uri_unit, uriUnreserved, is_alpha, is_digit, is_mark, hex_digit.
    destruct (N.ltb_spec d 10); ncases; done. }
  rewrite !Hd by lia. done.
Qed.

Lemma encodeURIComponent_units n : ∀ s e,
  (length s ≤ n)%nat → well_formed s = true → encodeURIComponent s = Some e →
  forallb uri_unit e = true.
Proof.
  induction n as [|n IH]; intros [|c r] e Hlen Hwf Henc; simpl in *; try lia.
  - by injection Henc as <-.
  - by injection Henc as <-.
  - apply andb_prop in Hwf as [Hc Hwf]. apply N.ltb_lt in Hc.
    destruct (uriUnreserved c) eqn:Hun.
    { assert (well_formed r = true) as Hr.
      { destruct (is_lead c) eqn:Hl.
        - exfalso. unfold uriUnreserved, is_alpha, is_digit, is_mark, is_lead in *.
          revert Hun Hl. ncases; done.
        - by apply andb_prop in Hwf as [_ ?]. }
      destruct (encodeURIComponent r) as [e'|] eqn:He; [|done].
      injection Henc as <-. simpl. unfold uri_unit at 1. rewrite Hun. simpl.
      apply (IH r); [lia|done..]. }
    destruct (is_trail c) eqn:Htr; [done|].
    destruct (is_lead c) eqn:Hl.
    + destruct r as [|t r']; [done|].
      destruct (is_trail t) eqn:Ht; [|done].
      rewrite andb_true_l in Hwf.
      destruct (encodeURIComponent r') as [e'|] eqn:He; [|done].
      injection Henc as <-. simpl in Hlen.
      rewrite forallb_app, (IH r' e'), andb_true_r by (done || lia).
      apply pct_octets_units, utf8_octets_bytes, scalar_pair; done.
    + simpl in Hwf.
      destruct (encodeURIComponent r) as [e'|] eqn:He; [|done].
      injection Henc as <-.
      rewrite forallb_app, (IH r e'), andb_true_r by (done || lia).
      apply pct_octets_units, utf8_octets_bytes. lia.
Qed.

(** * Codec *)

Lemma split_on_bar a b :
  bar_free a = true → split_on 124 (a ++ 124 :: b) = a :: split_on 124 b.
Proof.
  induction a as [|c a IH]; [done|]. simpl.
  intros [Hc Ha]%andb_prop. apply negb_true_iff in Hc. rewrite Hc, IH; done.
Qed.

Lemma split_on_free a : bar_free a = true → split_on 124 a = [a].
Proof.
  induction a as [|c a IH]; [done|]. simpl.
  intros [Hc Ha]%andb_prop. apply negb_true_iff in Hc. rewrite Hc, IH; done.
Qed.

Lemma split_join parts :
  parts ≠ [] → Forall (λ p, bar_free p = true) parts →
  split_on 124 (join_with 124 parts) = parts.
Proof.
  intros Hne Hall. induction Hall as [|p ps Hp Hps IH]; [done|].
  destruct ps as [|q ps].
  - simpl. by apply split_on_free.
  - change (join_with 124 (p :: q :: ps)) with (p ++ 124 :: join_with 124 (q :: ps)).
    rewrite split_on_bar, IH; done.
Qed.

Lemma indexOf_first c k v :
  forallb (λ d, negb (d =? c)) k = true →
  indexOf c (k ++ c :: v) = Z.of_nat (length k).
Proof.
  induction k as [|d k IH]; simpl.
  - by rewrite N.eqb_refl.
  - intros [Hd Hk]%andb_prop. apply negb_true_iff in Hd. rewrite Hd, IH by done.
    destruct (Z.ltb_spec (Z.of_nat (length k)) 0); lia.
Qed.

Lemma plain_key_facts k :
  plain_key k = true →
  k ≠ [] ∧ bar_free k = true ∧ forallb (λ d, negb (d =? 61)) k = true
  ∧ k ≠ js "type" ∧ k ≠ proto_key.
Proof.
  unfold plain_key, str_eqb.
  intros [[[H1 H2]%andb_prop H3]%andb_prop H4]%andb_prop.
  apply negb_true_iff, bool_decide_eq_false in H3, H4.
  repeat split; try done.
  - by destruct k.
  - unfold bar_free. apply forallb_forall. intros c Hc.
    rewrite forallb_forall in H2. by apply H2, andb_prop in Hc as [? _].
  - apply forallb_forall. intros c Hc.
    rewrite forallb_forall in H2. by apply H2, andb_prop in Hc as [_ ?].
Qed.

Lemma uri_units_free e :
  forallb uri_unit e = true → bar_free e = true.
Proof.
  unfold bar_free. rewrite !forallb_forall. intros H c Hc. specialize (H c Hc).
  destruct (N.eqb_spec c 124) as [->|]; [by vm_compute in H|done].
Qed.

Lemma decode_fields_encoded es : ∀ parts obj,
  Forall (λ e, plain_key e.1 = true ∧ well_formed e.2 = true) es →
  Forall2 (λ e p, encode_entry e = Some p) es parts →
  decode_fields parts obj = Some (foldl put_entry obj es)
  ∧ Forall (λ p, bar_free p = true) parts.
Proof.
  induction es as [|[k v] es IH]; intros parts obj Hes Hparts.
  - by apply Forall2_nil_inv_l in Hparts as ->.
  - apply Forall2_cons_inv_l in Hparts as (p & ps & Hp & Hps & ->).
    apply Forall_cons in Hes as [[Hk Hv] Hes]. simpl in *.
    unfold encode_entry in Hp. simpl in Hp.
    destruct (encodeURIComponent v) as [ev|] eqn:Hev; [|done].
    injection Hp as <-.
    destruct (plain_key_facts k Hk) as (Hne & Hbar & Heq & Hty & Hpr).
    pose proof (encodeURIComponent_units _ v ev (le_n _) Hv Hev) as Hunits.
    rewrite indexOf_first by done.
    destruct (Z.leb_spec (Z.of_nat (length k)) 0) as [Hle|_].
    { destruct k; [done|simpl in Hle; lia]. }
    unfold slice_from, slice_to.
    replace (Z.to_nat (Z.of_nat (length k) + 1)) with (length k + 1)%nat by lia.
    rewrite Nat2Z.id, take_app_length.
    replace (k ++ 61 :: ev) with ((k ++ [61]) ++ ev) by by rewrite <- app_assoc.
    replace (length k + 1)%nat with (length (k ++ [61])) by (rewrite length_app; simpl; lia).
    rewrite drop_app_length.
    rewrite (decode_encode_URIComponent v ev) by done. simpl.
    unfold assign. rewrite bool_decide_eq_false_2 by done.
    destruct (IH ps (<[k:=v]> obj) Hes Hps) as [-> Hfree].
    split; [done|]. constructor; [|done].
    unfold bar_free in *. rewrite <- app_assoc, forallb_app, Hbar. simpl.
    by apply uri_units_free in Hunits.
Qed.

Lemma foldl_put_other k es : ∀ obj,
  k ∉ es.*1 → foldl put_entry obj es !! k = obj !! k.
Proof.
  induction es as [|[k' v'] es IH]; intros obj Hk; [done|].
  simpl in *. apply not_elem_of_cons in Hk as [Hne Hk].
  rewrite IH by done. unfold put_entry. simpl. by rewrite lookup_insert_ne.
Qed.

Lemma foldl_put_lookup k v es : ∀ obj,
  NoDup es.*1 → (k, v) ∈ es → foldl put_entry obj es !! k = Some v.
Proof.
  induction es as [|[k' v'] es IH]; intros obj Hnd Hin.
  - by apply elem_of_nil in Hin.
  - simpl in *. apply NoDup_cons in Hnd as [Hk' Hnd].
    apply elem_of_cons in Hin as [[= <- <-]|Hin].
    + rewrite foldl_put_other by done. unfold put_entry. simpl. by rewrite lookup_insert_eq.
    + by apply IH.
Qed.

Section CodecFacts.
Variable localeCompare : jsstring → jsstring → Z.

Lemma insert_entry_perm e l : insert_entry localeCompare e l ≡ₚ e :: l.
Proof.
  induction l as [|x l IH]; simpl; [done|].
  destruct (localeCompare e.1 x.1 <=? 0)%Z; [done|].
  rewrite IH. apply Permutation_swap.
Qed.

Lemma sort_entries_perm es : sort_entries localeCompare es ≡ₚ es.
Proof.
  induction es as [|e es IH]; simpl; [done|].
  rewrite insert_entry_perm. by constructor.
Qed.

(** Decoding an encoded field map: the object built from the sorted
    entries, under the type. *)
Lemma decode_encoded tag t fields :
  bar_free tag = true → bar_free t = true →
  Forall (λ e, plain_key e.1 = true ∧ well_formed e.2 = true) fields →
  ∃ payload obj,
    encodePayload localeCompare tag t fields = Some payload
    ∧ decodePayload tag payload = DecodeObj (obj ∪ {[js "type" := t]})
    ∧ ∀ k, obj !! k = foldl put_entry ∅ (sort_entries localeCompare fields) !! k.
Proof.
  intros Htag Ht Hfields.
  set (es := sort_entries localeCompare fields).
  assert (es ≡ₚ fields) as Hperm by apply sort_entries_perm.
  assert (Forall (λ e, plain_key e.1 = true ∧ well_formed e.2 = true) es) as Hes
    by by rewrite Hperm.
  assert (∃ parts, mapM encode_entry es = Some parts) as [parts Hparts].
  { apply mapM_is_Some. eapply Forall_impl; [exact Hes|].
    intros [k v] [_ Hv]. unfold encode_entry. simpl.
    by destruct (encodeURIComponent_total _ v (le_n _) Hv) as [? ->]. }
  unfold encodePayload. fold es. rewrite Hparts. cbn [mbind option_bind].
  exists (tag ++ js "|v1|" ++ t ++ 124 :: join_with 124 parts).
  apply mapM_Some in Hparts.
  unfold decodePayload.
  assert (split_on 124 (tag ++ js "|v1|" ++ t ++ 124 :: join_with 124 parts)
          = tag :: js "v1" :: t :: split_on 124 (join_with 124 parts)) as ->.
  { change (tag ++ js "|v1|" ++ t ++ 124 :: join_with 124 parts)
      with (tag ++ 124 :: (js "v1" ++ 124 :: (t ++ 124 :: join_with 124 parts))).
    by rewrite !split_on_bar. }
  assert (∃ obj, decode_fields (split_on 124 (join_with 124 parts)) ∅ = Some obj
                 ∧ ∀ k, obj !! k = foldl put_entry ∅ es !! k) as (obj & Hobj & Hlook).
  { destruct (decode_fields_encoded es parts ∅ Hes Hparts) as [Hdec Hfree].
    destruct parts as [|p ps].
    - apply Forall2_nil_inv_r in Hparts. rewrite Hparts. by exists ∅.
    - rewrite split_join by done. eauto. }
  assert ((length (tag :: js "v1" :: t :: split_on 124 (join_with 124 parts)) <? 4)%nat
          = false) as ->.
  { apply Nat.ltb_ge. simpl. destruct (join_with 124 parts) as [|c r]; simpl; [lia|].
    destruct (c =? 124); simpl; [lia|]. destruct (split_on 124 r); simpl; lia. }
  cbn [nth drop]. unfold str_eqb. rewrite !bool_decide_eq_true_2 by done.
  cbn [negb orb]. rewrite drop_0, Hobj.
  by exists obj.
Qed.

(** C5, as the code has it. For every type free of the delimiter [|] and
    every field map whose keys are not empty, contain neither [|] nor [=]
    and are neither [type] nor [__proto__], and whose values are
    well-formed strings, encoding succeeds and decoding the result yields
    the type and every key/value pair of the map. *)
Theorem payload_round_trip tag t fields :
  bar_free tag = true → bar_free t = true →
  NoDup fields.*1 →
  Forall (λ e, plain_key e.1 = true ∧ well_formed e.2 = true) fields →
  ∃ payload parsed,
    encodePayload localeCompare tag t fields = Some payload
    ∧ decodePayload tag payload = DecodeObj parsed
    ∧ parsed !! js "type" = Some t
    ∧ ∀ k v, (k, v) ∈ fields → parsed !! k = Some v.
Proof.
  intros Htag Ht Hnd Hfields.
  destruct (decode_encoded tag t fields Htag Ht Hfields)
    as (payload & obj & Henc & Hdec & Hlook).
  exists payload, (obj ∪ {[js "type" := t]}). do 2 (split; [done|]).
  split.
  - rewrite lookup_union_r; [by rewrite lookup_singleton_eq|].
    rewrite Hlook, foldl_put_other; [done|].
    intros Hin. apply list_elem_of_fmap in Hin as ([k v] & Hk & Hin). simpl in Hk.
    rewrite sort_entries_perm in Hin.
    rewrite Forall_forall in Hfields. destruct (Hfields _ Hin) as [Hpk _].
    apply plain_key_facts in Hpk as (_ & _ & _ & Hty & _). simpl in Hty. congruence.
  - intros k v Hin. apply lookup_union_Some_l. rewrite Hlook.
    apply foldl_put_lookup; by rewrite sort_entries_perm.
Qed.
End CodecFacts.

(** * Order of the encoded fields *)

Lemma consistent_on_spec cmp ks :
  consistent_on cmp ks = true →
  ∀ x y, x ∈ ks → y ∈ ks →
    ((cmp x y < 0)%Z ↔ (0 < cmp y x)%Z)
    ∧ (cmp x y = 0%Z → x = y)
    ∧ ∀ z, z ∈ ks → (cmp x y ≤ 0)%Z → (cmp y z ≤ 0)%Z → (cmp x z ≤ 0)%Z.
Proof.
  unfold consistent_on. rewrite forallb_forall. intros H x y Hx Hy.
  apply list_elem_of_In in Hx, Hy.
  specialize (H x Hx). rewrite forallb_forall in H. specialize (H y Hy).
  apply andb_prop in H as [[H1 H2]%andb_prop H3].
  apply bool_decide_eq_true in H1. split; [done|]. split.
  - intros H0. rewrite H0 in H2. simpl in H2. by apply bool_decide_eq_true in H2.
  - intros z Hz Hxy Hyz. apply list_elem_of_In in Hz.
    rewrite forallb_forall in H3. specialize (H3 z Hz).
    apply Z.leb_le in Hxy, Hyz. rewrite Hxy, Hyz in H3. simpl in H3.
    by apply Z.leb_le.
Qed.

Lemma fst_injective_on (l : list (jsstring * jsstring)) a b :
  NoDup l.*1 → a ∈ l → b ∈ l → a.1 = b.1 → a = b.
Proof.
  induction l as [|x l IH]; intros Hnd Ha Hb Hab; [by apply elem_of_nil in Ha|].
  simpl in Hnd. apply NoDup_cons in Hnd as [Hx Hnd].
  apply elem_of_cons in Ha as [->|Ha], Hb as [->|Hb]; [done| | |by apply IH].
  - exfalso. apply Hx. rewrite Hab. by apply list_elem_of_fmap_2.
  - exfalso. apply Hx. rewrite <- Hab. by apply list_elem_of_fmap_2.
Qed.

Section SortFacts.
Variable localeCompare : jsstring → jsstring → Z.
Variable ks : list jsstring.
Hypothesis consistent : consistent_on localeCompare ks = true.

Let before (a b : jsstring * jsstring) : Prop := (localeCompare a.1 b.1 ≤ 0)%Z.

Lemma insert_entry_sorted e l :
  e.1 ∈ ks → Forall (λ x, x.1 ∈ ks) l →
  StronglySorted before l → StronglySorted before (insert_entry localeCompare e l).
Proof using consistent.
  intros He Hl Hs. induction Hs as [|x l Hs IH Hx]; simpl.
  - by repeat constructor.
  - apply Forall_cons in Hl as [Hxk Hl].
    destruct (Z.leb_spec (localeCompare e.1 x.1) 0) as [Hle|Hgt].
    + constructor; [by constructor|]. constructor; [done|].
      rewrite Forall_forall in Hx, Hl |- *. intros y Hy.
      destruct (consistent_on_spec _ _ consistent e.1 x.1 He Hxk) as (_ & _ & Htr).
      apply (Htr y.1); [by apply Hl|done|by apply Hx].
    + constructor; [by apply IH|].
      rewrite insert_entry_perm. constructor; [|done].
      destruct (consistent_on_spec _ _ consistent x.1 e.1 Hxk He) as (Hanti & _ & _).
      unfold before. apply Hanti in Hgt. lia.
Qed.

Lemma sort_entries_sorted es :
  Forall (λ x, x.1 ∈ ks) es → StronglySorted before (sort_entries localeCompare es).
Proof using consistent.
  induction 1 as [|e es He Hes IH]; simpl; [constructor|].
  apply insert_entry_sorted; [done| |done].
  by rewrite sort_entries_perm.
Qed.

Lemma sorted_perm_eq (l l' : list (jsstring * jsstring)) :
  (∀ a b, a ∈ l → b ∈ l → before a b → before b a → a = b) →
  StronglySorted before l → StronglySorted before l' → l ≡ₚ l' → l = l'.
Proof.
  intros Hanti Hs. revert l' Hanti.
  induction Hs as [|a l Hs IH Ha]; intros l' Hanti Hs' Hp.
  - by apply Permutation_nil_l in Hp.
  - destruct Hs' as [|b l' Hs' Hb].
    { by apply Permutation_nil_r in Hp. }
    assert (a = b) as <-.
    { assert (a ∈ b :: l') as Ha' by (rewrite <- Hp; left).
      assert (b ∈ a :: l) as Hb' by (rewrite Hp; left).
      apply elem_of_cons in Ha' as [?|Ha'], Hb' as [?|Hb']; try done.
      rewrite Forall_forall in Ha, Hb.
      apply Hanti; [left|by right|by apply Ha|by apply Hb]. }
    f_equal. apply IH; [|done|by apply Permutation_cons_inv in Hp].
    intros x y Hx Hy. apply Hanti; by right.
Qed.

Lemma sort_entries_order_independent f f' :
  f ≡ₚ f' → NoDup f.*1 → Forall (λ x, x.1 ∈ ks) f →
  sort_entries localeCompare f = sort_entries localeCompare f'.
Proof using consistent.
  intros Hp Hnd Hks. apply sorted_perm_eq.
  - intros a b Ha Hb Hab Hba. rewrite sort_entries_perm in Ha, Hb.
    apply (fst_injective_on f); [done..|].
    rewrite Forall_forall in Hks.
    destruct (consistent_on_spec _ _ consistent a.1 b.1 (Hks _ Ha) (Hks _ Hb))
      as (Hanti & Hzero & _).
    apply Hzero. unfold before in *. lia.
  - by apply sort_entries_sorted.
  - apply sort_entries_sorted. by rewrite <- Hp.
  - by rewrite !sort_entries_perm.
Qed.

Lemma sort_entries_ascending f :
  NoDup f.*1 → Forall (λ x, x.1 ∈ ks) f →
  StronglySorted (λ a b, (localeCompare a b < 0)%Z) (sort_entries localeCompare f).*1.
Proof using consistent.
  intros Hnd Hks.
  assert (NoDup (sort_entries localeCompare f).*1) as Hnd'
    by by rewrite sort_entries_perm.
  assert (Forall (λ x, x.1 ∈ ks) (sort_entries localeCompare f)) as Hks'
    by by rewrite sort_entries_perm.
  pose proof (sort_entries_sorted f Hks) as Hs.
  induction Hs as [|a l Hs IH Ha]; simpl; [constructor|].
  simpl in Hnd'. apply NoDup_cons in Hnd' as [Hal Hnd'].
  apply Forall_cons in Hks' as [Hak Hks'].
  constructor; [by apply IH|].
  rewrite Forall_fmap. rewrite Forall_forall in Ha, Hks' |- *. intros b Hb. simpl.
  destruct (consistent_on_spec _ _ consistent a.1 b.1 Hak (Hks' _ Hb)) as (_ & Hzero & _).
  specialize (Ha b Hb). unfold before in Ha.
  destruct (decide (localeCompare a.1 b.1 = 0%Z)) as [H0|]; [|lia].
  exfalso. apply Hal. rewrite (Hzero H0). by apply list_elem_of_fmap_2.
Qed.
End SortFacts.

(** C6, as the code has it. The payload lists the entries in ascending
    order of the collation of the host, [localeCompare]: it is the tag, the
    version and the type followed by [key=value] for the entries of the
    field map in that order, the values escaped, or the encoder throws
    because a value cannot be escaped. So for a field map whose keys the
    collation orders consistently and tells apart, the encoded payload does
    not depend on the order in which the keys were inserted. *)
Theorem encode_order_independent localeCompare tag t f f' :
  f ≡ₚ f' → NoDup f.*1 → consistent_on localeCompare f.*1 = true →
  encodePayload localeCompare tag t f = encodePayload localeCompare tag t f'
  ∧ ∃ es, es ≡ₚ f
          ∧ StronglySorted (λ a b, (localeCompare a b < 0)%Z) es.*1
          ∧ encodePayload localeCompare tag t f
            = (λ parts, tag ++ js "|v1|" ++ t ++ 124 :: join_with 124 parts)
              <$> mapM (λ e, (λ v, e.1 ++ 61 :: v) <$> encodeURIComponent e.2) es.
Proof.
  intros Hp Hnd Hc.
  assert (Forall (λ x, x.1 ∈ f.*1) f) as Hks.
  { apply Forall_forall. intros x Hx. by apply list_elem_of_fmap_2. }
  split.
  - unfold encodePayload.
    by rewrite (sort_entries_order_independent localeCompare f.*1 Hc f f').
  - exists (sort_entries localeCompare f).
    split; [apply sort_entries_perm|].
    split; [by apply (sort_entries_ascending localeCompare f.*1)|].
    unfold encodePayload.
    change (λ e : jsstring * jsstring, (λ v, e.1 ++ 61 :: v) <$> encodeURIComponent e.2)
      with encode_entry.
    by destruct (mapM encode_entry (sort_entries localeCompare f)).
Qed.

(** * Proof of work *)






Lemma run_bind {A B} h (p : Host A) (f : A → Host B) :
  run h (p ≫= f) = run h (f (run h p)).
Proof.
  unfold mbind, host_mbind.
  induction p as [a|k IH|d k IH|q k IH]; simpl; [done|apply IH..].
Qed.


(** * Strings that [trim] leaves alone *)

Lemma trim_start_no_lead s : no_lead_space (trim_start s).
Proof.
  induction s as [|c s IH]; simpl; [done|].
  destruct (is_space c) eqn:Hc; [done|]. simpl. done.
Qed.

Lemma trim_start_id s : no_lead_space s → trim_start s = s.
Proof. destruct s as [|c s]; simpl; [done|]. by intros ->. Qed.

Lemma trim_start_suffix s : ∃ sp, s = sp ++ trim_start s.
Proof.
  induction s as [|c s [sp IH]]; simpl; [by exists []|].
  destruct (is_space c).
  - exists (c :: sp). simpl. by f_equal.
  - by exists [].
Qed.

Lemma no_lead_space_prefix (t x : jsstring) :
  no_lead_space (t ++ x) → t ≠ [] → no_lead_space t.
Proof. by destruct t. Qed.

Lemma trim_idem s : trim (trim s) = trim s.
Proof.
  unfold trim, trim_end.
  set (u := trim_start s).
  set (w := trim_start (rev u)).
  assert (no_lead_space (rev w)) as Hlead.
  { destruct (trim_start_suffix (rev u)) as [sp Hsp]. fold w in Hsp.
    destruct (decide (rev w = [])) as [->|Hne]; [done|].
    apply (no_lead_space_prefix _ (rev sp)); [|done].
    rewrite <- rev_app_distr, <- Hsp, rev_involutive. apply trim_start_no_lead. }
  rewrite (trim_start_id (rev w)) by done.
  rewrite rev_involutive. rewrite (trim_start_id w); [done|]. apply trim_start_no_lead.
Qed.

Lemma or_else_trimmed a b :
  trim a = a → trim b = b → trim (or_else a b) = or_else a b.
Proof. by destruct a. Qed.

(** * The chat handler, gate by gate *)

Section ChatLemmas.
Import Chat ChatFacts.

Lemma verifyPayload_trimmed h p sg pk a v :
  run h (verifyPayload p sg pk a) = Some v →
  trim (v_derivedAddress v) = v_derivedAddress v.
Proof.
  simpl. destruct (env_verify h _) as [| | |res]; intros [= <-]; simpl; try done.
  apply trim_idem.
Qed.

Lemma canonical_trimmed cl h data parsed nonce v :
  verified_as cl h data parsed nonce v →
  trim (canonical data v) = canonical data v
  ∧ is_empty (canonical data v) = false
  ∧ trim nonce = nonce ∧ is_empty nonce = false.
Proof.
  intros ((Hf & _) & _ & Hn & Hne & _ & Hv & _).
  apply orb_false_elim in Hf as [[[_ Ha]%orb_false_elim _]%orb_false_elim _].
  apply orb_false_elim in Hne as [Hne _].
  unfold canonical. split; [|split; [|split]].
  - apply or_else_trimmed; [by eapply verifyPayload_trimmed|apply trim_idem].
  - destruct (v_derivedAddress v); [done|done].
  - rewrite Hn. apply trim_idem.
  - done.
Qed.

Variable numberTruthy : jsstring → bool.
Variable cl : Closure.

(** An envelope that gets through the first six gates is handled by
    [screen]. *)
Lemma handler_verified h data parsed nonce v s :
  verified_as cl h data parsed nonce v →
  run h (handler numberTruthy cl (Json data) s)
  = run h (screen numberTruthy cl parsed (trim (e_address data)) nonce v (count_total s)).
Proof.
  intros ((Hf & Hd) & Hr & Hn & Hne & Hp & Hv & Hs).
  unfold handler. rewrite Hf, Hd, Hr. cbn [negb]. rewrite <- Hn, Hne.
  rewrite run_bind, Hp, run_bind, Hv, Hs. done.
Qed.

(** Every other envelope is turned away before [screen]: nothing but the
    counters changes. *)
Lemma handler_cases h m s :
  (∃ o f, run h (handler numberTruthy cl m s) = (o, set_rxStats f s)
          ∧ ∀ e, o ≠ Accepted e)
  ∨ (∃ data parsed nonce v,
       m = Json data ∧ verified_as cl h data parsed nonce v).
Proof.
  destruct m as [text|data].
  { left. simpl. by eexists _, (λ r, _). }
  destruct (is_empty (e_payload data) || is_empty (trim (e_address data))
            || is_empty (trim (e_pubkeyB64 data))
            || is_empty (trim (e_signatureB64 data))) eqn:Hf.
  { left. unfold handler. rewrite Hf. by eexists _, (λ r, _). }
  destruct (decodePayload PROTOCOL (e_payload data)) as [| |parsed] eqn:Hd.
  { left. unfold handler. rewrite Hf, Hd. by eexists _, (λ r, _). }
  { left. unfold handler. rewrite Hf, Hd. by eexists _, (λ r, _). }
  destruct (str_eqb (prop_or_empty parsed (js "room")) (topic cl)) eqn:Hr; last first.
  { left. unfold handler. rewrite Hf, Hd, Hr. by eexists _, (λ r, _). }
  set (nonce := trim (prop_or_empty parsed (js "nonce"))).
  destruct (is_empty nonce || (20 <? length nonce)%nat) eqn:Hne.
  { left. unfold handler. rewrite Hf, Hd, Hr. cbn [negb]. fold nonce. rewrite Hne.
    by eexists _, (λ r, _). }
  destruct (run h (hasValidPow (e_payload data) POW_DIFFICULTY_BITS)) as [e|[]] eqn:Hp.
  { left. unfold handler. rewrite Hf, Hd, Hr. cbn [negb]. fold nonce.
    rewrite Hne, run_bind, Hp. by eexists _, (λ r, _). }
  2:{ left. unfold handler. rewrite Hf, Hd, Hr. cbn [negb]. fold nonce.
      rewrite Hne, run_bind, Hp. by eexists _, (λ r, _). }
  destruct (run h (verifyPayload (e_payload data) (trim (e_signatureB64 data))
                     (trim (e_pubkeyB64 data)) (trim (e_address data))))
    as [v|] eqn:Hv; last first.
  { left. unfold handler. rewrite Hf, Hd, Hr. cbn [negb]. fold nonce.
    rewrite Hne, run_bind, Hp, run_bind, Hv. by eexists _, (λ r, _). }
  destruct (v_signatureValid v) eqn:Hs; last first.
  { left. unfold handler. rewrite Hf, Hd, Hr. cbn [negb]. fold nonce.
    rewrite Hne, run_bind, Hp, run_bind, Hv, Hs. by eexists _, (λ r, _). }
  right. by exists data, parsed, nonce, v.
Qed.

Lemma present_run h parsed a msgId s :
  ∃ o f g, run h (present numberTruthy parsed a msgId s)
           = (o, set_rxStats f (set_messages g s))
           ∧ ∀ e, o = Accepted e → event_address e = a.
Proof.
  unfold present.
  destruct (str_eqb _ (js "profile")).
  { eexists (Accepted (ProfileSeen a)), (λ r, _), (λ l, l). split; [done|].
    by intros e [= <-]. }
  destruct (str_eqb _ (js "msg")); cbn [negb]; last first.
  { by eexists (Dropped (js "unknown_type")), (λ r, _), (λ l, l). }
  destruct (is_empty _).
  { by eexists (Dropped (js "empty_text")), (λ r, _), (λ l, l). }
  destruct (500 <? _)%nat.
  { by eexists (Dropped (js "text_too_long")), (λ r, _), (λ l, l). }
  rewrite run_bind.
  eexists (Accepted (MessageShown _)), (λ r, _), (λ l, _).
  split; [reflexivity|]. by intros e [= <-].
Qed.


Lemma throttle_run h parsed a msgId nick s :
  trim a = a → is_empty a = false →
  let now := env_now h in
  run h (throttle numberTruthy cl parsed a msgId nick s)
  = if (AUTO_BLOCK_MAX_MESSAGES <? spam_count a now s)%Z
    then drop (js "auto_blocked")
           (run h (blockUser cl a (js "auto_spam") nick (stamped a now s)))
    else if (now - default 0%Z (lastAcceptedAt s !! a) <? 1000)%Z
         then drop (js "rate_limited") (stamped a now s)
         else run h (present numberTruthy parsed a msgId
                       (set_lastAcceptedAt (insert a now) (stamped a now s))).
Proof.
  intros Ha Hne now. unfold throttle, recordSpam, isRateLimited.
  rewrite Ha, Hne, !run_bind. cbn [run nowMs]. fold now.
  change (Z.of_nat (length _)) with (spam_count a now s).
  change (set_spamWindow _ s) with (stamped a now s).
  destruct (AUTO_BLOCK_MAX_MESSAGES <? spam_count a now s)%Z.
  { by rewrite run_bind. }
  rewrite !run_bind. cbn [run nowMs]. fold now.
  change (lastAcceptedAt (stamped a now s)) with (lastAcceptedAt s).
  destruct (now - default 0%Z (lastAcceptedAt s !! a) <? 1000)%Z; done.
Qed.

Lemma screen_run h parsed address nonce v s :
  let a := or_else (v_derivedAddress v) address in
  trim a = a → is_empty a = false → trim nonce = nonce → is_empty nonce = false →
  run h (screen numberTruthy cl parsed address nonce v s)
  = if bool_decide (a ++ 58 :: nonce ∈ seenMsgId s) then ignored s
    else if has_entry (blockedByAddr s) a
         then drop (js "blocked") (set_seenMsgId (λ l, l ++ [a ++ 58 :: nonce]) s)
    else if bool_decide (nonce ∈ default [] (recentNonces s !! a))
         then drop (js "nonce_replay") (set_seenMsgId (λ l, l ++ [a ++ 58 :: nonce]) s)
    else run h (throttle numberTruthy cl parsed a (a ++ 58 :: nonce)
                  (slice_first 22 (trim (prop_or_empty parsed (js "nick"))))
                  (noted parsed a nonce s)).
Proof.
  intros a Ha Hne Hn Hnne.
  unfold screen. fold a.
  destruct (bool_decide (a ++ 58 :: nonce ∈ seenMsgId s)); [done|].
  unfold isBlocked. rewrite Ha, Hne.
  change (blockedByAddr (set_seenMsgId _ s)) with (blockedByAddr s).
  destruct (has_entry (blockedByAddr s) a); [done|].
  unfold markSeenNonce. rewrite Ha, Hn, Hne, Hnne. cbn [orb].
  change (recentNonces (set_seenMsgId _ s)) with (recentNonces s).
  destruct (bool_decide (nonce ∈ default [] (recentNonces s !! a))); [done|].
  done.
Qed.

(** What the gates after verification leave alone. *)
Lemma updateName_frame a n s :
  messages (updateName a n s) = messages s
  ∧ blockedByAddr (updateName a n s) = blockedByAddr s
  ∧ lastAcceptedAt (updateName a n s) = lastAcceptedAt s
  ∧ recentNonces (updateName a n s) = recentNonces s
  ∧ seenMsgId (updateName a n s) = seenMsgId s
  ∧ spamWindow (updateName a n s) = spamWindow s.
Proof. unfold updateName. by destruct (_ || _). Qed.

Lemma noted_frame parsed a nonce s :
  messages (noted parsed a nonce s) = messages s
  ∧ blockedByAddr (noted parsed a nonce s) = blockedByAddr s
  ∧ lastAcceptedAt (noted parsed a nonce s) = lastAcceptedAt s
  ∧ seenMsgId (noted parsed a nonce s) = seenMsgId s ++ [a ++ 58 :: nonce]
  ∧ spamWindow (noted parsed a nonce s) = spamWindow s.
Proof.
  unfold noted. destruct (is_empty _); [done|].
  destruct (updateName_frame a
              (slice_first 22 (trim (prop_or_empty parsed (js "nick"))))
              (set_recentNonces
                 (insert a ((if (24 <=? length (default [] (recentNonces s !! a)))%nat
                             then keep_last 20 (default [] (recentNonces s !! a))
                             else default [] (recentNonces s !! a)) ++ [nonce]))
                 (set_seenMsgId (λ l, l ++ [a ++ 58 :: nonce]) s)))
    as (-> & -> & -> & _ & -> & ->). done.
Qed.

Lemma blockUser_frame h a reason nick s :
  lastAcceptedAt (run h (blockUser cl a reason nick s)) = lastAcceptedAt s
  ∧ seenMsgId (run h (blockUser cl a reason nick s)) = seenMsgId s
  ∧ spamWindow (run h (blockUser cl a reason nick s)) = spamWindow s.
Proof.
  unfold blockUser. destruct (is_empty _); [done|].
  destruct (_ && _); [done|]. by rewrite run_bind.
Qed.
End ChatLemmas.

(** * Sequences of deliveries to the chat handler *)

Section ChatRuns.
Import Chat ChatFacts.
Variable numberTruthy : jsstring → bool.
Variable cl : Closure.

(** The handler after the first six gates, as one case distinction. *)
Lemma deliver_verified x s :
  verified_as cl (arr_host x) (arr_data x) (arr_parsed x) (arr_nonce x) (arr_verified x) →
  let h := arr_host x in
  let a := canonical (arr_data x) (arr_verified x) in
  let nonce := arr_nonce x in
  let s0 := count_total s in
  trim a = a ∧ is_empty a = false ∧
  deliver numberTruthy cl (delivery x) s
  = if bool_decide (a ++ 58 :: nonce ∈ seenMsgId s) then ignored s0
    else if has_entry (blockedByAddr s) a
         then drop (js "blocked") (set_seenMsgId (λ l, l ++ [a ++ 58 :: nonce]) s0)
    else if bool_decide (nonce ∈ default [] (recentNonces s !! a))
         then drop (js "nonce_replay") (set_seenMsgId (λ l, l ++ [a ++ 58 :: nonce]) s0)
    else
      let s1 := noted (arr_parsed x) a nonce s0 in
      let now := env_now h in
      if (AUTO_BLOCK_MAX_MESSAGES <? spam_count a now s)%Z
      then drop (js "auto_blocked")
             (run h (blockUser cl a (js "auto_spam")
                       (slice_first 22 (trim (prop_or_empty (arr_parsed x) (js "nick"))))
                       (stamped a now s1)))
      else if (now - default 0%Z (lastAcceptedAt s !! a) <? 1000)%Z
           then drop (js "rate_limited") (stamped a now s1)
           else run h (present numberTruthy (arr_parsed x) a (a ++ 58 :: nonce)
                         (set_lastAcceptedAt (insert a now) (stamped a now s1))).
Proof.
  intros Hver h a nonce s0.
  destruct (canonical_trimmed _ _ _ _ _ _ Hver) as (Ha & Hne & Hn & Hnne).
  split; [done|]. split; [done|].
  unfold deliver, delivery. cbn [fst snd].
  rewrite (handler_verified numberTruthy cl _ _ _ _ _ s Hver).
  fold h s0 nonce. unfold canonical in *.
  rewrite screen_run by done. fold a.
  change (seenMsgId s0) with (seenMsgId s).
  change (blockedByAddr s0) with (blockedByAddr s).
  change (recentNonces s0) with (recentNonces s).
  repeat case_match; try done.
  all: rewrite throttle_run by done.
  all: unfold spam_count in *.
  all: destruct (noted_frame (arr_parsed x) a nonce s0) as (_ & _ & Hl & _ & Hw).
  all: rewrite Hw, Hl.
  all: change (spamWindow s0) with (spamWindow s).
  all: change (lastAcceptedAt s0) with (lastAcceptedAt s).
  all: fold h; repeat case_match; try done; congruence.
Qed.

Lemma deliver_rate_step d s :
  rate_step (env_now d.1) s (deliver numberTruthy cl d s).2 (deliver numberTruthy cl d s).1.
Proof.
  destruct d as [h m]. unfold deliver. cbn [fst snd].
  destruct (handler_cases numberTruthy cl h m s)
    as [(o & f & -> & Hno)|(data & parsed & nonce & v & -> & Hver)].
  { by left. }
  destruct (deliver_verified
              {| arr_host := h; arr_data := data; arr_parsed := parsed;
                 arr_nonce := nonce; arr_verified := v |} s Hver) as (Ha & Hne & Heq).
  unfold deliver, delivery in Heq.
  cbn [fst snd arr_host arr_data arr_parsed arr_nonce arr_verified] in Heq, Ha, Hne.
  rewrite Heq. clear Heq.
  set (a := canonical data v).
  repeat case_match; try by left.
  - left. split; [|done]. cbn [snd drop].
    change (lastAcceptedAt (count_dropped _ ?s)) with (lastAcceptedAt s).
    destruct (blockUser_frame cl h a (js "auto_spam")
                (slice_first 22 (trim (prop_or_empty parsed (js "nick"))))
                (stamped a (env_now h) (noted parsed a nonce (count_total s))))
      as (-> & _ & _).
    change (lastAcceptedAt (stamped ?a ?n ?s)) with (lastAcceptedAt s).
    by destruct (noted_frame parsed a nonce (count_total s)) as (_ & _ & -> & _ & _).
  - left. split; [|done]. cbn [snd drop].
    change (lastAcceptedAt (count_dropped _ ?s)) with (lastAcceptedAt s).
    change (lastAcceptedAt (stamped ?a ?n ?s)) with (lastAcceptedAt s).
    by destruct (noted_frame parsed a nonce (count_total s)) as (_ & _ & -> & _ & _).
  - destruct (present_run numberTruthy h parsed a (a ++ 58 :: nonce)
                (set_lastAcceptedAt (insert a (env_now h))
                   (stamped a (env_now h) (noted parsed a nonce (count_total s)))))
      as (o & f & g & -> & Haddr).
    right. exists a. cbn [fst snd]. split; [|split; [|done]].
    + change (lastAcceptedAt (set_rxStats _ (set_messages _ (set_lastAcceptedAt ?f ?s))))
        with (f (lastAcceptedAt s)).
      change (lastAcceptedAt (stamped ?a ?n ?s)) with (lastAcceptedAt s).
      by destruct (noted_frame parsed a nonce (count_total s)) as (_ & _ & -> & _ & _).
    + match goal with H : (_ <? 1000)%Z = false |- _ => apply Z.ltb_ge in H end. done.
Qed.

(** The time of the last admission of an address never goes back. *)
Lemma rate_step_mono now s s' o a :
  rate_step now s s' o →
  (default 0 (lastAcceptedAt s !! a) ≤ default 0 (lastAcceptedAt s' !! a))%Z.
Proof.
  intros [[-> _]|(b & -> & Hb & _)]; [done|].
  destruct (decide (b = a)) as [->|Hne].
  - rewrite lookup_insert_eq. simpl. lia.
  - by rewrite lookup_insert_ne.
Qed.

(** An event accepted somewhere in a run comes at least a second after
    the last admission of its address before the run. *)
Lemma accepted_after_last ds : ∀ s j d e,
  ds !! j = Some d →
  (deliver_all numberTruthy cl ds s).1 !! j = Some (Accepted e) →
  (1000 ≤ env_now d.1 - default 0 (lastAcceptedAt s !! event_address e))%Z.
Proof.
  induction ds as [|d0 ds IH]; intros s j d e Hd Ho; [done|].
  pose proof (deliver_rate_step d0 s) as Hstep.
  cbn [deliver_all] in Ho.
  destruct (deliver numberTruthy cl d0 s) as [o0 s1] eqn:H0.
  destruct (deliver_all numberTruthy cl ds s1) as [os s2] eqn:Hrest.
  cbn [fst snd] in *.
  destruct j as [|j]; simpl in Hd, Ho.
  - injection Hd as ->. injection Ho as ->.
    destruct Hstep as [[_ Hno]|(a & _ & Ha & Haddr)]; [by destruct (Hno e)|].
    by rewrite (Haddr e eq_refl).
  - specialize (IH s1 j d e Hd). rewrite Hrest in IH. specialize (IH Ho).
    pose proof (rate_step_mono _ _ _ _ (event_address e) Hstep). lia.
Qed.

Lemma admissions_a_second_apart ds : ∀ s i j di dj ei ej,
  (i < j)%nat → ds !! i = Some di → ds !! j = Some dj →
  (deliver_all numberTruthy cl ds s).1 !! i = Some (Accepted ei) →
  (deliver_all numberTruthy cl ds s).1 !! j = Some (Accepted ej) →
  event_address ei = event_address ej →
  (1000 ≤ env_now dj.1 - env_now di.1)%Z.
Proof.
  induction ds as [|d0 ds IH]; intros s i j di dj ei ej Hij Hdi Hdj Hoi Hoj Heq; [done|].
  pose proof (deliver_rate_step d0 s) as Hstep.
  cbn [deliver_all] in Hoi, Hoj.
  destruct (deliver numberTruthy cl d0 s) as [o0 s1] eqn:H0.
  destruct (deliver_all numberTruthy cl ds s1) as [os s2] eqn:Hrest.
  cbn [fst snd] in *.
  destruct j as [|j]; [lia|]. simpl in Hdj, Hoj.
  destruct i as [|i]; simpl in Hdi, Hoi.
  - injection Hdi as ->. injection Hoi as ->.
    destruct Hstep as [[_ Hno]|(a & Hl & _ & Haddr)]; [by destruct (Hno ei)|].
    pose proof (accepted_after_last ds s1 j dj ej Hdj) as Hj.
    rewrite Hrest in Hj. specialize (Hj Hoj).
    rewrite Hl, <- Heq, (Haddr ei eq_refl), lookup_insert_eq in Hj. done.
  - eapply (IH s1 i j); try done; [lia|by rewrite Hrest..].
Qed.

(** From the rate gate on, for an envelope that gets that far. *)
Lemma deliver_at_rate_gate x s :
  verified_as cl (arr_host x) (arr_data x) (arr_parsed x) (arr_nonce x) (arr_verified x) →
  let a := canonical (arr_data x) (arr_verified x) in
  let now := env_now (arr_host x) in
  passes_replay_gates a (arr_nonce x) s →
  (spam_count a now s ≤ AUTO_BLOCK_MAX_MESSAGES)%Z →
  let s1 := stamped a now (noted (arr_parsed x) a (arr_nonce x) (count_total s)) in
  deliver numberTruthy cl (delivery x) s
  = if (now - default 0%Z (lastAcceptedAt s !! a) <? 1000)%Z
    then drop (js "rate_limited") s1
    else run (arr_host x)
           (present numberTruthy (arr_parsed x) a (a ++ 58 :: arr_nonce x)
              (set_lastAcceptedAt (insert a now) s1)).
Proof.
  intros Hver a now (Hseen & Hblk & Hnonce) Hspam s1.
  destruct (deliver_verified x s Hver) as (Ha & Hne & ->). cbv zeta.
  fold a now in Ha, Hne |- *. rewrite Hseen, Hnonce. unfold isBlocked in Hblk. rewrite Ha, Hne in Hblk.
  rewrite Hblk. apply Z.ltb_ge in Hspam. by rewrite Hspam.
Qed.

Lemma rate_limited_after x s t :
  verified_as cl (arr_host x) (arr_data x) (arr_parsed x) (arr_nonce x) (arr_verified x) →
  let a := canonical (arr_data x) (arr_verified x) in
  let now := env_now (arr_host x) in
  passes_replay_gates a (arr_nonce x) s →
  (spam_count a now s ≤ AUTO_BLOCK_MAX_MESSAGES)%Z →
  lastAcceptedAt s !! a = Some t → (now - t < 1000)%Z →
  let r := deliver numberTruthy cl (delivery x) s in
  r.1 = Dropped (js "rate_limited")
  ∧ lastDrop (rxStats r.2) = js "rate_limited"
  ∧ messages r.2 = messages s.
Proof.
  intros Hver a now Hpass Hspam Hlast Hgap r. unfold r.
  rewrite deliver_at_rate_gate by done. cbv zeta. fold a now.
  rewrite Hlast. cbn [default from_option id].
  apply Z.ltb_lt in Hgap. rewrite Hgap. cbn [fst snd drop].
  do 2 (split; [done|]).
  change (messages (count_dropped _ (stamped ?a ?n ?s))) with (messages s).
  by destruct (noted_frame (arr_parsed x) a (arr_nonce x) (count_total s)) as (-> & _).
Qed.

Lemma accepted_stamps h m s e s1 :
  deliver numberTruthy cl (h, m) s = (Accepted e, s1) →
  lastAcceptedAt s1 !! event_address e = Some (env_now h).
Proof.
  intros Heq. pose proof (deliver_rate_step (h, m) s) as Hstep.
  rewrite Heq in Hstep. cbn [fst snd] in Hstep.
  destruct Hstep as [[_ Hno]|(a & -> & _ & Haddr)]; [by destruct (Hno e)|].
  by rewrite (Haddr e eq_refl), lookup_insert_eq.
Qed.

(** C3. An address is admitted at most once per rolling second. Let an
    envelope of some address be accepted, and let the next envelope of
    that address get as far as the rate gate: if it arrives less than
    1000 ms after the first (500 ms, say) it is dropped with reason
    [rate_limited] and shows no message; if it arrives 1000 ms or more
    after it (1100 ms, say) and is a valid [msg], it is accepted too. In
    every run, whatever else is delivered in between, two accepted events
    of one address are at least 1000 ms apart. *)
Theorem one_admission_per_second s h1 data1 e1 s1 x2 :
  deliver numberTruthy cl (h1, Json data1) s = (Accepted e1, s1) →
  verified_as cl (arr_host x2) (arr_data x2) (arr_parsed x2) (arr_nonce x2)
    (arr_verified x2) →
  canonical (arr_data x2) (arr_verified x2) = event_address e1 →
  passes_replay_gates (event_address e1) (arr_nonce x2) s1 →
  (spam_count (event_address e1) (env_now (arr_host x2)) s1
   ≤ AUTO_BLOCK_MAX_MESSAGES)%Z →
  let gap := (env_now (arr_host x2) - env_now h1)%Z in
  let r2 := deliver numberTruthy cl (delivery x2) s1 in
  ((gap < 1000)%Z →
     r2.1 = Dropped (js "rate_limited")
     ∧ lastDrop (rxStats r2.2) = js "rate_limited"
     ∧ messages r2.2 = messages s1)
  ∧ ((1000 ≤ gap)%Z → valid_msg (arr_parsed x2) →
     ∃ m, r2.1 = Accepted (MessageShown m)
          ∧ msg_addr m = event_address e1
          ∧ msg_text m = trim (prop_or_empty (arr_parsed x2) (js "text"))
          ∧ last (messages r2.2) = Some m)
  ∧ (∀ ds s0 i j di dj ei ej,
       (i < j)%nat → ds !! i = Some di → ds !! j = Some dj →
       (deliver_all numberTruthy cl ds s0).1 !! i = Some (Accepted ei) →
       (deliver_all numberTruthy cl ds s0).1 !! j = Some (Accepted ej) →
       event_address ei = event_address ej →
       (1000 ≤ env_now dj.1 - env_now di.1)%Z).
Proof.
  intros H1 Hver Ha Hpass Hspam gap r2.
  pose proof (accepted_stamps _ _ _ _ _ H1) as Hlast.
  split; [|split].
  - intros Hgap. apply (rate_limited_after x2 s1 (env_now h1)); try done.
    all: by rewrite Ha.
  - intros Hgap (Hkind & Htext). unfold r2.
    rewrite deliver_at_rate_gate by (try done; by rewrite Ha).
    cbv zeta. rewrite Ha, Hlast. cbn [default from_option id]. fold gap.
    apply Z.ltb_ge in Hgap. rewrite Hgap.
    unfold present. rewrite Hkind.
    change (str_eqb (js "msg") (js "profile")) with false.
    change (str_eqb (js "msg") (js "msg")) with true. cbn [negb].
    apply orb_false_elim in Htext as [-> ->].
    rewrite run_bind.
    eexists. split; [reflexivity|]. split; [done|]. split; [done|].
    cbn [snd accept]. unfold pushMessage.
    change (messages (count_accepted (set_messages ?f ?s))) with (f (messages s)).
    apply last_snoc.
  - intros ds s0 i j di dj ei ej. apply admissions_a_second_apart.
Qed.

(** C10. The rate gate stamps the address before the payload is looked at
    by type: an envelope dropped as [unknown_type], [empty_text] or
    [text_too_long] has set the last-accepted time of its address to its
    own arrival, and an envelope of that address which gets as far as the
    rate gate less than 1000 ms later is dropped with reason
    [rate_limited]. *)
Theorem rejected_by_type_consumes_slot s x1 r x2 :
  verified_as cl (arr_host x1) (arr_data x1) (arr_parsed x1) (arr_nonce x1)
    (arr_verified x1) →
  (deliver numberTruthy cl (delivery x1) s).1 = Dropped r →
  r = js "unknown_type" ∨ r = js "empty_text" ∨ r = js "text_too_long" →
  let a := canonical (arr_data x1) (arr_verified x1) in
  let s1 := (deliver numberTruthy cl (delivery x1) s).2 in
  verified_as cl (arr_host x2) (arr_data x2) (arr_parsed x2) (arr_nonce x2)
    (arr_verified x2) →
  canonical (arr_data x2) (arr_verified x2) = a →
  passes_replay_gates a (arr_nonce x2) s1 →
  (spam_count a (env_now (arr_host x2)) s1 ≤ AUTO_BLOCK_MAX_MESSAGES)%Z →
  (env_now (arr_host x2) - env_now (arr_host x1) < 1000)%Z →
  let r2 := deliver numberTruthy cl (delivery x2) s1 in
  lastAcceptedAt s1 !! a = Some (env_now (arr_host x1))
  ∧ r2.1 = Dropped (js "rate_limited")
  ∧ lastDrop (rxStats r2.2) = js "rate_limited"
  ∧ messages r2.2 = messages s1.
Proof.
  intros Hver1 Hout Hr a s1 Hver2 Ha2 Hpass Hspam Hgap r2.
  assert (lastAcceptedAt s1 !! a = Some (env_now (arr_host x1))) as Hlast.
  { unfold s1. destruct (deliver_verified x1 s Hver1) as (_ & _ & Heq).
    cbv zeta in Heq. fold a in Heq. rewrite Heq in Hout |- *. clear Heq.
    assert (∀ t, r ≠ js t → Dropped (E:=Event) (js t) = Dropped r → False) as Hbad
      by (intros t Hne [= ?]; done).
    repeat case_match; cbn [fst snd drop ignored] in Hout; try done.
    1-4: exfalso; destruct Hr as [->| [->| ->]]; by vm_compute in Hout.
    destruct (present_run numberTruthy (arr_host x1) (arr_parsed x1) a
                (a ++ 58 :: arr_nonce x1)
                (set_lastAcceptedAt (insert a (env_now (arr_host x1)))
                   (stamped a (env_now (arr_host x1))
                      (noted (arr_parsed x1) a (arr_nonce x1) (count_total s)))))
      as (o & f & g & -> & _).
    cbn [snd].
    change (lastAcceptedAt (set_rxStats _ (set_messages _ (set_lastAcceptedAt ?f ?s))))
      with (f (lastAcceptedAt s)).
    apply lookup_insert_eq. }
  split; [done|].
  apply (rate_limited_after x2 s1 (env_now (arr_host x1))); try done.
  all: by rewrite Ha2.
Qed.

(** ** A burst of one address *)

Lemma state_after_cons d ds s :
  state_after numberTruthy cl (d :: ds) s
  = state_after numberTruthy cl ds (deliver numberTruthy cl d s).2.
Proof.
  unfold state_after. cbn [deliver_all].
  destruct (deliver numberTruthy cl d s) as [o s1]. cbn [snd].
  by destruct (deliver_all numberTruthy cl ds s1).
Qed.

Lemma state_after_app ds : ∀ ds' s,
  state_after numberTruthy cl (ds ++ ds') s
  = state_after numberTruthy cl ds' (state_after numberTruthy cl ds s).
Proof.
  induction ds as [|d ds IH]; intros ds' s; [done|].
  cbn [app]. by rewrite !state_after_cons, IH.
Qed.






Lemma blockUser_keeps h a' reason nick s a entry :
  blockedByAddr s !! a = Some entry →
  blockedByAddr (run h (blockUser cl a' reason nick s)) !! a = Some entry.
Proof.
  intros Hb. unfold blockUser. destruct (is_empty _); [done|].
  destruct (_ && _); [done|]. rewrite run_bind. cbn [run nowMs].
  cbn [blockedByAddr set_messages set_blockedByAddr].
  destruct (has_entry (blockedByAddr s) (trim a')) eqn:Hh; [done|].
  rewrite lookup_insert_ne; [done|]. intros Heq. rewrite Heq in Hh.
  unfold has_entry in Hh. apply orb_false_elim in Hh as [Hh _].
  apply bool_decide_eq_false in Hh. apply Hh. by eexists.
Qed.

(** The handler never takes an address off the block list. *)
Lemma deliver_keeps_block d s a entry :
  blockedByAddr s !! a = Some entry →
  blockedByAddr (deliver numberTruthy cl d s).2 !! a = Some entry.
Proof.
  intros Hb. destruct d as [h m]. unfold deliver. cbn [fst snd].
  destruct (handler_cases numberTruthy cl h m s)
    as [(o & f & -> & Hno)|(data & parsed & nonce & v & -> & Hver)]; [done|].
  destruct (deliver_verified
              {| arr_host := h; arr_data := data; arr_parsed := parsed;
                 arr_nonce := nonce; arr_verified := v |} s Hver) as (_ & _ & Heq).
  unfold deliver, delivery in Heq.
  cbn [fst snd arr_host arr_data arr_parsed arr_nonce arr_verified] in Heq.
  rewrite Heq. clear Heq. set (b := canonical data v).
  assert (blockedByAddr (noted parsed b nonce (count_total s)) !! a = Some entry) as Hn.
  { by destruct (noted_frame parsed b nonce (count_total s)) as (_ & -> & _). }
  repeat case_match; try done.
  - cbn [snd drop]. change (blockedByAddr (count_dropped _ ?s)) with (blockedByAddr s).
    by apply blockUser_keeps.
  - destruct (present_run numberTruthy h parsed b (b ++ 58 :: nonce)
                (set_lastAcceptedAt (insert b (env_now h))
                   (stamped b (env_now h) (noted parsed b nonce (count_total s)))))
      as (o & f & g & -> & _). done.
Qed.


End ChatRuns.

(** * The seen sets *)

Lemma trim_repeat_a n : trim (repeat 97 (S n)) = repeat 97 (S n).
Proof.
  unfold trim, trim_end. rewrite (trim_start_id (repeat 97 (S n))) by done.
  rewrite rev_repeat, (trim_start_id (repeat 97 (S n))) by done. apply rev_repeat.
Qed.

Lemma decodePayload_empty tag : decodePayload tag [] = DecodeNull.
Proof. reflexivity. Qed.

Lemma well_formed_repeat_a n : well_formed (repeat 97 n) = true.
Proof. induction n as [|n IH]; [done|]. simpl. by rewrite IH. Qed.

Section ChatSeen.
Import Chat ChatFacts.
Variable numberTruthy : jsstring → bool.
Variable cl : Closure.

(** A verified envelope puts its id into the seen set unless it is there
    already, whatever the later gates decide. *)
Lemma deliver_seen_verified x s :
  verified_as cl (arr_host x) (arr_data x) (arr_parsed x) (arr_nonce x) (arr_verified x) →
  let id := canonical (arr_data x) (arr_verified x) ++ 58 :: arr_nonce x in
  seenMsgId (deliver numberTruthy cl (delivery x) s).2
  = if bool_decide (id ∈ seenMsgId s) then seenMsgId s else seenMsgId s ++ [id].
Proof.
  intros Hver id.
  destruct (deliver_verified numberTruthy cl x s Hver) as (_ & _ & ->). cbv zeta.
  subst id. set (a := canonical (arr_data x) (arr_verified x)).
  destruct (bool_decide (a ++ 58 :: arr_nonce x ∈ seenMsgId s)); [done|].
  assert (seenMsgId (noted (arr_parsed x) a (arr_nonce x) (count_total s))
          = seenMsgId s ++ [a ++ 58 :: arr_nonce x]) as Hn.
  { by destruct (noted_frame (arr_parsed x) a (arr_nonce x) (count_total s))
      as (_ & _ & _ & -> & _). }
  repeat case_match; try done.
  - cbn [snd drop]. change (seenMsgId (count_dropped _ ?s)) with (seenMsgId s).
    destruct (blockUser_frame cl (arr_host x) a (js "auto_spam")
                (slice_first 22 (trim (prop_or_empty (arr_parsed x) (js "nick"))))
                (stamped a (env_now (arr_host x))
                   (noted (arr_parsed x) a (arr_nonce x) (count_total s))))
      as (_ & -> & _). done.
  - destruct (present_run numberTruthy (arr_host x) (arr_parsed x) a
                (a ++ 58 :: arr_nonce x)
                (set_lastAcceptedAt (insert a (env_now (arr_host x)))
                   (stamped a (env_now (arr_host x))
                      (noted (arr_parsed x) a (arr_nonce x) (count_total s)))))
      as (o & f & g & -> & _). done.
Qed.
End ChatSeen.

Section Crowd.
Import Chat ChatFacts.
Variable numberTruthy : jsstring → bool.

Lemma crowd_member_verified i :
  ∃ parsed v,
    verified_as chat_closure (stub_host 0)
      (chat_msg chat_topic (crowd_address i) (js "ab12") (js "hi"))
      parsed (js "ab12") v
    ∧ canonical (chat_msg chat_topic (crowd_address i) (js "ab12") (js "hi")) v
      = crowd_address i.
Proof.
  destruct (decode_encoded collation_compare PROTOCOL (js "msg")
              (sample_fields chat_topic (crowd_address i) (js "ab12")
                 [(js "text", js "hi")]))
    as (payload & obj & Henc & Hdec & Hlook); [done..| |].
  { unfold sample_fields. cbn [app].
    repeat (apply Forall_cons_2;
            [split; [reflexivity|first [apply well_formed_repeat_a|reflexivity]]|]).
    apply Forall_nil_2. }
  assert (∀ k v, (k, v) ∈ sample_fields chat_topic (crowd_address i) (js "ab12")
                             [(js "text", js "hi")] →
                 (obj ∪ {[js "type" := js "msg"]}) !! k = Some v) as Hget.
  { intros k v Hin. apply lookup_union_Some_l. rewrite Hlook.
    apply foldl_put_lookup; rewrite sort_entries_perm; [|done].
    by apply (bool_decide_unpack _). }
  set (data := chat_msg chat_topic (crowd_address i) (js "ab12") (js "hi")).
  assert (e_payload data = payload) as Hpay.
  { unfold data, chat_msg, sign. cbn [e_payload]. by rewrite Henc. }
  assert (e_address data = crowd_address i) as Haddr by done.
  assert (trim (crowd_address i) = crowd_address i) as Htrim by apply trim_repeat_a.
  assert (payload ≠ []) as Hpne.
  { intros ->. by rewrite decodePayload_empty in Hdec. }
  exists (obj ∪ {[js "type" := js "msg"]}).
  exists {| v_ok := true; v_signatureValid := true; v_addressMatches := true;
            v_derivedAddress := crowd_address i; v_error := [] |}.
  split; [|by unfold canonical].
  split; [split|split; [|split; [|split; [|split; [|split]]]]].
  - rewrite Hpay, Haddr, Htrim.
    change (trim (e_pubkeyB64 data)) with (js "cHVia2V5").
    change (trim (e_signatureB64 data)) with (js "c2lnbmF0dXJl").
    by destruct payload.
  - by rewrite Hpay.
  - unfold prop_or_empty. rewrite (Hget (js "room") chat_topic); [done|].
    unfold sample_fields. cbn [app]. apply list_elem_of_here.
  - unfold prop_or_empty. rewrite (Hget (js "nonce") (js "ab12")); [done|].
    unfold sample_fields. cbn [app]. do 5 apply list_elem_of_further.
    apply list_elem_of_here.
  - done.
  - unfold hasValidPow, sha256Utf8. rewrite run_bind. cbn [run stub_host env_digest].
    done.
  - rewrite Haddr, Htrim. cbn [run verifyPayload stub_host env_verify]. cbv beta iota.
    cbn [req_address derive res_ok res_signatureValid res_addressMatches
         res_derivedAddress res_derivedAddr res_error default from_option id].
    change (or_else (crowd_address i) []) with (crowd_address i).
    by rewrite Htrim.
  - done.
Qed.

(** C8, the chat room. The seen set of the chat room is never trimmed:
    when [n] members of a room have sent one valid message each, it holds
    the [n] ids of these messages, for every [n]. *)
Theorem chat_seen_set_is_unbounded blocked n :
  seenMsgId (state_after numberTruthy chat_closure (crowd n) (fresh_session blocked))
  = (λ i, crowd_address i ++ 58 :: js "ab12") <$> seq 0 n
  ∧ length (seenMsgId (state_after numberTruthy chat_closure (crowd n)
                         (fresh_session blocked))) = n.
Proof.
  assert (seenMsgId (state_after numberTruthy chat_closure (crowd n)
                       (fresh_session blocked))
          = (λ i, crowd_address i ++ 58 :: js "ab12") <$> seq 0 n) as Hids;
    [|split; [done|by rewrite Hids, length_fmap, length_seq]].
  induction n as [|n IH]; [done|].
  unfold crowd. rewrite seq_S, !fmap_app, state_after_app. fold (crowd n).
  cbn [fmap list_fmap app Nat.add].
  rewrite state_after_cons. unfold state_after at 1. cbn [deliver_all snd].
  destruct (crowd_member_verified n) as (parsed & v & Hver & Hcan).
  pose proof (deliver_seen_verified numberTruthy chat_closure
                {| arr_host := stub_host 0;
                   arr_data := chat_msg chat_topic (crowd_address n) (js "ab12") (js "hi");
                   arr_parsed := parsed; arr_nonce := js "ab12"; arr_verified := v |}
                (state_after numberTruthy chat_closure (crowd n) (fresh_session blocked))
                Hver) as Hseen.
  cbv zeta in Hseen. unfold delivery in Hseen.
  cbn [arr_host arr_data arr_parsed arr_nonce arr_verified] in Hseen.
  rewrite Hcan, IH in Hseen. rewrite Hseen.
  rewrite bool_decide_eq_false_2; [done|].
  intros Hin. apply list_elem_of_fmap in Hin as (j & Heq & Hj).
  apply elem_of_seq in Hj.
  apply (f_equal length) in Heq. unfold crowd_address in Heq.
  rewrite !length_app in Heq. cbn [length] in Heq. rewrite !repeat_length in Heq. lia.
Qed.
End Crowd.

(** * The live cursor room *)

Section GameLemmas.
Import LiveGame GameFacts.
Variable topic : jsstring.
Variable toNumber : jsstring → float.

(** An envelope for this topic is looked up in the seen set under the
    address it claims, and remembered, before the host is asked to verify
    it. *)
Lemma handler_gated data parsed nonce s :
  gated topic data parsed nonce →
  let address := trim (e_address data) in
  let id := address ++ 58 :: nonce in
  let s1 := {| peers := peers s; seenMsgId := remember id (seenMsgId s) |} in
  handler topic toNumber (Json data) s
  = if bool_decide (id ∈ seenMsgId s) then Ret (ignored s)
    else
      v ← verifyPayload (e_payload data) (trim (e_signatureB64 data))
             (trim (e_pubkeyB64 data)) address;
      match v with
      | None => Ret (ignored s1)
      | Some v => dispatch toNumber parsed address v s1
      end.
Proof.
  intros ((Hf & Hd) & Hr & Hn & Hne) address id s1.
  unfold handler. rewrite Hf, Hd, Hr. cbn [negb]. rewrite <- Hn, Hne. done.
Qed.

Lemma dispatch_seen h parsed address v s :
  seenMsgId (run h (dispatch toNumber parsed address v s)).2 = seenMsgId s.
Proof.
  unfold dispatch. destruct (negb _); [done|].
  repeat case_match; try done; by rewrite run_bind.
Qed.

Lemma deliver_gated_seen h data parsed nonce s :
  gated topic data parsed nonce →
  let id := trim (e_address data) ++ 58 :: nonce in
  seenMsgId (deliver topic toNumber (h, Json data) s).2
  = if bool_decide (id ∈ seenMsgId s) then seenMsgId s
    else remember id (seenMsgId s).
Proof.
  intros Hg id. unfold deliver. cbn [fst snd].
  rewrite (handler_gated _ _ _ _ Hg). cbv zeta. fold id.
  destruct (bool_decide (id ∈ seenMsgId s)); [done|].
  rewrite run_bind.
  destruct (run h (verifyPayload _ _ _ _)) as [v|]; [|done].
  by rewrite dispatch_seen.
Qed.

(** Whatever is delivered, the seen set stays as it is or remembers one
    more id. *)
Lemma deliver_seen_cases d s :
  seenMsgId (deliver topic toNumber d s).2 = seenMsgId s
  ∨ ∃ id, seenMsgId (deliver topic toNumber d s).2 = remember id (seenMsgId s).
Proof.
  destruct d as [h [text|data]]; [by left|].
  destruct (is_empty (e_payload data) || is_empty (trim (e_address data))
            || is_empty (trim (e_pubkeyB64 data))
            || is_empty (trim (e_signatureB64 data))) eqn:Hf.
  { left. unfold deliver, handler. cbn [fst snd]. by rewrite Hf. }
  destruct (decodePayload PROTOCOL (e_payload data)) as [| |parsed] eqn:Hd.
  1,2: left; unfold deliver, handler; cbn [fst snd]; by rewrite Hf, Hd.
  destruct (str_eqb (prop_or_empty parsed (js "room")) topic) eqn:Hr; last first.
  { left. unfold deliver, handler. cbn [fst snd]. by rewrite Hf, Hd, Hr. }
  destruct (is_empty (trim (prop_or_empty parsed (js "nonce")))
            || (20 <? length (trim (prop_or_empty parsed (js "nonce"))))%nat) eqn:Hne.
  { left. unfold deliver, handler. cbn [fst snd]. by rewrite Hf, Hd, Hr, Hne. }
  assert (gated topic data parsed (trim (prop_or_empty parsed (js "nonce")))) as Hg
    by done.
  rewrite (deliver_gated_seen h _ _ _ s Hg). cbv zeta.
  destruct (bool_decide _); [by left|right; by eexists].
Qed.

Lemma remember_bound id seen :
  (length seen ≤ 2501 → length (remember id seen) ≤ 2501)%nat.
Proof.
  intros Hlen. unfold remember. rewrite length_app. cbn [length].
  destruct (Nat.ltb_spec 2500 (length seen)); [rewrite length_drop|]; lia.
Qed.

(** In the live cursor room the seen set never holds more than 2501 ids,
    and it makes room by forgetting the 1200 ids it has held longest. *)
Lemma game_seen_set_is_bounded ds : ∀ s,
  (length (seenMsgId s) ≤ 2501)%nat →
  (length (seenMsgId (state_after topic toNumber ds s)) ≤ 2501)%nat
  ∧ ∀ id, (2500 < length (seenMsgId s))%nat →
          remember id (seenMsgId s) = drop 1200 (seenMsgId s) ++ [id].
Proof.
  intros s Hlen. split.
  - revert s Hlen. induction ds as [|d ds IH]; intros s Hlen; [done|].
    cbn [state_after foldl]. apply IH.
    destruct (deliver_seen_cases d s) as [->|[id ->]]; [done|].
    by apply remember_bound.
  - intros id Hfull. unfold remember.
    by destruct (Nat.ltb_spec 2500 (length (seenMsgId s))); [|lia].
Qed.

(** C9. Where the host has no verification capability, [verifyPayload]
    reports a valid signature and no derived address, and the envelope,
    a [join] or a [state] that gets as far as verification, is handed on
    under the address it claims. *)
Theorem missing_verifier_falls_back h data parsed nonce s :
  gated topic data parsed nonce →
  bool_decide (trim (e_address data) ++ 58 :: nonce ∈ seenMsgId s) = false →
  env_verify h {| req_payload := e_payload data;
                  req_signatureB64 := trim (e_signatureB64 data);
                  req_pubkeyB64 := trim (e_pubkeyB64 data);
                  req_address := trim (e_address data) |} = VerifyAbsent →
  prop_or_empty parsed (js "type") = js "join"
  ∨ prop_or_empty parsed (js "type") = js "state" →
  let address := trim (e_address data) in
  let r := deliver topic toNumber (h, Json data) s in
  run h (verifyPayload (e_payload data) (trim (e_signatureB64 data))
           (trim (e_pubkeyB64 data)) address) = Some provisional
  ∧ ∃ peer, r.1 = Accepted (address, peer) ∧ peers r.2 !! address = Some peer.
Proof.
  intros Hg Hnew Habsent Htype address r. subst address r.
  assert (run h (verifyPayload (e_payload data) (trim (e_signatureB64 data))
                   (trim (e_pubkeyB64 data)) (trim (e_address data)))
          = Some provisional) as Hv.
  { cbn [run verifyPayload]. by rewrite Habsent. }
  split; [done|].
  unfold deliver. cbn [fst snd].
  rewrite (handler_gated _ _ _ _ Hg). cbv zeta. rewrite Hnew.
  rewrite run_bind, Hv. unfold dispatch, provisional.
  cbn [v_signatureValid v_derivedAddress negb or_else].
  destruct Htype as [-> | ->].
  - change (str_eqb (js "join") (js "join")) with true. cbn iota.
    rewrite run_bind. cbn [run nowMs]. eexists. split; [reflexivity|].
    cbn [snd peers]. apply lookup_insert_eq.
  - change (str_eqb (js "state") (js "join")) with false.
    change (str_eqb (js "state") (js "state")) with true. cbn iota.
    rewrite run_bind. cbn [run nowMs]. eexists. split; [reflexivity|].
    cbn [snd peers]. apply lookup_insert_eq.
Qed.
End GameLemmas.

(** C7, as the code has it. An envelope whose decoded [room] is not the
    topic of the subscription is turned away before the host is asked for a
    digest or a verification, and shows nothing: the chat room counts a drop
    with reason [wrong_room], the live cursor room returns without a word. *)
Theorem wrong_room_is_turned_away numberTruthy cl data parsed s topic toNumber data' parsed' sg :
  decodes_as Chat.PROTOCOL data parsed →
  prop_or_empty parsed (js "room") ≠ Chat.topic cl →
  decodes_as LiveGame.PROTOCOL data' parsed' →
  prop_or_empty parsed' (js "room") ≠ topic →
  Chat.handler numberTruthy cl (Json data) s
  = Ret (Chat.drop (js "wrong_room") (Chat.count_total s))
  ∧ no_digest (Chat.handler numberTruthy cl (Json data) s)
  ∧ no_verify (Chat.handler numberTruthy cl (Json data) s)
  ∧ Chat.messages (Chat.drop (js "wrong_room") (Chat.count_total s)).2 = Chat.messages s
  ∧ LiveGame.handler topic toNumber (Json data') sg = Ret (LiveGame.ignored sg)
  ∧ no_verify (LiveGame.handler topic toNumber (Json data') sg).
Proof.
  intros (Hf & Hd) Hr (Hf' & Hd') Hr'.
  assert (Chat.handler numberTruthy cl (Json data) s
          = Ret (Chat.drop (js "wrong_room") (Chat.count_total s))) as Hc.
  { unfold Chat.handler. rewrite Hf, Hd.
    unfold str_eqb. by rewrite bool_decide_eq_false_2. }
  assert (LiveGame.handler topic toNumber (Json data') sg = Ret (LiveGame.ignored sg)) as Hl.
  { unfold LiveGame.handler. rewrite Hf', Hd'.
    unfold str_eqb. by rewrite bool_decide_eq_false_2. }
  rewrite Hc, Hl. done.
Qed.

(** * One delivery to the chat handler, case by case *)

Section ChatStepFacts.
Import Chat ChatFacts ChatSteps.
Variable numberTruthy : jsstring → bool.
Variable cl : Closure.

Lemma early_reason_prefix (p r : jsstring) :
  early_reason p = true → (4 ≤ length p)%nat → early_reason (p ++ r) = true.
Proof.
  unfold early_reason. intros Hp Hlen.
  by rewrite take_app_le by done.
Qed.

Local Ltac early_case :=
  apply step_early;
  first [ reflexivity
        | apply early_reason_prefix; [reflexivity|simpl; lia]
        | match goal with
          | |- context [if is_empty ?u then _ else _] => destruct (is_empty u)
          end;
          [reflexivity|apply early_reason_prefix; [reflexivity|simpl; lia]] ].

Lemma present_step x s :
  let a := canonical (arr_data x) (arr_verified x) in
  passes_replay_gates a (arr_nonce x) s →
  (spam_count a (env_now (arr_host x)) s ≤ AUTO_BLOCK_MAX_MESSAGES)%Z →
  (1000 ≤ env_now (arr_host x) - default 0 (lastAcceptedAt s !! a))%Z →
  let r := run (arr_host x)
             (present numberTruthy (arr_parsed x) a (a ++ 58 :: arr_nonce x)
                (admitted x s)) in
  verified_step numberTruthy cl x s r.1 r.2.
Proof.
  intros a Hg Hspam Hrate r. subst r. unfold present.
  destruct (str_eqb (prop_or_empty (arr_parsed x) (js "type")) (js "profile")) eqn:Hp.
  { apply bool_decide_eq_true in Hp. by apply step_profile. }
  destruct (str_eqb (prop_or_empty (arr_parsed x) (js "type")) (js "msg")) eqn:Hm;
    cbn [negb]; last first.
  { apply (step_refused _ _ _ _ (js "unknown_type")); try done.
    intros [Ht _]. apply bool_decide_eq_false in Hm. by apply Hm. }
  destruct (is_empty (trim (prop_or_empty (arr_parsed x) (js "text")))) eqn:He.
  { apply (step_refused _ _ _ _ (js "empty_text")); try done.
    intros [_ Ht]. by rewrite He in Ht. }
  destruct (500 <? length (trim (prop_or_empty (arr_parsed x) (js "text"))))%nat eqn:Hl.
  { apply (step_refused _ _ _ _ (js "text_too_long")); try done.
    intros [_ Ht]. by rewrite He, Hl in Ht. }
  assert (valid_msg (arr_parsed x)) as Hvalid.
  { split; [by apply bool_decide_eq_true in Hm|by rewrite He, Hl]. }
  rewrite run_bind.
  destruct (numberTruthy (prop_or_empty (arr_parsed x) (js "ts"))) eqn:Hts.
  - cbn [run accept fst snd].
    pose proof (step_message numberTruthy cl x s Hg Hspam Hrate Hvalid) as Hstep.
    unfold shown in Hstep. rewrite Hts in Hstep. exact Hstep.
  - rewrite run_bind. cbn [run nowMs accept fst snd].
    pose proof (step_message numberTruthy cl x s Hg Hspam Hrate Hvalid) as Hstep.
    unfold shown in Hstep. rewrite Hts in Hstep. exact Hstep.
Qed.

Lemma verified_deliver_step x s :
  verified_as cl (arr_host x) (arr_data x) (arr_parsed x) (arr_nonce x) (arr_verified x) →
  verified_step numberTruthy cl x s
    (deliver numberTruthy cl (delivery x) s).1
    (deliver numberTruthy cl (delivery x) s).2.
Proof.
  intros Hver.
  destruct (deliver_verified numberTruthy cl x s Hver) as (Ha & Hne & ->). cbv zeta.
  set (a := canonical (arr_data x) (arr_verified x)) in *.
  destruct (bool_decide (a ++ 58 :: arr_nonce x ∈ seenMsgId s)) eqn:Hseen.
  { apply bool_decide_eq_true in Hseen. by apply step_seen. }
  apply bool_decide_eq_false in Hseen.
  destruct (has_entry (blockedByAddr s) a) eqn:Hb.
  { by apply step_blocked. }
  destruct (bool_decide (arr_nonce x ∈ default [] (recentNonces s !! a))) eqn:Hn.
  { apply bool_decide_eq_true in Hn. by apply step_replay. }
  assert (passes_replay_gates a (arr_nonce x) s) as Hg.
  { split; [by apply bool_decide_eq_false|]. split; [|done].
    unfold isBlocked. by rewrite Ha, Hne. }
  destruct (Z.ltb_spec AUTO_BLOCK_MAX_MESSAGES (spam_count a (env_now (arr_host x)) s)).
  { by apply step_auto_blocked. }
  destruct (Z.ltb_spec (env_now (arr_host x) - default 0%Z (lastAcceptedAt s !! a)) 1000).
  { by apply step_rate_limited. }
  by apply present_step.
Qed.

(** Every delivery is one of the cases of [step]. *)
Lemma deliver_step h m s :
  step numberTruthy cl h m s
    (deliver numberTruthy cl (h, m) s).1 (deliver numberTruthy cl (h, m) s).2.
Proof.
  unfold deliver. cbn [fst snd].
  destruct m as [text|data].
  { cbn [handler run drop fst snd]. early_case. }
  destruct (is_empty (e_payload data) || is_empty (trim (e_address data))
            || is_empty (trim (e_pubkeyB64 data))
            || is_empty (trim (e_signatureB64 data))) eqn:Hf.
  { unfold handler. rewrite Hf. early_case. }
  destruct (decodePayload PROTOCOL (e_payload data)) as [| |parsed] eqn:Hd.
  { unfold handler. rewrite Hf, Hd. apply step_unreadable. }
  { unfold handler. rewrite Hf, Hd. early_case. }
  destruct (str_eqb (prop_or_empty parsed (js "room")) (topic cl)) eqn:Hr; last first.
  { unfold handler. rewrite Hf, Hd, Hr. early_case. }
  set (nonce := trim (prop_or_empty parsed (js "nonce"))).
  destruct (is_empty nonce || (20 <? length nonce)%nat) eqn:Hne.
  { unfold handler. rewrite Hf, Hd, Hr. cbn [negb]. fold nonce. rewrite Hne.
    early_case. }
  destruct (run h (hasValidPow (e_payload data) POW_DIFFICULTY_BITS)) as [e|[]] eqn:Hp.
  { unfold handler. rewrite Hf, Hd, Hr. cbn [negb]. fold nonce.
    rewrite Hne, run_bind, Hp. cbn [run drop fst snd]. early_case. }
  2:{ unfold handler. rewrite Hf, Hd, Hr. cbn [negb]. fold nonce.
      rewrite Hne, run_bind, Hp. early_case. }
  destruct (run h (verifyPayload (e_payload data) (trim (e_signatureB64 data))
                     (trim (e_pubkeyB64 data)) (trim (e_address data))))
    as [v|] eqn:Hv; last first.
  { unfold handler. rewrite Hf, Hd, Hr. cbn [negb]. fold nonce.
    rewrite Hne, run_bind, Hp, run_bind, Hv. apply step_unreadable. }
  destruct (v_signatureValid v) eqn:Hs; last first.
  { unfold handler. rewrite Hf, Hd, Hr. cbn [negb]. fold nonce.
    rewrite Hne, run_bind, Hp, run_bind, Hv, Hs. cbn [negb run drop fst snd].
    early_case. }
  assert (verified_as cl h data parsed nonce v) as Hver by done.
  apply (step_verified numberTruthy cl h (Json data) s
           {| arr_host := h; arr_data := data; arr_parsed := parsed;
              arr_nonce := nonce; arr_verified := v |}); [done|done|done|].
  apply (verified_deliver_step
           {| arr_host := h; arr_data := data; arr_parsed := parsed;
              arr_nonce := nonce; arr_verified := v |} s Hver).
Qed.
End ChatStepFacts.

(** * What a run of deliveries keeps true in the chat room *)

Section ChatInvariants.
Import Chat ChatFacts ChatSteps.
Variable numberTruthy : jsstring → bool.
Variable cl : Closure.

Lemma run_invariant (P : State → Prop) :
  (∀ d s, P s → P (deliver numberTruthy cl d s).2) →
  ∀ ds s, P s → P (state_after numberTruthy cl ds s).
Proof.
  intros Hstep ds. induction ds as [|d ds IH]; intros s Hs; [done|].
  rewrite state_after_cons. by apply IH, Hstep.
Qed.

Lemma updateName_names a n s :
  nameByAddr (updateName a n s) = nameByAddr s
  ∨ ∃ nn, nn ≠ [] ∧ (length nn ≤ 22)%nat
          ∧ nameByAddr (updateName a n s) = <[trim a := nn]> (nameByAddr s).
Proof.
  unfold updateName.
  destruct (is_empty (trim a) || is_empty (slice_first 22 (trim n))) eqn:He; [by left|].
  apply orb_false_elim in He as [_ He].
  cbn [nameByAddr set_nameByAddr]. case_bool_decide; [by left|].
  right. exists (slice_first 22 (trim n)). split; [by destruct (slice_first 22 (trim n))|].
  split; [|done]. unfold slice_first. rewrite length_take. lia.
Qed.

Lemma updateName_rest a n s :
  rxStats (updateName a n s) = rxStats s.
Proof. unfold updateName. by destruct (_ || _). Qed.

(** The stores after the spam gate, field by field. *)
Lemma counted_frame x s :
  let a := canonical (arr_data x) (arr_verified x) in
  let existing := default [] (recentNonces s !! a) in
  messages (counted x s) = messages s
  ∧ blockedByAddr (counted x s) = blockedByAddr s
  ∧ lastAcceptedAt (counted x s) = lastAcceptedAt s
  ∧ seenMsgId (counted x s) = seenMsgId s ++ [a ++ 58 :: arr_nonce x]
  ∧ rxStats (counted x s) = rxStats (count_total s)
  ∧ recentNonces (counted x s)
    = <[a := (if (24 <=? length existing)%nat then keep_last 20 existing else existing)
             ++ [arr_nonce x]]> (recentNonces s)
  ∧ spamWindow (counted x s)
    = <[a := filter (λ t, (env_now (arr_host x) - t < AUTO_BLOCK_WINDOW_MS)%Z)
               (default [] (spamWindow s !! a)) ++ [env_now (arr_host x)]]> (spamWindow s).
Proof.
  intros a existing. unfold counted. fold a. unfold stamped.
  cbn [messages blockedByAddr lastAcceptedAt seenMsgId rxStats recentNonces spamWindow
       set_spamWindow].
  destruct (noted_frame (arr_parsed x) a (arr_nonce x) (count_total s))
    as (-> & -> & -> & -> & ->).
  repeat split; try done.
  - unfold noted. destruct (is_empty _); [done|]. by rewrite updateName_rest.
  - unfold noted. destruct (is_empty _); [done|].
    match goal with
    | |- context [updateName a ?n ?t] =>
        destruct (updateName_frame a n t) as (_ & _ & _ & -> & _)
    end. done.
Qed.

Lemma counted_names x s :
  let a := canonical (arr_data x) (arr_verified x) in
  trim a = a →
  nameByAddr (counted x s) = nameByAddr s
  ∨ ∃ nn, nn ≠ [] ∧ (length nn ≤ 22)%nat
          ∧ nameByAddr (counted x s) = <[a := nn]> (nameByAddr s).
Proof.
  intros a Ha. unfold counted. fold a. unfold stamped, noted.
  cbn [nameByAddr set_spamWindow].
  destruct (is_empty _); [by left|].
  match goal with
  | |- context [updateName a ?n ?t] =>
      destruct (updateName_names a n t) as [->|(nn & ? & ? & ->)]
  end; [by left|right].
  exists nn. by rewrite Ha.
Qed.

(** What [blockUser] does to the stores. *)
Lemma blockUser_fields h a reason nick s :
  let t := run h (blockUser cl a reason nick s) in
  nameByAddr t = nameByAddr s ∧ rxStats t = rxStats s
  ∧ recentNonces t = recentNonces s
  ∧ (t = s
     ∨ is_empty (trim a) = false
       ∧ messages t = filter (λ m, msg_addr m ≠ trim a) (messages s)
       ∧ has_entry (blockedByAddr t) (trim a) = true
       ∧ ∀ b, b ≠ trim a → blockedByAddr t !! b = blockedByAddr s !! b).
Proof.
  unfold blockUser. destruct (is_empty (trim a)) eqn:He; [by auto|].
  destruct (_ && _); [by auto|]. rewrite run_bind. cbn [run nowMs].
  cbn [nameByAddr rxStats recentNonces set_messages set_blockedByAddr messages
       blockedByAddr].
  repeat split; try done. right. repeat split; try done.
  - destruct (has_entry (blockedByAddr s) (trim a)) eqn:Hh; [done|].
    unfold has_entry. by rewrite lookup_insert_eq.
  - intros b Hb. destruct (has_entry (blockedByAddr s) (trim a)); [done|].
    by rewrite lookup_insert_ne.
Qed.

(** ** The counters *)

Lemma deliver_tally h m s :
  rxStats (deliver numberTruthy cl (h, m) s).2
  = tally (deliver numberTruthy cl (h, m) s).1 (rxStats s).
Proof.
  pose proof (deliver_step numberTruthy cl h m s) as Hstep.
  destruct (deliver numberTruthy cl (h, m) s) as [o s']. cbn [fst snd] in *.
  destruct Hstep as [|r Hr|x o s' Hh Hm Hver Hv]; [done|done|].
  destruct Hv; try done.
  - cbn [rxStats count_dropped set_rxStats tally].
    destruct (blockUser_fields (arr_host x) (canonical (arr_data x) (arr_verified x))
                (js "auto_spam")
                (slice_first 22 (trim (prop_or_empty (arr_parsed x) (js "nick"))))
                (counted x s)) as (_ & -> & _).
    by destruct (counted_frame x s) as (_ & _ & _ & _ & -> & _).
  - cbn [rxStats count_dropped set_rxStats tally].
    by destruct (counted_frame x s) as (_ & _ & _ & _ & -> & _).
  - cbn [rxStats count_accepted set_rxStats tally admitted set_lastAcceptedAt].
    by destruct (counted_frame x s) as (_ & _ & _ & _ & -> & _).
  - cbn [rxStats count_dropped set_rxStats tally admitted set_lastAcceptedAt].
    by destruct (counted_frame x s) as (_ & _ & _ & _ & -> & _).
  - cbn [rxStats count_accepted set_rxStats tally admitted set_lastAcceptedAt pushMessage
         set_messages].
    by destruct (counted_frame x s) as (_ & _ & _ & _ & -> & _).
Qed.

Lemma run_tally ds : ∀ s,
  let r := deliver_all numberTruthy cl ds s in
  total (rxStats r.2) = total (rxStats s) + N.of_nat (length ds)
  ∧ accepted (rxStats r.2)
    = accepted (rxStats s) + N.of_nat (length (filter is_accepted r.1))
  ∧ dropped (rxStats r.2)
    = dropped (rxStats s) + N.of_nat (length (filter is_dropped r.1)).
Proof.
  induction ds as [|[h m] ds IH]; intros s; cbn [deliver_all].
  { cbn. lia. }
  pose proof (deliver_tally h m s) as Ht.
  destruct (deliver numberTruthy cl (h, m) s) as [o s1]. cbn [fst snd] in Ht.
  specialize (IH s1). destruct (deliver_all numberTruthy cl ds s1) as [os s2].
  cbn [fst snd] in *. destruct IH as (IH1 & IH2 & IH3).
  rewrite IH1, IH2, IH3, Ht. cbn [length].
  destruct o; cbn [tally total accepted dropped]; rewrite !filter_cons;
    repeat case_decide; try done; cbn [length]; lia.
Qed.

(** X. The counters of [rxStats] agree with what the handler did: after a
    run of deliveries from [connect], [total] is the number of deliveries,
    [accepted] the number of those that were accepted and [dropped] the
    number of those that were dropped with a reason recorded. *)
Theorem counters_agree_with_outcomes ds blocked :
  let r := deliver_all numberTruthy cl ds (fresh_session blocked) in
  total (rxStats r.2) = N.of_nat (length ds)
  ∧ accepted (rxStats r.2) = N.of_nat (length (filter is_accepted r.1))
  ∧ dropped (rxStats r.2) = N.of_nat (length (filter is_dropped r.1)).
Proof.
  intros r. destruct (run_tally ds (fresh_session blocked)) as (H1 & H2 & H3).
  fold r in H1, H2, H3. rewrite H1, H2, H3. cbn. lia.
Qed.
(** ** The stores, one delivery at a time *)

Local Ltac step_cases h m s :=
  let Hstep := fresh "Hstep" in
  pose proof (deliver_step numberTruthy cl h m s) as Hstep;
  destruct (deliver numberTruthy cl (h, m) s) as [? ?]; cbn [fst snd] in *;
  destruct Hstep as [|? ?|x ? ? ? ? Hver Hv]; [| |destruct Hv].

(** The history and the block list after one delivery: as they were; or
    one address newly blocked and its messages gone; or one entry pushed. *)
Lemma deliver_messages h m s :
  let r := deliver numberTruthy cl (h, m) s in
  (messages r.2 = messages s ∧ blockedByAddr r.2 = blockedByAddr s)
  ∨ (∃ a, messages r.2 = filter (λ e, msg_addr e ≠ a) (messages s)
          ∧ has_entry (blockedByAddr r.2) a = true
          ∧ ∀ b, b ≠ a → blockedByAddr r.2 !! b = blockedByAddr s !! b)
  ∨ (∃ entry, r.1 = Accepted (MessageShown entry)
              ∧ messages r.2 = messages (pushMessage entry s)
              ∧ blockedByAddr r.2 = blockedByAddr s
              ∧ has_entry (blockedByAddr s) (msg_addr entry) = false
              ∧ trim (msg_addr entry) = msg_addr entry
              ∧ is_empty (msg_addr entry) = false).
Proof.
  cbv zeta. step_cases h m s; try by left.
  - destruct (blockUser_fields (arr_host x) (canonical (arr_data x) (arr_verified x))
                (js "auto_spam")
                (slice_first 22 (trim (prop_or_empty (arr_parsed x) (js "nick"))))
                (counted x s)) as (_ & _ & _ & [Heq|(_ & Hm & Hb & Ho)]).
    + left. cbn [messages blockedByAddr count_dropped set_rxStats]. rewrite Heq.
      by destruct (counted_frame x s) as (-> & -> & _).
    + right. left. exists (trim (canonical (arr_data x) (arr_verified x))).
      cbn [messages blockedByAddr count_dropped set_rxStats]. rewrite Hm.
      destruct (counted_frame x s) as (-> & Hbl & _).
      split; [done|]. split; [done|]. intros b Hne. by rewrite Ho, Hbl.
  - left. cbn [messages blockedByAddr count_dropped set_rxStats].
    by destruct (counted_frame x s) as (-> & -> & _).
  - left. cbn [messages blockedByAddr count_accepted set_rxStats admitted
               set_lastAcceptedAt].
    by destruct (counted_frame x s) as (-> & -> & _).
  - left. cbn [messages blockedByAddr count_dropped set_rxStats admitted
               set_lastAcceptedAt].
    by destruct (counted_frame x s) as (-> & -> & _).
  - right. right. exists (shown numberTruthy x). split; [done|].
    destruct (canonical_trimmed _ _ _ _ _ _ Hver) as (Ha & Hne & _).
    cbn [messages blockedByAddr count_accepted set_rxStats admitted set_lastAcceptedAt
         pushMessage set_messages shown msg_addr].
    destruct (counted_frame x s) as (-> & -> & _).
    repeat split; try done.
    match goal with Hg : passes_replay_gates _ _ _ |- _ => destruct Hg as (_ & Hb & _) end.
    unfold isBlocked in Hb. by rewrite Ha, Hne in Hb.
Qed.

Lemma pushMessage_length entry s :
  (length (messages s) ≤ 241 → length (messages (pushMessage entry s)) ≤ 241)%nat.
Proof.
  intros Hlen. cbn [messages pushMessage set_messages]. rewrite length_app. cbn [length].
  destruct (Nat.ltb_spec 240 (length (messages s))); [|lia].
  unfold keep_last. rewrite length_drop. lia.
Qed.

(** X. The message history never holds more than 241 entries, whatever is
    delivered after [connect]. *)
Theorem history_is_bounded ds blocked :
  (length (messages (state_after numberTruthy cl ds (fresh_session blocked))) ≤ 241)%nat.
Proof.
  apply (run_invariant (λ s, (length (messages s) ≤ 241)%nat)); [|cbn; lia].
  intros [h m] s Hlen.
  destruct (deliver_messages h m s) as [[-> _]|[(a & -> & _)|(entry & _ & -> & _)]].
  - done.
  - etrans; [apply length_filter|done].
  - by apply pushMessage_length.
Qed.

(** X. The history never shows a message of a blocked address: after any
    run of deliveries from [connect], whatever the block list was at that
    time, no entry of the history has an address that [isBlocked] reports
    as blocked. *)
Theorem history_hides_the_blocked ds blocked :
  Forall (λ e, isBlocked (msg_addr e)
                 (state_after numberTruthy cl ds (fresh_session blocked)) = false)
    (messages (state_after numberTruthy cl ds (fresh_session blocked))).
Proof.
  cut (Forall (λ e, trim (msg_addr e) = msg_addr e
                    ∧ has_entry (blockedByAddr
                                   (state_after numberTruthy cl ds (fresh_session blocked)))
                                (msg_addr e) = false)
         (messages (state_after numberTruthy cl ds (fresh_session blocked)))).
  { intros Hall. eapply Forall_impl; [exact Hall|].
    intros e [Ht Hb]. unfold isBlocked. rewrite Ht. by destruct (is_empty _). }
  apply (run_invariant
           (λ s, Forall (λ e, trim (msg_addr e) = msg_addr e
                              ∧ has_entry (blockedByAddr s) (msg_addr e) = false)
                   (messages s))); [|by apply Forall_nil].
  intros [h m] s Hinv.
  destruct (deliver_messages h m s)
    as [[-> ->]|[(a & -> & Hb & Ho)|(entry & _ & -> & -> & Hfree & Ht & _)]].
  - done.
  - apply Forall_forall. intros e [Hne He]%list_elem_of_filter.
    rewrite Forall_forall in Hinv. destruct (Hinv e He) as [Htr Hfree].
    split; [done|]. unfold has_entry in *. by rewrite Ho.
  - cbn [messages pushMessage set_messages]. apply Forall_app. split.
    + destruct (240 <? length (messages s))%nat; [|done].
      unfold keep_last. by apply Forall_drop.
    + by apply Forall_singleton.
Qed.
(** The seen set and the nonce histories after one delivery: the
    histories as they were and the seen set at most longer; or one nonce
    new to its address recorded together with its message id. *)
Lemma deliver_nonces h m s :
  let r := deliver numberTruthy cl (h, m) s in
  (recentNonces r.2 = recentNonces s ∧ ∃ ids, seenMsgId r.2 = seenMsgId s ++ ids)
  ∨ ∃ a n,
      let existing := default [] (recentNonces s !! a) in
      (n ∉ existing) ∧ (a ++ 58 :: n ∉ seenMsgId s)
      ∧ recentNonces r.2
        = <[a := (if (24 <=? length existing)%nat then keep_last 20 existing
                  else existing) ++ [n]]> (recentNonces s)
      ∧ seenMsgId r.2 = seenMsgId s ++ [a ++ 58 :: n].
Proof.
  cbv zeta. step_cases h m s.
  1-3: left; split; [done|]; exists []; by rewrite app_nil_r.
  1-2: left; split; [done|]; by eexists [_].
  all: right; exists (canonical (arr_data x) (arr_verified x)), (arr_nonce x).
  all: match goal with
       | Hg : passes_replay_gates _ _ _ |- _ =>
           destruct Hg as (Hseen%bool_decide_eq_false & _ & Hn%bool_decide_eq_false)
       end.
  all: split; [done|]; split; [done|].
  all: destruct (counted_frame x s) as (_ & _ & _ & Hs & _ & Hr & _).
  - destruct (blockUser_fields (arr_host x) (canonical (arr_data x) (arr_verified x))
                (js "auto_spam")
                (slice_first 22 (trim (prop_or_empty (arr_parsed x) (js "nick"))))
                (counted x s)) as (_ & _ & Hrn & _).
    destruct (blockUser_frame cl (arr_host x) (canonical (arr_data x) (arr_verified x))
                (js "auto_spam")
                (slice_first 22 (trim (prop_or_empty (arr_parsed x) (js "nick"))))
                (counted x s)) as (_ & Hsn & _).
    cbn [recentNonces seenMsgId count_dropped set_rxStats]. by rewrite Hrn, Hsn.
  - done.
  - done.
  - done.
  - done.
Qed.

(** A drop for [nonce_replay] means that the nonce is in the history of
    the address while the message id is not in the seen set. *)
Lemma deliver_replay_reported h m s :
  (deliver numberTruthy cl (h, m) s).1 = Dropped (js "nonce_replay") →
  ∃ a n, n ∈ default [] (recentNonces s !! a) ∧ a ++ 58 :: n ∉ seenMsgId s.
Proof.
  step_cases h m s; intros Heq; try discriminate Heq.
  - injection Heq as ->.
    match goal with Hr : early_reason _ = true |- _ => by vm_compute in Hr end.
  - by eexists _, _.
  - injection Heq as ->.
    match goal with Hr : type_reason _ = true |- _ => by vm_compute in Hr end.
Qed.

Lemma deliver_histories_in_seen d s :
  histories_in_seen s → histories_in_seen (deliver numberTruthy cl d s).2.
Proof.
  intros Hinv. destruct d as [h m].
  destruct (deliver_nonces h m s) as [(Hr & ids & Hs)|(a & n & _ & _ & Hr & Hs)].
  - intros b k. rewrite Hr, Hs. intros Hk. apply elem_of_app. left. by apply Hinv.
  - intros b k. rewrite Hr, Hs. destruct (decide (b = a)) as [->|Hne].
    + rewrite lookup_insert_eq. cbn [default from_option id].
      intros [Hk|Hk%list_elem_of_singleton]%elem_of_app.
      * apply elem_of_app. left. apply Hinv.
        destruct (24 <=? length _)%nat; [|done].
        unfold keep_last in Hk. by eapply subseteq_drop.
      * subst k. apply elem_of_app. right. by apply list_elem_of_singleton.
    + rewrite lookup_insert_ne by done. intros Hk. apply elem_of_app. left. by apply Hinv.
Qed.

(** X. The gate [nonce_replay] never fires in a run of deliveries from
    [connect]: a nonce is put into the history of an address only together
    with its message id, the seen set never forgets an id, and the seen
    set is asked first. *)
Theorem nonce_replay_is_never_reported ds blocked :
  Forall (λ o, o ≠ Dropped (js "nonce_replay"))
    (deliver_all numberTruthy cl ds (fresh_session blocked)).1.
Proof.
  assert (histories_in_seen (fresh_session blocked)) as Hinv.
  { intros a n Hn. cbn [recentNonces fresh_session] in Hn.
    rewrite lookup_empty in Hn. by apply elem_of_nil in Hn. }
  revert Hinv. generalize (fresh_session blocked).
  induction ds as [|[h m] ds IH]; intros s Hinv; cbn [deliver_all].
  { by apply Forall_nil. }
  pose proof (deliver_replay_reported h m s) as Hrep.
  pose proof (deliver_histories_in_seen (h, m) s Hinv) as Hinv'.
  destruct (deliver numberTruthy cl (h, m) s) as [o s1]. cbn [fst snd] in *.
  specialize (IH s1 Hinv').
  destruct (deliver_all numberTruthy cl ds s1) as [os s2]. cbn [fst snd] in *.
  apply Forall_cons. split; [|done].
  intros Heq. destruct (Hrep Heq) as (a & n & Hn & Hs). by apply Hs, Hinv.
Qed.

(** X. The history of nonces of an address never holds more than 24
    entries and never the same nonce twice, whatever is delivered after
    [connect]. *)
Theorem nonce_history_is_bounded ds blocked a :
  let l := default [] (recentNonces (state_after numberTruthy cl ds (fresh_session blocked))
                         !! a) in
  (length l ≤ 24)%nat ∧ NoDup l.
Proof.
  cbv zeta. revert a.
  apply (run_invariant
           (λ s, ∀ a, (length (default [] (recentNonces s !! a)) ≤ 24)%nat
                      ∧ NoDup (default [] (recentNonces s !! a)))).
  2:{ intros a. cbn [recentNonces fresh_session]. rewrite lookup_empty.
      cbn [default from_option length]. split; [lia|constructor]. }
  intros [h m] s Hinv a.
  destruct (deliver_nonces h m s) as [(-> & _)|(b & n & Hn & _ & -> & _)]; [done|].
  destruct (decide (a = b)) as [->|Hne]; [|by rewrite lookup_insert_ne].
  rewrite lookup_insert_eq. cbn [default from_option id].
  destruct (Hinv b) as [Hlen Hnd]. rewrite length_app. cbn [length].
  destruct (Nat.leb_spec 24 (length (default [] (recentNonces s !! b)))).
  - split; [unfold keep_last; rewrite length_drop; lia|].
    apply NoDup_app. split; [|split].
    + unfold keep_last. by eapply sublist_NoDup; [|apply sublist_drop].
    + intros k Hk ->%list_elem_of_singleton. apply Hn.
      unfold keep_last in Hk. by eapply subseteq_drop.
    + apply NoDup_singleton.
  - split; [lia|]. apply NoDup_app. split; [done|]. split; [|apply NoDup_singleton].
    by intros k Hk ->%list_elem_of_singleton.
Qed.

(** The names after one delivery: as they were, or one name of 1 to 22
    units recorded. *)
Lemma deliver_names h m s :
  let r := deliver numberTruthy cl (h, m) s in
  nameByAddr r.2 = nameByAddr s
  ∨ ∃ a nn, nn ≠ [] ∧ (length nn ≤ 22)%nat ∧ nameByAddr r.2 = <[a := nn]> (nameByAddr s).
Proof.
  cbv zeta. step_cases h m s; try by left.
  all: destruct (canonical_trimmed _ _ _ _ _ _ Hver) as (Ha & _).
  all: destruct (counted_names x s Ha) as [Hn|(nn & Hnn & Hlen & Hn)];
    [left|right; exists (canonical (arr_data x) (arr_verified x)), nn;
          split; [done|]; split; [done|]].
  3-10: done.
  all: destruct (blockUser_fields (arr_host x) (canonical (arr_data x) (arr_verified x))
                   (js "auto_spam")
                   (slice_first 22 (trim (prop_or_empty (arr_parsed x) (js "nick"))))
                   (counted x s)) as (Hb & _).
  all: cbn [nameByAddr count_dropped set_rxStats]; by rewrite Hb.
Qed.

(** X. Every display name the handler records is between 1 and 22 code
    units long. *)
Theorem recorded_names_are_bounded ds blocked a name :
  nameByAddr (state_after numberTruthy cl ds (fresh_session blocked)) !! a = Some name →
  (1 ≤ length name ≤ 22)%nat.
Proof.
  revert a name.
  apply (run_invariant
           (λ s, ∀ a name, nameByAddr s !! a = Some name → (1 ≤ length name ≤ 22)%nat)).
  2:{ intros a name Hl. cbn [nameByAddr fresh_session] in Hl.
      by rewrite lookup_empty in Hl. }
  intros [h m] s Hinv a name.
  destruct (deliver_names h m s) as [->|(b & nn & Hnn & Hlen & ->)]; [by apply Hinv|].
  destruct (decide (a = b)) as [->|Hne]; [|rewrite lookup_insert_ne by done; by apply Hinv].
  rewrite lookup_insert_eq. intros [= <-]. destruct nn; [done|]. cbn [length] in *. lia.
Qed.

(** ** The seen set *)

Lemma run_seen_mono ds : ∀ s id,
  id ∈ seenMsgId s → id ∈ seenMsgId (state_after numberTruthy cl ds s).
Proof.
  induction ds as [|[h m] ds IH]; intros s id Hid; [done|].
  rewrite state_after_cons. apply IH.
  destruct (deliver_nonces h m s) as [(_ & ids & ->)|(a & n & _ & _ & _ & ->)];
    apply elem_of_app; by left.
Qed.

(** X. A redelivery is ignored for the rest of the session. When an
    envelope has been verified and handled once, then at any later time
    the same envelope, verified to the same address, is ignored: nothing
    but the counter [total] changes. *)
Theorem redelivery_is_ignored x h' v' ds s :
  verified_as cl (arr_host x) (arr_data x) (arr_parsed x) (arr_nonce x) (arr_verified x) →
  verified_as cl h' (arr_data x) (arr_parsed x) (arr_nonce x) v' →
  canonical (arr_data x) v' = canonical (arr_data x) (arr_verified x) →
  let s1 := state_after numberTruthy cl (delivery x :: ds) s in
  deliver numberTruthy cl (h', Json (arr_data x)) s1 = (Ignored, count_total s1).
Proof.
  intros Hver Hver' Hcan s1.
  assert (canonical (arr_data x) (arr_verified x) ++ 58 :: arr_nonce x ∈ seenMsgId s1)
    as Hin.
  { subst s1. rewrite state_after_cons. apply run_seen_mono.
    rewrite (deliver_seen_verified numberTruthy cl x s Hver). cbv zeta.
    case_bool_decide; [done|]. apply elem_of_app. right. by apply list_elem_of_singleton. }
  destruct (deliver_verified numberTruthy cl
              {| arr_host := h'; arr_data := arr_data x; arr_parsed := arr_parsed x;
                 arr_nonce := arr_nonce x; arr_verified := v' |} s1 Hver')
    as (_ & _ & Heq).
  unfold delivery in Heq. cbn [arr_host arr_data arr_parsed arr_nonce arr_verified] in Heq.
  rewrite Heq, Hcan. by rewrite bool_decide_eq_true_2.
Qed.

(** ** The block list *)

(** Only an envelope that got through every gate is accepted. *)
Lemma deliver_accepted h m s e :
  (deliver numberTruthy cl (h, m) s).1 = Accepted e →
  ∃ x, arr_host x = h ∧ m = Json (arr_data x)
       ∧ verified_as cl h (arr_data x) (arr_parsed x) (arr_nonce x) (arr_verified x)
       ∧ passes_replay_gates (canonical (arr_data x) (arr_verified x)) (arr_nonce x) s
       ∧ (spam_count (canonical (arr_data x) (arr_verified x)) (env_now h) s
          ≤ AUTO_BLOCK_MAX_MESSAGES)%Z
       ∧ (1000 ≤ env_now h
                 - default 0 (lastAcceptedAt s !! canonical (arr_data x) (arr_verified x)))%Z
       ∧ (e = ProfileSeen (canonical (arr_data x) (arr_verified x))
            ∧ prop_or_empty (arr_parsed x) (js "type") = js "profile"
            ∧ messages (deliver numberTruthy cl (h, m) s).2 = messages s
          ∨ e = MessageShown (shown numberTruthy x)
            ∧ valid_msg (arr_parsed x)
            ∧ messages (deliver numberTruthy cl (h, m) s).2
              = messages (pushMessage (shown numberTruthy x) s)).
Proof.
  step_cases h m s; intros Heq; try discriminate Heq.
  all: injection Heq as <-; exists x; subst h.
  all: repeat (split; [done|]).
  - left. repeat (split; [done|]).
    cbn [messages count_accepted set_rxStats admitted set_lastAcceptedAt].
    by destruct (counted_frame x s) as (-> & _).
  - right. repeat (split; [done|]).
    cbn [messages count_accepted set_rxStats admitted set_lastAcceptedAt pushMessage
         set_messages].
    by destruct (counted_frame x s) as (-> & _).
Qed.

(** X. Once an address is on the block list, no run of deliveries gets an
    event of that address accepted: the handler never takes an entry off
    the list, and it asks the list before it does anything for the
    sender. *)
Theorem blocked_address_is_never_accepted ds s a entry :
  blockedByAddr s !! a = Some entry →
  Forall (λ o, ∀ e, o = Accepted e → event_address e ≠ a)
    (deliver_all numberTruthy cl ds s).1.
Proof.
  revert s. induction ds as [|[h m] ds IH]; intros s Hb; cbn [deliver_all].
  { by apply Forall_nil. }
  pose proof (deliver_accepted h m s) as Hacc.
  pose proof (deliver_keeps_block numberTruthy cl (h, m) s a entry Hb) as Hkeep.
  destruct (deliver numberTruthy cl (h, m) s) as [o s1]. cbn [fst snd] in *.
  specialize (IH s1 Hkeep).
  destruct (deliver_all numberTruthy cl ds s1) as [os s2]. cbn [fst snd] in *.
  apply Forall_cons. split; [|done].
  intros e -> Ha.
  destruct (Hacc e eq_refl) as (x & _ & _ & Hver & (_ & Hfree & _) & _ & _ & Hcase).
  destruct (canonical_trimmed _ _ _ _ _ _ Hver) as (Htr & Hne & _).
  assert (event_address e = canonical (arr_data x) (arr_verified x)) as Hev.
  { by destruct Hcase as [(-> & _)|(-> & _)]. }
  rewrite Hev in Ha. rewrite Ha in Hfree, Htr, Hne.
  unfold isBlocked in Hfree. rewrite Htr, Hne in Hfree.
  unfold has_entry in Hfree. rewrite Hb in Hfree.
  by rewrite bool_decide_eq_true_2 in Hfree by by eexists.
Qed.

(** X. An envelope is accepted only when it got through every gate: its
    four fields are present, its payload decodes and is for the topic of
    the subscription, its nonce has 1 to 20 units, its proof of work and
    its signature were found valid, its message id was not in the seen
    set, its address was not blocked, at most 10 arrivals of the address
    fell into the last 2000 ms, and the address was last admitted at least
    1000 ms ago. The event carries the canonical address; a message
    carries the trimmed text of 1 to 500 units under the id
    [address:nonce], and is the last entry of the history. *)
Theorem accepted_only_through_every_gate h m s e :
  (deliver numberTruthy cl (h, m) s).1 = Accepted e →
  ∃ data parsed nonce v,
    let a := canonical data v in
    m = Json data
    ∧ verified_as cl h data parsed nonce v
    ∧ passes_replay_gates a nonce s
    ∧ (spam_count a (env_now h) s ≤ AUTO_BLOCK_MAX_MESSAGES)%Z
    ∧ (1000 ≤ env_now h - default 0 (lastAcceptedAt s !! a))%Z
    ∧ event_address e = a
    ∧ match e with
      | ProfileSeen _ => prop_or_empty parsed (js "type") = js "profile"
      | MessageShown entry =>
          valid_msg parsed
          ∧ msg_id entry = a ++ 58 :: nonce
          ∧ msg_text entry = trim (prop_or_empty parsed (js "text"))
          ∧ last (messages (deliver numberTruthy cl (h, m) s).2) = Some entry
      end.
Proof.
  intros Hacc.
  destruct (deliver_accepted h m s e Hacc)
    as (x & Hh & Hm & Hver & Hg & Hspam & Hrate & Hcase).
  exists (arr_data x), (arr_parsed x), (arr_nonce x), (arr_verified x). cbv zeta.
  repeat (split; [done|]).
  destruct Hcase as [(-> & Hp & _)|(-> & Hv & Hmsgs)]; [done|].
  split; [done|]. repeat (split; [done|]).
  rewrite Hmsgs. cbn [messages pushMessage set_messages]. by rewrite last_snoc.
Qed.
End ChatInvariants.


(** * The identity of a message *)

(** C1, as the code has it. In the chat room the seen set changes only
    when the signature of the envelope has been verified; the id under
    which a verified envelope is looked up, and recorded when it is new,
    is the verified address, or the claimed one where verification derives
    none, then [:], then the nonce: an envelope whose id is in the seen
    set is ignored, and one whose id is not there is not ignored and
    leaves its id as the last entry of the set. In the live cursor room
    the id is the claimed address, [:], the nonce; an envelope is ignored
    when this id is in the seen set, and else the id is remembered before
    the host is asked to verify: whatever the host answers. *)
Theorem message_identity numberTruthy cl hc m sc topic toNumber hg data parsed nonce sg :
  GameFacts.gated topic data parsed nonce →
  bool_decide (trim (e_address data) ++ 58 :: nonce ∈ LiveGame.seenMsgId sg) = false →
  (Chat.seenMsgId (Chat.deliver numberTruthy cl (hc, m) sc).2 ≠ Chat.seenMsgId sc →
   ∃ data' parsed' nonce' v,
     m = Json data' ∧ ChatFacts.verified_as cl hc data' parsed' nonce' v)
  ∧ (∀ data' parsed' nonce' v,
       m = Json data' → ChatFacts.verified_as cl hc data' parsed' nonce' v →
       let id := or_else (Chat.v_derivedAddress v) (trim (e_address data'))
                 ++ 58 :: nonce' in
       (id ∈ Chat.seenMsgId sc →
        Chat.deliver numberTruthy cl (hc, m) sc = (Ignored, Chat.count_total sc))
       ∧ (id ∉ Chat.seenMsgId sc →
          (Chat.deliver numberTruthy cl (hc, m) sc).1 ≠ Ignored
          ∧ Chat.seenMsgId (Chat.deliver numberTruthy cl (hc, m) sc).2
            = Chat.seenMsgId sc ++ [id]))
  ∧ LiveGame.seenMsgId (LiveGame.deliver topic toNumber (hg, Json data) sg).2
    = LiveGame.remember (trim (e_address data) ++ 58 :: nonce) (LiveGame.seenMsgId sg)
  ∧ (∀ sg', trim (e_address data) ++ 58 :: nonce ∈ LiveGame.seenMsgId sg' →
            LiveGame.deliver topic toNumber (hg, Json data) sg' = (Ignored, sg')).
Proof.
  intros Hg Hnew. split; [|split; [|split]].
  - intros Hchanged.
    destruct (handler_cases numberTruthy cl hc m sc) as [(o & f & Heq & _)|Hver];
      [|exact Hver].
    destruct Hchanged. unfold Chat.deliver. cbn [fst snd]. by rewrite Heq.
  - intros data' parsed' nonce' v -> Hver id.
    pose proof (deliver_verified numberTruthy cl
                  {| ChatFacts.arr_host := hc; ChatFacts.arr_data := data';
                     ChatFacts.arr_parsed := parsed'; ChatFacts.arr_nonce := nonce';
                     ChatFacts.arr_verified := v |} sc Hver) as (_ & _ & Heq).
    pose proof (deliver_seen_verified numberTruthy cl
                  {| ChatFacts.arr_host := hc; ChatFacts.arr_data := data';
                     ChatFacts.arr_parsed := parsed'; ChatFacts.arr_nonce := nonce';
                     ChatFacts.arr_verified := v |} sc Hver) as Hseen.
    pose proof (verified_deliver_step numberTruthy cl
                  {| ChatFacts.arr_host := hc; ChatFacts.arr_data := data';
                     ChatFacts.arr_parsed := parsed'; ChatFacts.arr_nonce := nonce';
                     ChatFacts.arr_verified := v |} sc Hver) as Hstep.
    cbv zeta in Heq, Hseen. unfold ChatFacts.delivery, ChatFacts.canonical in *.
    cbn [ChatFacts.arr_host ChatFacts.arr_data ChatFacts.arr_parsed ChatFacts.arr_nonce
         ChatFacts.arr_verified] in *.
    fold id in Heq, Hseen, Hstep. split.
    + intros Hin. rewrite Heq. by rewrite bool_decide_eq_true_2.
    + intros Hnew'. split; [|by rewrite Hseen, bool_decide_eq_false_2].
      intros Hignored. rewrite Hignored in Hstep.
      inversion Hstep as [Hin| | | | | | |]. by destruct Hnew'.
  - rewrite (deliver_gated_seen topic toNumber hg _ _ _ sg Hg). cbv zeta. by rewrite Hnew.
  - intros sg' Hin. unfold LiveGame.deliver. cbn [fst snd].
    rewrite (handler_gated topic toNumber data parsed nonce sg' Hg). cbv zeta.
    by rewrite bool_decide_eq_true_2.
Qed.

(** * The codec, the proof of work and the block list, function by function *)

Lemma split_on_nonempty sep s : split_on sep s ≠ [].
Proof.
  destruct s as [|c r]; [done|]. simpl.
  destruct (c =? sep); [done|]. by destruct (split_on sep r).
Qed.

Lemma join_split s : join_with 124 (split_on 124 s) = s.
Proof.
  induction s as [|c r IH]; [done|]. simpl.
  destruct (N.eqb_spec c 124) as [->|Hne].
  - pose proof (split_on_nonempty 124 r) as Hr.
    destruct (split_on 124 r) as [|p ps] eqn:Hs; [done|].
    change (join_with 124 ([] :: p :: ps)) with ([] ++ 124 :: join_with 124 (p :: ps)).
    by rewrite IH.
  - pose proof (split_on_nonempty 124 r) as Hr.
    destruct (split_on 124 r) as [|p ps] eqn:Hs; [done|].
    destruct ps as [|q ps].
    + simpl in *. by rewrite IH.
    + change (join_with 124 ((c :: p) :: q :: ps))
        with (c :: (p ++ 124 :: join_with 124 (q :: ps))).
      change (join_with 124 (p :: q :: ps)) with (p ++ 124 :: join_with 124 (q :: ps)) in IH.
      by rewrite IH.
Qed.

Lemma split_on_parts_free s : Forall (λ p, bar_free p = true) (split_on 124 s).
Proof.
  induction s as [|c r IH]; [by repeat constructor|]. simpl.
  destruct (N.eqb_spec c 124) as [->|Hne].
  - by constructor.
  - destruct (split_on 124 r) as [|p ps]; [repeat constructor|].
    + unfold bar_free. simpl. apply N.eqb_neq in Hne. by rewrite Hne.
    + apply Forall_cons in IH as [Hp Hps]. constructor; [|done].
      unfold bar_free in *. simpl. apply N.eqb_neq in Hne. by rewrite Hne.
Qed.

(** X. [decodePayload] returns [null] exactly for the payloads that do not
    start with the protocol tag, the version [v1] and a type, each followed
    by a bar. *)
Theorem decode_is_null_iff tag payload :
  bar_free tag = true →
  decodePayload tag payload = DecodeNull
  ↔ ¬ ∃ type rest, bar_free type = true
                   ∧ payload = tag ++ js "|v1|" ++ type ++ 124 :: rest.
Proof.
  intros Htag. split.
  - intros Hnull (type & rest & Ht & ->).
    unfold decodePayload in Hnull.
    change (tag ++ js "|v1|" ++ type ++ 124 :: rest)
      with (tag ++ 124 :: (js "v1" ++ 124 :: (type ++ 124 :: rest))) in Hnull.
    rewrite !split_on_bar in Hnull by done.
    pose proof (split_on_nonempty 124 rest) as Hne.
    destruct (split_on 124 rest) as [|p ps]; [done|].
    cbn [length nth Nat.ltb Nat.leb drop] in Hnull.
    unfold str_eqb in Hnull. rewrite !bool_decide_eq_true_2 in Hnull by done.
    cbn [negb orb] in Hnull. by destruct (decode_fields _ _).
  - intros Hform. unfold decodePayload.
    pose proof (join_split payload) as Hjoin.
    pose proof (split_on_parts_free payload) as Hfree.
    destruct (split_on 124 payload) as [|p0 [|p1 [|p2 [|p3 ps]]]]; try done.
    cbn [length Nat.ltb Nat.leb nth].
    unfold str_eqb. repeat case_bool_decide; try done. subst p0 p1.
    exfalso. apply Hform. exists p2, (join_with 124 (p3 :: ps)).
    apply Forall_cons in Hfree as [_ Hfree]. apply Forall_cons in Hfree as [_ Hfree].
    apply Forall_cons in Hfree as [H2 _]. split; [done|].
    rewrite <- Hjoin. reflexivity.
Qed.

(** X. No payload is read by both surfaces: what the decoder of the chat
    room accepts, the decoder of the live cursor room turns down, and the
    other way round. *)
Theorem a_payload_belongs_to_one_surface payload :
  decodePayload Chat.PROTOCOL payload = DecodeNull
  ∨ decodePayload LiveGame.PROTOCOL payload = DecodeNull.
Proof.
  unfold decodePayload.
  destruct (length (split_on 124 payload) <? 4)%nat; [by left|].
  unfold str_eqb.
  destruct (decide (nth 0 (split_on 124 payload) [] = Chat.PROTOCOL)) as [Heq|Hne].
  - right. rewrite (bool_decide_eq_false_2 (_ = LiveGame.PROTOCOL)); [done|].
    rewrite Heq. by vm_compute.
  - left. by rewrite (bool_decide_eq_false_2 (_ = Chat.PROTOCOL)).
Qed.

(** ** Proof of work *)

Lemma scan_bits_range b n bits :
  (bits ≤ scan_bits b n bits ≤ bits + Z.of_nat n)%Z.
Proof.
  revert bits. induction n as [|n IH]; intros bits; simpl; [lia|].
  destruct (_ =? 0)%Z; [|lia]. specialize (IH (bits + 1)%Z). lia.
Qed.

Lemma leadingZeroBits_from_range bytes : ∀ bits,
  (bits ≤ leadingZeroBits_from bytes bits ≤ bits + 8 * Z.of_nat (length bytes))%Z.
Proof.
  induction bytes as [|b bytes IH]; intros bits; cbn [leadingZeroBits_from length]; [lia|].
  destruct (b =? 0)%Z.
  - specialize (IH (bits + 8)%Z). lia.
  - pose proof (scan_bits_range b 8 bits). lia.
Qed.

(** X. The proof of work is monotone in the difficulty, and bounded by the
    size of the digest: a payload that passes at [bits] passes at every
    lower difficulty, and with a digest of [n] bytes no payload passes at a
    difficulty above [8 n] (256 for SHA-256). *)
Theorem pow_is_monotone_and_bounded h payload bits bytes :
  env_digest h (text_encode payload) = DigestOk bytes →
  run h (hasValidPow payload bits) = inr true →
  (bits ≤ 8 * Z.of_nat (length bytes))%Z
  ∧ ∀ lower, (lower ≤ bits)%Z → run h (hasValidPow payload lower) = inr true.
Proof.
  intros Hd. unfold hasValidPow. rewrite !run_bind. cbn [run sha256Utf8]. rewrite Hd.
  cbn [run]. intros [= Hb%Z.leb_le].
  pose proof (leadingZeroBits_from_range bytes 0) as Hrange.
  fold (leadingZeroBits bytes) in Hrange. split; [lia|].
  intros lower Hl. rewrite run_bind. cbn [run sha256Utf8]. rewrite Hd. cbn [run].
  f_equal. apply Z.leb_le. lia.
Qed.

(** ** Addresses on display *)

(** X. [shortAddr] never shows more than 16 units: an address of up to 16
    units is shown as it is, a longer one as 13 units that begin with its
    first seven and end with its last five. *)
Theorem shortAddr_fits addr :
  (length (ChatApp.shortAddr addr) ≤ 16)%nat
  ∧ ((length addr ≤ 16)%nat → ChatApp.shortAddr addr = addr)
  ∧ ((16 < length addr)%nat →
     length (ChatApp.shortAddr addr) = 13%nat
     ∧ take 7 (ChatApp.shortAddr addr) = take 7 addr
     ∧ keep_last 5 (ChatApp.shortAddr addr) = keep_last 5 addr).
Proof.
  unfold ChatApp.shortAddr.
  destruct (Nat.leb_spec (length addr) 16) as [Hle|Hgt].
  - split; [done|]. split; [done|]. lia.
  - assert (length (slice_first 7 addr) = 7%nat) as H7.
    { unfold slice_first. rewrite length_take. lia. }
    assert (length (keep_last 5 addr) = 5%nat) as H5.
    { unfold keep_last. rewrite length_drop. lia. }
    assert (length (slice_first 7 addr ++ 8230 :: keep_last 5 addr) = 13%nat) as H13.
    { rewrite length_app. cbn [length]. lia. }
    split; [lia|]. split; [lia|]. intros _. split; [done|]. split.
    + rewrite take_app_le by lia. unfold slice_first. rewrite take_take. f_equal.
    + unfold keep_last at 1. rewrite H13.
      change (13 - 5)%nat with (7 + 1)%nat.
      rewrite drop_app_ge by lia. rewrite H7.
      replace (7 + 1 - 7)%nat with 1%nat by lia. done.
Qed.

(** ** The block list *)

Section BlockList.
Import Chat ChatApp.

(** X. Blocking and unblocking are inverse on the block list and not on
    the history. After [blockUser] the address is blocked and its messages
    are gone; after [unblockUser] it is not blocked any more, the entries
    of every other address are as they were before the two calls, and the
    messages that were taken away have not come back. *)
Theorem unblock_undoes_block cl h address reason name s :
  is_empty (trim address) = false →
  inherited_key (trim address) = false →
  (negb (is_empty (status_address cl)) && str_eqb (trim address) (status_address cl))
  = false →
  let s1 := run h (blockUser cl address reason name s) in
  let s2 := unblockUser address s1 in
  isBlocked address s1 = true
  ∧ isBlocked address s2 = false
  ∧ (∀ b, b ≠ trim address → blockedByAddr s2 !! b = blockedByAddr s !! b)
  ∧ messages s2 = filter (λ m, msg_addr m ≠ trim address) (messages s).
Proof.
  intros Hne Hinh Hself s1 s2.
  assert (s1 = set_messages (filter (λ m, msg_addr m ≠ trim address))
                 (set_blockedByAddr
                    (λ prev, if has_entry prev (trim address) then prev
                             else <[trim address :=
                                      {| blk_addr := trim address;
                                         blk_name :=
                                           or_else
                                             (slice_first 22
                                                (trim (or_else name
                                                         (or_else
                                                            (default []
                                                               (names_at_connect cl
                                                                  !! trim address))
                                                            (js "anon")))))
                                             (js "anon");
                                         blk_blockedAt := env_now h;
                                         blk_reason := or_else reason (js "manual") |}]>
                                    prev) s)) as Hs1.
  { subst s1. unfold blockUser. rewrite Hne, Hself. by rewrite run_bind. }
  assert (has_entry (blockedByAddr s1) (trim address) = true) as Hb1.
  { rewrite Hs1. cbn [blockedByAddr set_messages set_blockedByAddr].
    destruct (has_entry (blockedByAddr s) (trim address)) eqn:Hh; [done|].
    unfold has_entry. by rewrite lookup_insert_eq. }
  split; [|split; [|split]].
  - unfold isBlocked. by rewrite Hne.
  - subst s2. unfold isBlocked, unblockUser. rewrite Hne.
    cbn [blockedByAddr set_blockedByAddr]. rewrite Hb1.
    unfold has_entry. rewrite lookup_delete_eq, Hinh. done.
  - intros b Hb. subst s2. unfold unblockUser. rewrite Hne.
    cbn [blockedByAddr set_blockedByAddr]. rewrite Hb1.
    rewrite lookup_delete_ne by done. rewrite Hs1.
    cbn [blockedByAddr set_messages set_blockedByAddr].
    destruct (has_entry (blockedByAddr s) (trim address)); [done|].
    by rewrite lookup_insert_ne.
  - subst s2. unfold unblockUser. rewrite Hne.
    cbn [messages set_blockedByAddr]. by rewrite Hs1.
Qed.

(** X. An address that is the name of a property every object inherits
    ([constructor], [toString], [__proto__], ...) counts as blocked on
    every block list, and [unblockUser] cannot change that: [isBlocked]
    reads the list with [blocked[addr]], which finds inherited properties,
    and [delete] takes own properties away only. *)
Theorem inherited_names_count_as_blocked address s :
  inherited_key (trim address) = true →
  isBlocked address s = true
  ∧ isBlocked address (unblockUser address s) = true.
Proof.
  intros Hinh.
  assert (is_empty (trim address) = false) as Hne.
  { destruct (trim address); [by vm_compute in Hinh|done]. }
  unfold isBlocked, unblockUser. rewrite Hne.
  unfold has_entry. rewrite Hinh, !orb_true_r. done.
Qed.

(** X. Rooms never share a storage key, and a room has one key: the keys
    of two topics are the same exactly when the topics are the same once
    trimmed. *)
Theorem storage_keys_tell_rooms_apart t1 t2 :
  well_formed (trim t1) = true → well_formed (trim t2) = true →
  is_Some (blocklistStorageKey t1)
  ∧ (blocklistStorageKey t1 = blocklistStorageKey t2 ↔ trim t1 = trim t2).
Proof.
  intros H1 H2. unfold blocklistStorageKey.
  destruct (encodeURIComponent_total (length (trim t1)) (trim t1)) as [e1 He1]; [done..|].
  destruct (encodeURIComponent_total (length (trim t2)) (trim t2)) as [e2 He2]; [done..|].
  rewrite He1, He2. cbn [fmap option_fmap option_map]. split; [done|]. split.
  - intros Heq. apply (inj Some), app_inv_head in Heq. subst e2.
    pose proof (decode_encode_URIComponent _ _ H1 He1) as Hd1.
    pose proof (decode_encode_URIComponent _ _ H2 He2) as Hd2.
    congruence.
  - intros Heq. rewrite Heq in He1. congruence.
Qed.
End BlockList.


(** * What a run of deliveries keeps true in the live cursor room *)

Section GameInvariants.
Import LiveGame GameFacts GameApp.
Variable topic : jsstring.
Variable toNumber : jsstring → float.

(** An envelope is left alone whatever the state, or it gets as far as
    the seen set. *)
Lemma game_handler_cases m :
  (∀ s, handler topic toNumber m s = Ret (ignored s))
  ∨ ∃ data parsed nonce, m = Json data ∧ gated topic data parsed nonce.
Proof.
  destruct m as [text|data]; [by left|].
  destruct (is_empty (e_payload data) || is_empty (trim (e_address data))
            || is_empty (trim (e_pubkeyB64 data))
            || is_empty (trim (e_signatureB64 data))) eqn:Hf.
  { left. intros s. unfold handler. by rewrite Hf. }
  destruct (decodePayload PROTOCOL (e_payload data)) as [| |parsed] eqn:Hd.
  1,2: left; intros s; unfold handler; by rewrite Hf, Hd.
  destruct (str_eqb (prop_or_empty parsed (js "room")) topic) eqn:Hr; last first.
  { left. intros s. unfold handler. by rewrite Hf, Hd, Hr. }
  destruct (is_empty (trim (prop_or_empty parsed (js "nonce")))
            || (20 <? length (trim (prop_or_empty parsed (js "nonce"))))%nat) eqn:Hn.
  { left. intros s. unfold handler. rewrite Hf, Hd, Hr. cbn [negb]. by rewrite Hn. }
  right. by exists data, parsed, (trim (prop_or_empty parsed (js "nonce"))).
Qed.

Lemma elem_of_remember id seen : id ∈ remember id seen.
Proof. unfold remember. apply elem_of_app. right. by apply list_elem_of_singleton. Qed.

(** X. In the live cursor room an envelope that is delivered twice in a
    row is ignored the second time, whatever the host answered the first
    time and whatever it would answer now: the id is remembered before
    verification, also when verification then fails. *)
Theorem game_redelivery_is_ignored h h' m s :
  let s1 := (deliver topic toNumber (h, m) s).2 in
  deliver topic toNumber (h', m) s1 = (Ignored, s1).
Proof.
  intros s1. subst s1.
  destruct (game_handler_cases m) as [Hskip|(data & parsed & nonce & -> & Hg)].
  { unfold deliver. cbn [fst snd]. by rewrite !Hskip. }
  assert (trim (e_address data) ++ 58 :: nonce
          ∈ seenMsgId (deliver topic toNumber (h, Json data) s).2) as Hin.
  { rewrite (deliver_gated_seen topic toNumber h data parsed nonce s Hg). cbv zeta.
    case_bool_decide; [done|]. apply elem_of_remember. }
  unfold deliver at 1. cbn [fst snd].
  rewrite (handler_gated topic toNumber data parsed nonce _ Hg). cbv zeta.
  by rewrite bool_decide_eq_true_2.
Qed.

(** X. The seen set of the live cursor room never holds more than 2501
    ids, whatever is delivered after [connect]. *)
Theorem game_seen_set_stays_small ds :
  (length (seenMsgId (state_after topic toNumber ds fresh_session)) ≤ 2501)%nat.
Proof.
  apply (game_seen_set_is_bounded topic toNumber ds fresh_session). cbn. lia.
Qed.

(** What one delivery does to the peers: nothing, or it puts one peer,
    heard of now, whose nick is the one of the payload cut to 22 units,
    else the nick the peer had, else [player]. *)
Lemma game_deliver_peers h m s :
  let r := deliver topic toNumber (h, m) s in
  (peers r.2 = peers s ∧ ∀ e, r.1 ≠ Accepted e)
  ∨ ∃ a p parsed,
      r.1 = Accepted (a, p) ∧ peers r.2 = <[a := p]> (peers s)
      ∧ peer_ts p = env_now h
      ∧ peer_nick p
        = or_else (slice_first 22 (prop_or_empty parsed (js "nick")))
            (if str_eqb (prop_or_empty parsed (js "type")) (js "join") then js "player"
             else or_else (default [] (peer_nick <$> peers s !! a)) (js "player")).
Proof.
  cbv zeta.
  destruct (game_handler_cases m) as [Hskip|(data & parsed & nonce & -> & Hg)].
  { left. unfold deliver. cbn [fst snd]. by rewrite Hskip. }
  unfold deliver. cbn [fst snd].
  rewrite (handler_gated topic toNumber data parsed nonce s Hg). cbv zeta.
  case_bool_decide; [by left|]. rewrite run_bind.
  destruct (run h (verifyPayload _ _ _ _)) as [v|]; [|by left].
  unfold dispatch. destruct (v_signatureValid v); cbn [negb]; [|by left].
  destruct (str_eqb (prop_or_empty parsed (js "type")) (js "join")) eqn:Hj.
  { right. rewrite run_bind. cbn [run nowMs fst snd peers].
    eexists _, _, parsed. split; [reflexivity|]. rewrite Hj. by cbn [peer_ts peer_nick]. }
  destruct (str_eqb (prop_or_empty parsed (js "type")) (js "state")) eqn:Hst; [|by left].
  right. rewrite run_bind. cbn [run nowMs fst snd peers].
  eexists _, _, parsed. split; [reflexivity|]. rewrite Hj. by cbn [peer_ts peer_nick].
Qed.

Lemma game_run_invariant (P : State → Prop) :
  (∀ d s, P s → P (deliver topic toNumber d s).2) →
  ∀ ds s, P s → P (state_after topic toNumber ds s).
Proof.
  intros Hstep ds. induction ds as [|d ds IH]; intros s Hs; [done|].
  cbn [state_after foldl]. by apply IH, Hstep.
Qed.

(** X. Every peer of the live cursor room has a nick of 1 to 22 code
    units, whatever is delivered after [connect]. *)
Theorem game_nicks_are_bounded ds a p :
  peers (state_after topic toNumber ds fresh_session) !! a = Some p →
  (1 ≤ length (peer_nick p) ≤ 22)%nat.
Proof.
  revert a p.
  apply (game_run_invariant
           (λ s, ∀ a p, peers s !! a = Some p → (1 ≤ length (peer_nick p) ≤ 22)%nat)).
  2:{ intros a p Hl. cbn [peers fresh_session] in Hl. by rewrite lookup_empty in Hl. }
  intros [h m] s Hinv a p.
  destruct (game_deliver_peers h m s) as [[-> _]|(b & q & parsed & _ & -> & _ & Hnick)];
    [by apply Hinv|].
  destruct (decide (a = b)) as [->|Hne]; [|rewrite lookup_insert_ne by done; by apply Hinv].
  rewrite lookup_insert_eq. intros [= <-]. rewrite Hnick.
  assert (∀ d, (1 ≤ length d ≤ 22)%nat →
               (1 ≤ length (or_else (slice_first 22 (prop_or_empty parsed (js "nick"))) d)
                ≤ 22)%nat) as Hor.
  { intros d Hd. unfold slice_first.
    pose proof (length_take (prop_or_empty parsed (js "nick")) 22) as Hlen.
    destruct (take 22 (prop_or_empty parsed (js "nick"))); [done|].
    cbn [or_else length] in *. lia. }
  apply Hor. destruct (str_eqb _ _); [by vm_compute; lia|].
  destruct (peers s !! b) as [q0|] eqn:Hq; cbn [fmap option_fmap option_map default from_option id];
    [|by vm_compute; lia].
  specialize (Hinv b q0 Hq). destruct (peer_nick q0); [cbn in Hinv; lia|]. done.
Qed.

(** X. A peer is shown for 6000 ms after it was last heard of: when the
    handler has put a peer at the time [env_now h], the pruning of the
    render loop at time [t] keeps it if [t] is at most 6000 ms later and
    takes it away otherwise. *)
Theorem peer_times_out h m s a p t :
  (deliver topic toNumber (h, m) s).1 = Accepted (a, p) →
  prune t (peers (deliver topic toNumber (h, m) s).2) !! a
  = if (t - env_now h <=? 6000)%Z then Some p else None.
Proof.
  intros Hacc.
  destruct (game_deliver_peers h m s) as [[_ Hno]|(b & q & parsed & Heq & Hp & Hts & _)].
  { by destruct (Hno (a, p)). }
  rewrite Hacc in Heq. injection Heq as <- <-. rewrite Hp. unfold prune.
  destruct (Z.leb_spec (t - env_now h) 6000) as [Hle|Hgt].
  - apply map_lookup_filter_Some. split; [apply lookup_insert_eq|]. cbn. lia.
  - apply map_lookup_filter_None. right. intros q. rewrite lookup_insert_eq.
    intros [= <-]. cbn. lia.
Qed.

(** X. The log of the live cursor room never holds more than 251 lines,
    and an empty line is not logged. *)
Theorem log_is_bounded (entries : list (jsstring * jsstring)) stamp lines :
  (length (foldl (λ ls e, push e.1 e.2 ls) [] entries) ≤ 251)%nat
  ∧ push stamp [] lines = lines.
Proof.
  split; [|done].
  cut (∀ ls, (length ls ≤ 251)%nat →
             (length (foldl (λ ls e, push e.1 e.2 ls) ls entries) ≤ 251)%nat).
  { intros H. apply H. cbn. lia. }
  induction entries as [|[st ln] entries IH]; intros ls Hls; [done|].
  cbn [foldl fst snd]. apply IH. unfold push.
  destruct (is_empty ln); [done|]. rewrite length_app. cbn [length].
  destruct (Nat.ltb_spec 250 (length ls)); [|lia].
  unfold keep_last. rewrite length_drop. lia.
Qed.
End GameInvariants.


(** * The sending side *)

Section SenderFacts.
Import Sender.

Lemma io_bind_done {A B} (p : Io A) (f : A → Io B) d t t1 a :
  p d t = (t1, Done a) → (p ≫= f) d t = f a d t1.
Proof. intros Hp. unfold mbind, io_mbind, io_bind. by rewrite Hp. Qed.

Lemma io_bind_inv {A B} (p : Io A) (f : A → Io B) d t t2 b :
  (p ≫= f) d t = (t2, Done b) →
  ∃ t1 a, p d t = (t1, Done a) ∧ f a d t1 = (t2, Done b).
Proof.
  unfold mbind, io_mbind, io_bind.
  destruct (p d t) as [t1 [a| |]]; try done. intros Hf. by exists t1, a.
Qed.

(** ** Strings of printable ASCII *)

Lemma plain_unit_facts c :
  plain_unit c = true →
  is_space c = false ∧ c < 128 ∧ is_lead c = false ∧ is_trail c = false.
Proof.
  unfold plain_unit, is_space, is_lead, is_trail.
  intros [H1%N.ltb_lt H2%N.ltb_lt]%andb_prop.
  repeat split; try lia; ncases; lia.
Qed.

Lemma plain_text_well_formed s : plain_text s = true → well_formed s = true.
Proof.
  induction s as [|c s IH]; [done|]. cbn [plain_text forallb well_formed].
  intros [Hc Hs]%andb_prop.
  destruct (plain_unit_facts c Hc) as (_ & Hlt & Hl & Ht).
  rewrite Hl, Ht. cbn [negb andb]. rewrite (IH Hs), andb_true_r.
  apply N.ltb_lt. lia.
Qed.

Lemma plain_text_rev s : plain_text s = true → plain_text (rev s) = true.
Proof.
  unfold plain_text. rewrite !forallb_forall. intros H c Hc.
  apply H. by apply in_rev.
Qed.

Lemma plain_text_no_lead s : plain_text s = true → no_lead_space s.
Proof.
  destruct s as [|c s]; [done|]. cbn [plain_text forallb no_lead_space].
  intros [Hc _]%andb_prop. by destruct (plain_unit_facts c Hc).
Qed.

Lemma plain_text_trim s : plain_text s = true → trim s = s.
Proof.
  intros Hs. unfold trim, trim_end.
  rewrite (trim_start_id s) by by apply plain_text_no_lead.
  rewrite (trim_start_id (rev s)) by by apply plain_text_no_lead, plain_text_rev.
  apply rev_involutive.
Qed.

(** ** [randHex] *)

Lemma randHex_run n : ∀ d t,
  randHex n d t = (after_rolls n t, Done (drawn d (rolls t) n)).
Proof.
  induction n as [|n IH]; intros d t.
  { cbn. unfold after_rolls. destruct t. cbn. by rewrite Nat.add_0_r. }
  cbn [randHex]. unfold mbind, io_mbind, io_bind, roll. rewrite IH.
  cbn [rolls ticks sent]. unfold mret, io_mret, io_ret, after_rolls.
  cbn [rolls ticks sent]. f_equal.
  f_equal. lia.
Qed.

Lemma alphabet_at_plain i :
  i < 16 → length (alphabet_at i) = 1%nat ∧ plain_text (alphabet_at i) = true.
Proof.
  intros Hi.
  assert (i ∈ [0; 1; 2; 3; 4; 5; 6; 7; 8; 9; 10; 11; 12; 13; 14; 15]) as Hin.
  { apply (bool_decide_unpack _).
    destruct i as [|p]; [done|].
    do 4 (destruct p as [p|p|]; try done; try lia). }
  repeat (apply elem_of_cons in Hin as [->|Hin]; [by vm_compute|]).
  by apply elem_of_nil in Hin.
Qed.

Lemma drawn_plain d from n :
  fair d → length (drawn d from n) = n ∧ plain_text (drawn d from n) = true.
Proof.
  intros Hfair. revert from. induction n as [|n IH]; intros from; [done|].
  unfold drawn. cbn [seq fmap list_fmap concat].
  destruct (alphabet_at_plain (dice d from) (Hfair from)) as [Hl Hp].
  destruct (IH (S from)) as [IHl IHp]. unfold drawn in IHl, IHp.
  rewrite length_app, Hl, IHl. split; [done|].
  unfold plain_text in *. by rewrite forallb_app, Hp, IHp.
Qed.

(** X. [randHex(n)] returns [n] characters, each one of [0-9a-f], and
    draws [n] random numbers for them. *)
Theorem randHex_is_hexadecimal n d t :
  fair d →
  ∃ s, randHex n d t = (after_rolls n t, Done s)
       ∧ length s = n
       ∧ Forall (λ c, c ∈ HEX_ALPHABET) s.
Proof.
  intros Hfair. exists (drawn d (rolls t) n). split; [apply randHex_run|].
  generalize (rolls t). induction n as [|n IH]; intros from; [by split|].
  unfold drawn. cbn [seq fmap list_fmap concat].
  destruct (IH (S from)) as [IHl IHa]. unfold drawn in IHl, IHa.
  assert (∃ c, alphabet_at (dice d from) = [c] ∧ c ∈ HEX_ALPHABET) as (c & -> & Hc).
  { pose proof (Hfair from) as Hi. unfold alphabet_at.
    destruct (HEX_ALPHABET !! N.to_nat (dice d from)) as [c|] eqn:Hc.
    - exists c. split; [done|]. by eapply list_elem_of_lookup_2.
    - apply lookup_ge_None in Hc. change (length HEX_ALPHABET) with 16%nat in Hc. lia. }
  cbn [app length]. rewrite IHl. split; [done|]. by constructor.
Qed.
End SenderFacts.

(** * Mining and publishing in the chat room *)

Section ChatSendFacts.
Import Sender Sender.ChatSend Chat ChatFacts.
Variable localeCompare : jsstring → jsstring → Z.

Lemma perform_hasValidPow payload bits d t now :
  perform (hasValidPow payload bits) d t
  = (t, Done (run (receiver d now) (hasValidPow payload bits))).
Proof.
  unfold hasValidPow, sha256Utf8. cbn [mbind host_mbind host_bind perform run receiver
                                       env_digest].
  by destruct (digest d (text_encode payload)).
Qed.

Lemma after_rolls_add n k t : after_rolls n (after_rolls k t) = after_rolls (k + n) t.
Proof. unfold after_rolls. cbn [ticks rolls sent]. f_equal. lia. Qed.

Lemma candidate_shift d t type base i :
  candidate localeCompare d (after_rolls 16 t) type base i
  = candidate localeCompare d t type base (S i).
Proof. unfold candidate, after_rolls. cbn [rolls]. do 3 f_equal. lia. Qed.

(** The loop of [minePowPayload]: it returns the first candidate that
    passes. *)
Lemma mine_finds k : ∀ fuel type base bits attempts d t payload,
  (k < fuel)%nat →
  (∀ i, (i < k)%nat →
        ∃ p, candidate localeCompare d t type base i = Some p
             ∧ run (receiver d 0) (hasValidPow p bits) = inr false) →
  candidate localeCompare d t type base k = Some payload →
  run (receiver d 0) (hasValidPow payload bits) = inr true →
  mine localeCompare fuel type base bits attempts d t
  = (after_rolls (16 * (k + 1)) t,
     Done {| mined_payload := payload;
             mined_nonce := drawn d (rolls t + 16 * k) 16;
             mined_attempts := attempts + N.of_nat (k + 1) |}).
Proof.
  induction k as [|k IH]; intros fuel type base bits attempts d t payload Hk Hfail Hc Hp.
  - destruct fuel as [|fuel]; [lia|]. cbn [mine].
    rewrite (io_bind_done _ _ _ _ _ _ (randHex_run 16 d t)).
    unfold candidate in Hc. rewrite Nat.mul_0_r, Nat.add_0_r in Hc. rewrite Hc.
    rewrite (io_bind_done _ _ _ _ _ _ (perform_hasValidPow payload bits d _ 0)).
    rewrite Hp. unfold mret, io_mret, io_ret.
    by rewrite Nat.mul_0_r, Nat.add_0_r.
  - destruct fuel as [|fuel]; [lia|]. cbn [mine].
    rewrite (io_bind_done _ _ _ _ _ _ (randHex_run 16 d t)).
    destruct (Hfail 0%nat) as (p0 & Hc0 & Hp0); [lia|].
    unfold candidate in Hc0. rewrite Nat.mul_0_r, Nat.add_0_r in Hc0. rewrite Hc0.
    rewrite (io_bind_done _ _ _ _ _ _ (perform_hasValidPow p0 bits d _ 0)).
    rewrite Hp0.
    rewrite (IH fuel type base bits (attempts + 1) d (after_rolls 16 t) payload).
    + rewrite after_rolls_add. f_equal; [f_equal; lia|]. f_equal. f_equal.
      * unfold after_rolls. cbn [rolls]. f_equal. lia.
      * lia.
    + lia.
    + intros i Hi. rewrite candidate_shift. apply Hfail. lia.
    + by rewrite candidate_shift.
    + done.
Qed.

Lemma mine_done fuel : ∀ type base bits attempts d t t' m,
  mine localeCompare fuel type base bits attempts d t = (t', Done m) →
  ∃ k, (k < fuel)%nat
       ∧ candidate localeCompare d t type base k = Some (mined_payload m)
       ∧ mined_nonce m = drawn d (rolls t + 16 * k) 16
       ∧ run (receiver d 0) (hasValidPow (mined_payload m) bits) = inr true
       ∧ t' = after_rolls (16 * (k + 1)) t
       ∧ mined_attempts m = attempts + N.of_nat (k + 1).
Proof.
  induction fuel as [|fuel IH]; intros type base bits attempts d t t' m; [done|].
  cbn [mine]. rewrite (io_bind_done _ _ _ _ _ _ (randHex_run 16 d t)).
  destruct (encodePayload localeCompare PROTOCOL type
              (set_prop (js "nonce") (drawn d (rolls t) 16) base)) as [p|] eqn:Hc; [|done].
  rewrite (io_bind_done _ _ _ _ _ _ (perform_hasValidPow p bits d _ 0)).
  destruct (run (receiver d 0) (hasValidPow p bits)) as [e|[]] eqn:Hp; [done| |].
  - intros [= <- <-]. exists 0%nat. cbn [mined_payload mined_nonce mined_attempts].
    unfold candidate. rewrite Nat.mul_0_r, Nat.add_0_r.
    repeat split; try done; lia.
  - intros Hm. apply IH in Hm as (k & Hk & Hck & Hn & Hpk & -> & Ha).
    exists (S k). rewrite <- candidate_shift. split; [lia|]. split; [done|].
    split; [|split; [done|split]].
    + rewrite Hn. unfold after_rolls. cbn [rolls]. f_equal. lia.
    + rewrite after_rolls_add. f_equal. lia.
    + lia.
Qed.

(** X. [minePowPayload] returns the first attempt whose payload passes
    the proof of work. If the first [k] nonces drawn give payloads that
    fail and the next one gives a payload that passes, then mining,
    looked at for more than [k] attempts, returns that payload and that
    nonce, reports [k + 1] attempts, and has drawn [16 (k + 1)] random
    digits. *)
Theorem mining_returns_the_first_valid_nonce fuel k type base bits d t payload :
  (k < fuel)%nat →
  (∀ i, (i < k)%nat →
        ∃ p, candidate localeCompare d t type base i = Some p
             ∧ run (receiver d 0) (hasValidPow p bits) = inr false) →
  candidate localeCompare d t type base k = Some payload →
  run (receiver d 0) (hasValidPow payload bits) = inr true →
  minePowPayload localeCompare fuel type base bits d t
  = (after_rolls (16 * (k + 1)) t,
     Done {| mined_payload := payload;
             mined_nonce := drawn d (rolls t + 16 * k) 16;
             mined_attempts := N.of_nat (k + 1) |}).
Proof.
  intros Hk Hfail Hc Hp. unfold minePowPayload.
  by rewrite (mine_finds k fuel type base bits 0 d t payload).
Qed.
End ChatSendFacts.

(** * From [publishSigned] to the handler of a peer *)

Lemma set_prop_fresh k v o : k ∉ o.*1 → Sender.set_prop k v o = o ++ [(k, v)].
Proof.
  induction o as [|[k' v'] o IH]; [done|]. cbn [fmap list_fmap fst Sender.set_prop].
  intros [Hne Hk]%not_elem_of_cons. unfold str_eqb.
  rewrite bool_decide_eq_false_2 by done. by rewrite IH.
Qed.

Lemma spread_fresh fields : ∀ o,
  NoDup fields.*1 → (∀ k, k ∈ fields.*1 → k ∉ o.*1) → Sender.spread o fields = o ++ fields.
Proof.
  unfold Sender.spread.
  induction fields as [|[k v] fields IH]; intros o Hnd Hfresh; [by rewrite app_nil_r|].
  cbn [foldl fst snd]. apply NoDup_cons in Hnd as [Hk Hnd].
  rewrite set_prop_fresh by (apply Hfresh; cbn; apply list_elem_of_here).
  rewrite IH; [by rewrite <- app_assoc|done|].
  intros k' Hk'. rewrite fmap_app. intros [Hin|Hin%list_elem_of_singleton]%elem_of_app.
  - apply (Hfresh k'); [cbn; by apply list_elem_of_further|done].
  - cbn in Hin. by subst k'.
Qed.

Lemma digits_plain fuel : ∀ n acc,
  Sender.plain_text acc = true → Sender.plain_text (Sender.digits fuel n acc) = true.
Proof.
  induction fuel as [|fuel IH]; intros n acc Hacc; [done|]. cbn [Sender.digits].
  assert (Sender.plain_text ((48 + n mod 10) :: acc) = true) as Hnext.
  { cbn [Sender.plain_text forallb]. fold (Sender.plain_text acc). rewrite Hacc, andb_true_r.
    unfold Sender.plain_unit. pose proof (N.mod_lt n 10).
    apply andb_true_intro. split; [apply N.ltb_lt|apply N.ltb_lt]; lia. }
  destruct (n <? 10); [done|]. by apply IH.
Qed.

Lemma decimal_plain z : Sender.plain_text (Sender.decimal z) = true.
Proof. destruct z as [|p|p]; [done|by apply digits_plain|]. cbn. by apply digits_plain. Qed.

(** Membership in a list that is written out. *)
Ltac in_list := repeat first [apply list_elem_of_here | apply list_elem_of_further].

Section PublishedFacts.
Import Sender Sender.ChatSend Chat ChatFacts.
Variable localeCompare : jsstring → jsstring → Z.

(** The fields of an encoded payload, read back. *)
Lemma encoded_fields_decode tag t fields payload :
  bar_free tag = true → bar_free t = true →
  NoDup fields.*1 →
  Forall (λ e, plain_key e.1 = true ∧ well_formed e.2 = true) fields →
  encodePayload localeCompare tag t fields = Some payload →
  ∃ parsed,
    decodePayload tag payload = DecodeObj parsed
    ∧ parsed !! js "type" = Some t
    ∧ ∀ k v, (k, v) ∈ fields → parsed !! k = Some v.
Proof.
  intros Htag Ht Hnd Hfields Henc.
  destruct (decode_encoded localeCompare tag t fields Htag Ht Hfields)
    as (payload' & obj & Henc' & Hdec & Hlook).
  rewrite Henc in Henc'. injection Henc' as <-.
  exists (obj ∪ {[js "type" := t]}). split; [done|]. split.
  - rewrite lookup_union_r; [by rewrite lookup_singleton_eq|].
    rewrite Hlook, foldl_put_other; [done|].
    intros Hin. apply list_elem_of_fmap in Hin as ([k v] & Hk & Hin). simpl in Hk.
    rewrite sort_entries_perm in Hin.
    rewrite Forall_forall in Hfields. destruct (Hfields _ Hin) as [Hpk _].
    apply plain_key_facts in Hpk as (_ & _ & _ & Hty & _). simpl in Hty. congruence.
  - intros k v Hin. apply lookup_union_Some_l. rewrite Hlook.
    apply foldl_put_lookup; by rewrite sort_entries_perm.
Qed.

Lemma mine_sent fuel : ∀ type base bits attempts d t t' r,
  mine localeCompare fuel type base bits attempts d t = (t', r) →
  sent t' = sent t ∧ ticks t' = ticks t.
Proof.
  induction fuel as [|fuel IH]; intros type base bits attempts d t t' r.
  { cbn [mine]. by intros [= <- _]. }
  cbn [mine]. rewrite (io_bind_done _ _ _ _ _ _ (randHex_run 16 d t)).
  destruct (encodePayload localeCompare PROTOCOL type
              (set_prop (js "nonce") (drawn d (rolls t) 16) base)) as [p|].
  2:{ unfold throw. by intros [= <- _]. }
  rewrite (io_bind_done _ _ _ _ _ _ (perform_hasValidPow p bits d _ 0)).
  destruct (run (receiver d 0) (hasValidPow p bits)) as [e|[]].
  - unfold throw. by intros [= <- _].
  - unfold mret, io_mret, io_ret. by intros [= <- _].
  - intros Hm. by apply IH in Hm.
Qed.

(** What a call of [publishSigned] hands to the network: nothing, or one
    envelope whose payload has the fields of the call and a mined
    nonce. *)
Lemma publishSigned_sent fuel topic nick type fields d t t' r :
  publishSigned localeCompare fuel topic nick type fields d t = (t', r) →
  let address := wallet_address d in
  let base :=
    spread [(js "room", topic); (js "ts", decimal (clock d (ticks t)));
            (js "addr", address); (js "nick", safe_nick nick)] fields in
  sent t' = sent t
  ∨ ∃ sig k payload,
      let nonce := drawn d (rolls t + 16 * k) 16 in
      is_empty address = false
      ∧ encodePayload localeCompare PROTOCOL type (set_prop (js "nonce") nonce base)
        = Some payload
      ∧ run (receiver d 0) (hasValidPow payload POW_DIFFICULTY_BITS) = inr true
      ∧ sent t' = sent t ++ [{| out_topic := topic; out_t := type;
                                out_data := envelope sig address payload |}]
      ∧ ticks t' = S (ticks t)
      ∧ ∀ res, r = Done res →
               pub_address res = or_else (sig_address sig) address
               ∧ pub_nonce res = nonce ∧ pub_payload res = payload
               ∧ pub_ts res = clock d (ticks t) ∧ pub_type res = type.
Proof.
  unfold publishSigned, wallet_address, safe_nick. cbv zeta.
  destruct (network d) as [send|]; [|unfold throw; intros [= <- _]; by left].
  unfold mbind at 1, io_mbind at 1, io_bind at 1, getActiveProfile at 1.
  destruct (profile d) as [|e|p]; [intros [= <- _]; by left..|].
  destruct (is_empty (trim (prof_id p))
            || is_empty (trim (or_else (prof_walletAddress p) (prof_address p))))
    eqn:Hempty; [intros [= <- _]; by left|].
  apply orb_false_elim in Hempty as [_ Haddr].
  unfold mbind at 1, io_mbind at 1, io_bind at 1, now at 1.
  unfold mbind at 1, io_mbind at 1, io_bind at 1, minePowPayload.
  destruct (mine localeCompare fuel type _ POW_DIFFICULTY_BITS 0 d _) as [t3 rm] eqn:Hmine.
  pose proof (mine_sent _ _ _ _ _ _ _ _ _ Hmine) as [Hs3 Ht3]. cbn [sent ticks] in Hs3, Ht3.
  destruct rm as [mined| |]; [|intros [= <- _]; by left..].
  apply mine_done in Hmine as (k & _ & Hc & Hn & Hp & _ & _).
  unfold candidate in Hc. cbn [rolls] in Hc, Hn. rewrite <- Hn in Hc.
  unfold mbind at 1, io_mbind at 1, io_bind at 1, signPayload at 1.
  destruct (signer d _) as [|e| |sg]; [intros [= <- _]; by left..|].
  destruct (sig_ok sg); [|intros [= <- _]; by left].
  unfold mbind at 1, io_mbind at 1, io_bind at 1, publish at 1.
  set (out := {| out_topic := topic; out_t := type; out_data := _ |}).
  intros Hr. right. exists sg, k, (mined_payload mined). cbv zeta.
  rewrite <- Hn. split; [done|]. split; [done|]. split; [done|].
  destruct (send out) as [e| |[] e]; injection Hr as <- <-; cbn [sent ticks];
    rewrite Hs3, Ht3; (split; [done|]); (split; [done|]); intros res; try done.
  unfold mret, io_mret, io_ret. intros [= <-].
  by cbn [pub_address pub_nonce pub_ts pub_type pub_payload envelope e_address].
Qed.
End PublishedFacts.

(** * From [sendMessage] to the handler of a peer *)

Lemma hasValidPow_digest h h' payload bits :
  env_digest h (text_encode payload) = env_digest h' (text_encode payload) →
  run h (hasValidPow payload bits) = run h' (hasValidPow payload bits).
Proof.
  intros Hd. unfold hasValidPow. rewrite !run_bind. cbn [run sha256Utf8]. rewrite Hd.
  by destruct (env_digest h' _).
Qed.

Lemma encodePayload_not_empty cmp tag type fields payload :
  tag ≠ [] → encodePayload cmp tag type fields = Some payload → is_empty payload = false.
Proof.
  intros Htag. unfold encodePayload.
  destruct (mapM _ _) as [parts|]; [|done]. cbn. intros [= <-]. by destruct tag.
Qed.

Lemma snoc_not_self {A} (l : list A) x : l ++ [x] ≠ l.
Proof. intros H. apply (f_equal length) in H. rewrite length_app in H. cbn in H. lia. Qed.

Section SendMessageFacts.
Import Chat ChatFacts ChatSteps Sender Sender.ChatSend.
Variable localeCompare : jsstring → jsstring → Z.

(** [echo] always returns, and hands nothing to the network. *)
Lemma echo_done msg userNick res s d t :
  ∃ t' s', echo msg userNick res s d t = (t', Done s') ∧ sent t' = sent t.
Proof.
  unfold echo. destruct (_ || _); [by eexists _, _|].
  case_bool_decide; [by eexists _, _|].
  destruct (pub_ts res =? 0)%Z; by eexists _, _.
Qed.

(** [sendMessage], guard by guard: a guard returns, or [publishSigned] is
    called for the trimmed text after two readings of the clock. *)
Lemma sendMessage_cases fuel app d t t' r :
  sendMessage localeCompare fuel app d t = (t', r) →
  let msg := trim (text app) in
  let t2 := {| ticks := S (S (ticks t)); rolls := rolls t; sent := sent t |} in
  let app2 := set_lastSentAt (clock d (S (ticks t))) (set_sending true app) in
  (r = Done app ∧ sent t' = sent t)
  ∨ (connected app = true ∧ sending app = false ∧ (0 < peerCount app)%Z
     ∧ is_empty msg = false ∧ (length msg ≤ 500)%nat
     ∧ (1000 ≤ clock d (ticks t) - lastSentAt app)%Z
     ∧ ∃ t1 rp,
         publishSigned localeCompare fuel (topic app) (nick app) (js "msg")
           [(js "text", msg)] d t2 = (t1, rp)
         ∧ sent t' = sent t1
         ∧ match rp with
           | Done res =>
               ∃ s', echo msg (nick app) res (store app) d t1 = (t', Done s')
                     ∧ r = Done (set_sending false
                                   (set_store (λ _, s') (set_text [] app2)))
           | Threw _ => r = Done (set_sending false app2)
           | Spinning => r = Spinning
           end).
Proof.
  unfold sendMessage. cbv zeta.
  destruct (connected app); cbn [negb]; [|intros [= <- <-]; by left].
  destruct (Z.leb_spec (peerCount app) 0); [intros [= <- <-]; by left|].
  destruct (sending app); [intros [= <- <-]; by left|].
  destruct (is_empty (trim (text app))) eqn:Hne; [intros [= <- <-]; by left|].
  destruct (Nat.ltb_spec 500 (length (trim (text app)))); [intros [= <- <-]; by left|].
  unfold mbind at 1, io_mbind at 1, io_bind at 1, canSendNow.
  unfold mbind at 1, io_mbind at 1, io_bind at 1, now at 1.
  unfold mret at 1, io_mret at 1, io_ret at 1.
  destruct (Z.leb_spec 1000 (clock d (ticks t) - lastSentAt app)); cbn [negb];
    [|intros [= <- <-]; by left].
  unfold mbind at 1, io_mbind at 1, io_bind at 1, now at 1. cbn [ticks rolls sent].
  unfold attempt.
  cbn [topic nick store set_lastSentAt set_sending].
  destruct (publishSigned localeCompare fuel (topic app) (nick app) (js "msg")
              [(js "text", trim (text app))] d _) as [t1 rp] eqn:Hpub.
  intros Hr. right. do 6 (split; [done|]). exists t1, rp. split; [done|].
  destruct rp as [res|e|].
  - destruct (echo_done (trim (text app)) (nick app) res (store app) d t1)
      as (t3 & s' & He & Hs).
    unfold mbind, io_mbind, io_bind in Hr. rewrite He in Hr.
    unfold mret, io_mret, io_ret in Hr. injection Hr as <- <-.
    split; [done|]. by exists s'.
  - unfold mret, io_mret, io_ret in Hr. by injection Hr as <- <-.
  - by injection Hr as <- <-.
Qed.

(** X. What [sendMessage] hands to the network, a peer accepts. Let
    [sendMessage] hand an envelope to [pubsub.publish]. Then a peer that
    has just connected to the same topic, computes the same digests, finds
    the envelope complete and its signature valid, has not blocked the
    address and whose clock is past 1000 accepts it and shows a message
    with the trimmed text under the verified address. *)
Theorem sent_message_is_accepted fuel app d t t' r out numberTruthy cl h v blocked :
  sendMessage localeCompare fuel app d t = (t', r) →
  sent t' = sent t ++ [out] →
  fair d →
  well_formed (topic app) = true → well_formed (safe_nick (nick app)) = true →
  well_formed (wallet_address d) = true → well_formed (trim (text app)) = true →
  Chat.topic cl = topic app →
  env_digest h = digest d →
  vouched h (out_data out) v →
  isBlocked (canonical (out_data out) v) (fresh_session blocked) = false →
  (1000 ≤ env_now h)%Z →
  ∃ entry,
    (deliver numberTruthy cl (h, Json (out_data out)) (fresh_session blocked)).1
    = Accepted (MessageShown entry)
    ∧ msg_addr entry = canonical (out_data out) v
    ∧ msg_text entry = trim (text app)
    ∧ out_topic out = topic app.
Proof.
  intros Hsend Hsent Hfair Hwt Hwn Hwa Hwm Htopic Hdig (Hfields & Hv & Hvalid) Hblk Hnow.
  apply sendMessage_cases in Hsend. cbv zeta in Hsend.
  destruct Hsend as [[_ Hs]|(_ & _ & _ & Hne & Hlen & _ & t1 & rp & Hpub & Hs & _)].
  { rewrite Hs in Hsent. by destruct (snoc_not_self (sent t) out). }
  apply publishSigned_sent in Hpub. cbv zeta in Hpub. cbn [sent ticks rolls] in Hpub.
  destruct Hpub as [Hs1|(sg & k & payload & _ & Henc & Hp & Hs1 & _)].
  { rewrite Hs, Hs1 in Hsent. by destruct (snoc_not_self (sent t) out). }
  rewrite Hs, Hs1 in Hsent. apply app_inj_tail in Hsent as [_ Hout]. subst out.
  cbn [out_data out_topic] in *. split_and?.
  set (nonce := drawn d (rolls t + 16 * k) 16) in *.
  destruct (drawn_plain d (rolls t + 16 * k) 16 Hfair) as [Hnl Hnp]. fold nonce in Hnl, Hnp.
  set (data := envelope sg (wallet_address d) payload) in *.
  set (fields := [(js "room", topic app);
                  (js "ts", decimal (clock d (S (S (ticks t)))));
                  (js "addr", wallet_address d); (js "nick", safe_nick (nick app));
                  (js "text", trim (text app)); (js "nonce", nonce)]).
  change (set_prop (js "nonce") nonce _) with fields in Henc.
  destruct (encoded_fields_decode localeCompare PROTOCOL (js "msg") fields payload)
    as (parsed & Hdec & Hty & Hlook); [done|done| | |done|].
  { apply (bool_decide_unpack _). by vm_compute. }
  { repeat (apply Forall_cons; split; [split; [reflexivity|]|]); try done.
    - apply plain_text_well_formed, decimal_plain.
    - by apply plain_text_well_formed. }
  assert (∀ k v, (k, v) ∈ fields → prop_or_empty parsed k = v) as Hprop.
  { intros k0 v0 Hin. unfold prop_or_empty. by rewrite (Hlook k0 v0 Hin). }
  assert (prop_or_empty parsed (js "type") = js "msg") as Htype.
  { unfold prop_or_empty. by rewrite Hty. }
  assert (verified_as cl h data parsed nonce v) as Hver.
  { split; [split|].
    - assert (PROTOCOL ≠ []) as Htag by (by vm_compute).
      change (e_payload data) with payload.
      rewrite (encodePayload_not_empty _ _ _ _ _ Htag Henc). exact Hfields.
    - done.
    - split; [|split; [|split; [|split; [|split]]]].
      + rewrite (Hprop (js "room") (topic app)), Htopic by (unfold fields; in_list).
        unfold str_eqb. by apply bool_decide_eq_true_2.
      + rewrite (Hprop (js "nonce") nonce) by (unfold fields; in_list).
        by rewrite plain_text_trim.
      + destruct nonce; [done|]. cbn [is_empty orb]. apply Nat.ltb_ge.
        rewrite Hnl. lia.
      + rewrite <- Hp. apply hasValidPow_digest. by rewrite Hdig.
      + done.
      + done. }
  destruct (canonical_trimmed _ _ _ _ _ _ Hver) as (Hca & Hcne & _).
  assert (valid_msg parsed) as Hmsg.
  { split; [done|]. rewrite (Hprop (js "text") (trim (text app))) by (unfold fields; in_list).
    rewrite trim_idem, Hne. cbn [orb]. apply Nat.ltb_ge. lia. }
  pose proof (verified_deliver_step numberTruthy cl
                {| arr_host := h; arr_data := data; arr_parsed := parsed;
                   arr_nonce := nonce; arr_verified := v |}
                (fresh_session blocked) Hver) as Hstep.
  unfold delivery in Hstep.
  cbn [arr_host arr_data arr_parsed arr_nonce arr_verified] in Hstep.
  destruct (deliver numberTruthy cl (h, Json data) (fresh_session blocked)) as [o s'].
  cbn [fst snd] in *.
  destruct Hstep as [Hin|_ Hb|_ _ Hin|_ Hspam|_ _ Hrate|_ _ _ Hprofile|r0 _ _ _ _ Hno|_ _ _ _];
    cbn [arr_host arr_data arr_parsed arr_nonce arr_verified] in *.
  - by apply elem_of_nil in Hin.
  - unfold isBlocked in Hblk. rewrite Hca, Hcne in Hblk.
    cbn [blockedByAddr fresh_session] in *. congruence.
  - cbn [recentNonces fresh_session] in Hin. rewrite lookup_empty in Hin.
    by apply elem_of_nil in Hin.
  - unfold spam_count in Hspam. cbn [spamWindow fresh_session] in Hspam.
    rewrite lookup_empty in Hspam. by vm_compute in Hspam.
  - cbn [lastAcceptedAt fresh_session] in Hrate.
    rewrite lookup_empty in Hrate. cbn [default from_option] in Hrate. lia.
  - rewrite Htype in Hprofile. by vm_compute in Hprofile.
  - by destruct Hno.
  - eexists. split; [reflexivity|]. split; [done|]. split; [|done].
    cbn [shown msg_text arr_parsed].
    rewrite (Hprop (js "text") (trim (text app))) by (unfold fields; in_list). apply trim_idem.
Qed.
End SendMessageFacts.

(** * The own message, and what keeps a message from being sent *)

Section OwnMessageFacts.
Import Chat ChatFacts ChatSteps Sender Sender.ChatSend.
Variable localeCompare : jsstring → jsstring → Z.

(** X. The own message is shown once. When [sendMessage] has published an
    envelope and cleared the input, the message id is in the seen set, so
    that the handler of the sender ignores the envelope when the topic
    brings it back, provided that verification yields the address the
    message went out under; and unless the id was in the seen set before
    (the topic was faster), the message is the last entry of the own
    history, with the trimmed text. *)
Theorem own_message_is_shown_once fuel app d t t' app' out numberTruthy cl h parsed nonce v :
  sendMessage localeCompare fuel app d t = (t', Done app') →
  sent t' = sent t ++ [out] →
  text app' = [] →
  fair d →
  well_formed (topic app) = true → well_formed (safe_nick (nick app)) = true →
  well_formed (wallet_address d) = true → well_formed (trim (text app)) = true →
  verified_as cl h (out_data out) parsed nonce v →
  canonical (out_data out) v = e_address (out_data out) →
  let id := e_address (out_data out) ++ 58 :: nonce in
  deliver numberTruthy cl (h, Json (out_data out)) (store app')
  = (Ignored, count_total (store app'))
  ∧ (id ∈ seenMsgId (store app)
     ∨ ∃ entry, last (messages (store app')) = Some entry
                ∧ msg_id entry = id ∧ msg_addr entry = e_address (out_data out)
                ∧ msg_text entry = trim (text app)).
Proof.
  intros Hsend Hsent Hclear Hfair Hwt Hwn Hwa Hwm Hver Hcan id.
  apply sendMessage_cases in Hsend. cbv zeta in Hsend.
  destruct Hsend as [[_ Hs]|(_ & _ & _ & Hne & Hlen & _ & t1 & rp & Hpub & Hs & Hrp)].
  { rewrite Hs in Hsent. by destruct (snoc_not_self (sent t) out). }
  apply publishSigned_sent in Hpub. cbv zeta in Hpub. cbn [sent ticks rolls] in Hpub.
  destruct Hpub as [Hs1|(sg & k & payload & _ & Henc & Hp & Hs1 & _ & Hres)].
  { rewrite Hs, Hs1 in Hsent. by destruct (snoc_not_self (sent t) out). }
  rewrite Hs, Hs1 in Hsent. apply app_inj_tail in Hsent as [_ Hout]. subst out.
  cbn [out_data out_topic] in *.
  destruct rp as [res|e|]; [|injection Hrp as ->|done].
  2:{ cbn [text set_sending set_lastSentAt] in Hclear. by rewrite Hclear in Hne. }
  destruct Hrp as (s' & Hecho & [= ->]).
  destruct (Hres res eq_refl) as (Hra & Hrn & _). clear Hres.
  cbn [store set_sending set_store set_text set_lastSentAt] in *.
  set (mined := drawn d (rolls t + 16 * k) 16) in *.
  destruct (drawn_plain d (rolls t + 16 * k) 16 Hfair) as [Hnl Hnp]. fold mined in Hnl, Hnp.
  set (fields := [(js "room", topic app);
                  (js "ts", decimal (clock d (S (S (ticks t)))));
                  (js "addr", wallet_address d); (js "nick", safe_nick (nick app));
                  (js "text", trim (text app)); (js "nonce", mined)]).
  change (set_prop (js "nonce") mined _) with fields in Henc.
  destruct (encoded_fields_decode localeCompare PROTOCOL (js "msg") fields payload)
    as (parsed' & Hdec & _ & Hlook); [done|done| | |done|].
  { apply (bool_decide_unpack _). by vm_compute. }
  { repeat (apply Forall_cons; split; [split; [reflexivity|]|]); try done.
    - apply plain_text_well_formed, decimal_plain.
    - by apply plain_text_well_formed. }
  assert (nonce = mined) as ->.
  { destruct Hver as ((_ & Hd) & _ & -> & _).
    change (e_payload (envelope sg (wallet_address d) payload)) with payload in Hd.
    rewrite Hdec in Hd. injection Hd as <-. unfold prop_or_empty.
    rewrite (Hlook (js "nonce") mined) by (unfold fields; in_list). by apply plain_text_trim. }
  change (e_address (envelope sg (wallet_address d) payload))
    with (or_else (sig_address sg) (wallet_address d)) in *.
  rewrite <- Hra in *. rewrite <- Hrn in *. subst id.
  assert (is_empty (pub_address res) = false) as Hane.
  { destruct (canonical_trimmed _ _ _ _ _ _ Hver) as (_ & Hcne & _). by rewrite Hcan in Hcne. }
  assert (is_empty (pub_nonce res) = false) as Hnne.
  { destruct (pub_nonce res); [cbn in Hnl; lia|done]. }
  unfold echo in Hecho. rewrite Hane, Hnne in Hecho. cbn [orb] in Hecho.
  set (s1 := updateName (pub_address res) (slice_first 22 (trim (nick app))) (store app))
    in *.
  assert (seenMsgId s1 = seenMsgId (store app)) as Hseen1.
  { unfold s1.
    by destruct (updateName_frame (pub_address res) (slice_first 22 (trim (nick app)))
                   (store app)) as (_ & _ & _ & _ & -> & _). }
  assert (pub_address res ++ 58 :: pub_nonce res ∈ seenMsgId s'
          ∧ (pub_address res ++ 58 :: pub_nonce res ∈ seenMsgId (store app)
             ∨ ∃ entry, last (messages s') = Some entry
                        ∧ msg_id entry = pub_address res ++ 58 :: pub_nonce res
                        ∧ msg_addr entry = pub_address res
                        ∧ msg_text entry = trim (text app))) as [Hin Hshown].
  { case_bool_decide as Hold.
    - unfold mret, io_mret, io_ret in Hecho. injection Hecho as _ <-.
      split; [done|]. left. by rewrite <- Hseen1.
    - assert (∀ ts, let s2 := pushMessage
                               {| msg_id := pub_address res ++ 58 :: pub_nonce res;
                                  msg_addr := pub_address res;
                                  msg_text := trim (text app); msg_ts := TsClock ts |}
                               (markSeenNonce (pub_address res) (pub_nonce res)
                                  (set_seenMsgId
                                     (λ l, l ++ [pub_address res ++ 58 :: pub_nonce res])
                                     s1)).2 in
                    pub_address res ++ 58 :: pub_nonce res ∈ seenMsgId s2
                    ∧ ∃ entry, last (messages s2) = Some entry
                               ∧ msg_id entry = pub_address res ++ 58 :: pub_nonce res
                               ∧ msg_addr entry = pub_address res
                               ∧ msg_text entry = trim (text app)) as Hpush.
      { intros ts s2. subst s2. split.
        - cbn [seenMsgId pushMessage set_messages].
          unfold markSeenNonce. destruct (_ || _); [|case_bool_decide];
            cbn [snd seenMsgId set_seenMsgId set_recentNonces];
            apply elem_of_app; right; by apply list_elem_of_singleton.
        - cbn [messages pushMessage set_messages]. eexists. split; [apply last_snoc|done]. }
      destruct (pub_ts res =? 0)%Z.
      + unfold mbind, io_mbind, io_bind, now, mret, io_mret, io_ret in Hecho.
        injection Hecho as _ <-. destruct (Hpush (clock d (ticks t1))) as [H1 H2]. by auto.
      + unfold mbind, io_mbind, io_bind, mret, io_mret, io_ret in Hecho.
        injection Hecho as _ <-. destruct (Hpush (pub_ts res)) as [H1 H2]. by auto. }
  rewrite <- Hra, <- Hrn. split; [|done].
  destruct (deliver_verified numberTruthy cl
              {| arr_host := h; arr_data := envelope sg (wallet_address d) payload;
                 arr_parsed := parsed; arr_nonce := pub_nonce res; arr_verified := v |}
              s' Hver) as (_ & _ & Heq).
  unfold delivery in Heq. cbn [arr_host arr_data arr_parsed arr_nonce arr_verified] in Heq.
  rewrite Heq, Hcan. by rewrite bool_decide_eq_true_2.
Qed.

(** X. Sends are a second apart. When a call of [sendMessage] hands
    something to the network, the clock was at least 1000 ms past
    [lastSentAt] when the call checked it, and the call leaves the time of
    its second reading of the clock in [lastSentAt]. While [lastSentAt]
    stays at this time, a call of [sendMessage], whatever the text and
    the rest of the state, that finds the clock less than 1000 ms after
    it hands nothing to the network and changes nothing. *)
Theorem sends_are_a_second_apart fuel app d t t' app' :
  sendMessage localeCompare fuel app d t = (t', Done app') →
  sent t' ≠ sent t →
  (1000 ≤ clock d (ticks t) - lastSentAt app)%Z
  ∧ lastSentAt app' = clock d (S (ticks t))
  ∧ ∀ fuel' next d' u,
      lastSentAt next = lastSentAt app' →
      (clock d' (ticks u) - lastSentAt app' < 1000)%Z →
      ∃ u', sendMessage localeCompare fuel' next d' u = (u', Done next)
            ∧ sent u' = sent u.
Proof.
  intros Hsend Hsent.
  apply sendMessage_cases in Hsend. cbv zeta in Hsend.
  destruct Hsend as [[_ Hs]|(_ & _ & _ & _ & _ & Hgap & t1 & rp & _ & _ & Hrp)]; [done|].
  split; [done|].
  assert (lastSentAt app' = clock d (S (ticks t))) as Hlast.
  { destruct rp as [res|e|]; [destruct Hrp as (s' & _ & [= ->])|injection Hrp as ->|done];
      done. }
  split; [done|]. intros fuel' next d' u Hsame Hsoon.
  destruct (sendMessage localeCompare fuel' next d' u) as [u' r'] eqn:Hnext.
  apply sendMessage_cases in Hnext. cbv zeta in Hnext.
  destruct Hnext as [[-> Hs]|(_ & _ & _ & _ & _ & Hgap' & _)]; [by exists u'|].
  rewrite Hsame in Hgap'. lia.
Qed.

Lemma set_prop_keeps k v k' v' o :
  k ≠ k' → (k, v) ∈ o → (k, v) ∈ set_prop k' v' o.
Proof.
  intros Hne. induction o as [|[k0 v0] o IH]; [by intros ?%elem_of_nil|].
  cbn [set_prop fst]. unfold str_eqb. case_bool_decide as Hk.
  - intros [[= <- <-]|Ho]%elem_of_cons; [done|]. by apply list_elem_of_further.
  - intros [->|Ho]%elem_of_cons; [apply list_elem_of_here|].
    apply list_elem_of_further. by apply IH.
Qed.

Lemma encode_fails tag type fields k v :
  encodeURIComponent v = None → (k, v) ∈ fields →
  encodePayload localeCompare tag type fields = None.
Proof.
  intros Hnone Hin. unfold encodePayload.
  destruct (mapM encode_entry (sort_entries localeCompare fields)) as [parts|] eqn:Hm;
    [|done].
  assert (is_Some (mapM encode_entry (sort_entries localeCompare fields))) as Hsome
    by by eexists.
  apply mapM_is_Some in Hsome. rewrite Forall_forall in Hsome.
  destruct (Hsome (k, v)) as [e He]; [by rewrite sort_entries_perm|].
  unfold encode_entry in He. cbn [fst snd] in He. by rewrite Hnone in He.
Qed.

(** X. A nick that cannot be encoded keeps every message from being
    sent. When [encodeURIComponent] throws on the nick as [publishSigned]
    cuts it (its 22nd unit is the first half of a surrogate pair, say),
    [sendMessage] hands nothing to the network, whatever the text. *)
Theorem unencodable_nick_blocks_sending fuel app d t :
  encodeURIComponent (safe_nick (nick app)) = None →
  sent (sendMessage localeCompare fuel app d t).1 = sent t.
Proof.
  intros Hnone.
  destruct (sendMessage localeCompare fuel app d t) as [t' r] eqn:Hsend. cbn [fst].
  apply sendMessage_cases in Hsend. cbv zeta in Hsend.
  destruct Hsend as [[_ Hs]|(_ & _ & _ & _ & _ & _ & t1 & rp & Hpub & Hs & _)]; [done|].
  apply publishSigned_sent in Hpub. cbv zeta in Hpub. cbn [sent ticks rolls] in Hpub.
  destruct Hpub as [Hs1|(sg & k & payload & _ & Henc & _)]; [by rewrite Hs|].
  rewrite (encode_fails _ _ _ (js "nick") (safe_nick (nick app))) in Henc; [done|done|].
  apply set_prop_keeps; [by vm_compute|]. cbn. in_list.
Qed.
End OwnMessageFacts.

(** * From [publishSigned] of the live cursor room to the handler of a peer *)

Section GameSendFacts.
Import LiveGame GameFacts Sender Sender.GameSend.
Variable localeCompare : jsstring → jsstring → Z.
Variable toNumber : jsstring → float.

(** What a call of [publishSigned] hands to the network: nothing, or one
    envelope whose payload has the fields of the call and a fresh
    nonce. *)
Lemma game_publishSigned_sent topic type fields d t t' r :
  publishSigned localeCompare topic type fields d t = (t', r) →
  let address := wallet_address d in
  let nonce := drawn d (rolls t) 8 in
  sent t' = sent t
  ∨ ∃ sig payload,
      is_empty address = false
      ∧ encodePayload localeCompare PROTOCOL type
          (spread [(js "room", topic); (js "ts", decimal (clock d (ticks t)));
                   (js "nonce", nonce); (js "addr", address)] fields) = Some payload
      ∧ sent t' = sent t ++ [{| out_topic := topic; out_t := type;
                                out_data := envelope sig address payload |}].
Proof.
  unfold publishSigned, wallet_address. cbv zeta.
  destruct (network d) as [send|]; [|unfold throw; intros [= <- _]; by left].
  unfold mbind at 1, io_mbind at 1, io_bind at 1, getActiveProfile at 1.
  destruct (profile d) as [|e|p]; [intros [= <- _]; by left..|].
  destruct (is_empty (trim (prof_id p))
            || is_empty (trim (or_else (prof_walletAddress p) (prof_address p))))
    eqn:Hempty; [intros [= <- _]; by left|].
  apply orb_false_elim in Hempty as [_ Haddr].
  unfold mbind at 1, io_mbind at 1, io_bind at 1, now at 1.
  unfold mbind at 1, io_mbind at 1, io_bind at 1. rewrite randHex_run.
  cbn [rolls ticks sent after_rolls].
  destruct (encodePayload localeCompare PROTOCOL type _) as [payload|] eqn:Henc;
    [|unfold throw; intros [= <- _]; by left].
  unfold mbind at 1, io_mbind at 1, io_bind at 1, signPayload at 1.
  destruct (signer d _) as [|e| |sg]; [intros [= <- _]; by left..|].
  destruct (sig_ok sg); [|intros [= <- _]; by left].
  unfold publish. cbn [sent].
  intros Hr. right. exists sg, payload. split; [done|]. split; [done|].
  by destruct (send _) as [e| |[] e]; injection Hr as <- _.
Qed.

(** X. What the live cursor room announces, a peer shows. Let
    [publishSigned] hand a [join] or a [state] with a nick and the
    numerals [x] and [y] to [pubsub.publish]. Then a peer on the same
    topic that has not seen the message id, finds the envelope complete
    and its signature valid puts the sender on the map under the verified
    address, heard of now, at the numbers its engine reads from [x] and
    [y] (0 for an empty numeral), clamped to the board from 0 to 1000,
    under that nick cut to 22 units; without a nick, under [player] for a
    [join] and under the nick it had for a [state]. *)
Theorem announced_peer_is_shown topic type nick x y d t t' r out h v s :
  publishSigned localeCompare topic type [(js "nick", nick); (js "x", x); (js "y", y)] d t
  = (t', r) →
  sent t' = sent t ++ [out] →
  type = js "join" ∨ type = js "state" →
  fair d →
  well_formed topic = true → well_formed (wallet_address d) = true →
  well_formed nick = true → well_formed x = true → well_formed y = true →
  (is_empty (trim (e_address (out_data out))) || is_empty (trim (e_pubkeyB64 (out_data out)))
   || is_empty (trim (e_signatureB64 (out_data out)))) = false →
  run h (verifyPayload (e_payload (out_data out)) (trim (e_signatureB64 (out_data out)))
           (trim (e_pubkeyB64 (out_data out))) (trim (e_address (out_data out)))) = Some v →
  v_signatureValid v = true →
  trim (e_address (out_data out)) ++ 58 :: drawn d (rolls t) 8 ∉ seenMsgId s →
  let a := or_else (v_derivedAddress v) (trim (e_address (out_data out))) in
  ∃ peer,
    (deliver topic toNumber (h, Json (out_data out)) s).1 = Accepted (a, peer)
    ∧ peers (deliver topic toNumber (h, Json (out_data out)) s).2 !! a = Some peer
    ∧ peer_x peer = clamp (if is_empty x then 0 else toNumber x) 0 1000
    ∧ peer_y peer = clamp (if is_empty y then 0 else toNumber y) 0 1000
    ∧ peer_ts peer = env_now h
    ∧ peer_nick peer
      = or_else (slice_first 22 nick)
          (if str_eqb type (js "join") then js "player"
           else or_else (default [] (peer_nick <$> peers s !! a)) (js "player")).
Proof.
  intros Hpub Hsent Hkinds Hfair Hwt Hwa Hwn Hwx Hwy Hfields Hv Hvalid Hnew a.
  apply game_publishSigned_sent in Hpub. cbv zeta in Hpub.
  destruct Hpub as [Hs|(sg & payload & _ & Henc & Hs)].
  { rewrite Hs in Hsent. by destruct (snoc_not_self (sent t) out). }
  rewrite Hs in Hsent. apply app_inj_tail in Hsent as [_ Hout]. subst out.
  cbn [out_data] in *.
  set (nonce := drawn d (rolls t) 8) in *.
  destruct (drawn_plain d (rolls t) 8 Hfair) as [Hnl Hnp]. fold nonce in Hnl, Hnp.
  set (data := envelope sg (wallet_address d) payload) in *.
  set (fields := [(js "room", topic); (js "ts", decimal (clock d (ticks t)));
                  (js "nonce", nonce); (js "addr", wallet_address d);
                  (js "nick", nick); (js "x", x); (js "y", y)]).
  change (spread _ _) with fields in Henc.
  assert (bar_free type = true) as Hbar by by destruct Hkinds as [-> | ->].
  destruct (encoded_fields_decode localeCompare PROTOCOL type fields payload)
    as (parsed & Hdec & Hty & Hlook); [done|done| | |done|].
  { apply (bool_decide_unpack _). by vm_compute. }
  { repeat (apply Forall_cons; split; [split; [reflexivity|]|]); try done.
    - apply plain_text_well_formed, decimal_plain.
    - by apply plain_text_well_formed. }
  assert (∀ k v, (k, v) ∈ fields → prop_or_empty parsed k = v) as Hprop.
  { intros k0 v0 Hin. unfold prop_or_empty. by rewrite (Hlook k0 v0 Hin). }
  assert (prop_or_empty parsed (js "type") = type) as Hkind.
  { unfold prop_or_empty. by rewrite Hty. }
  assert (gated topic data parsed nonce) as Hg.
  { split; [split|split; [|split]].
    - assert (PROTOCOL ≠ []) as Htag by (by vm_compute).
      change (e_payload data) with payload.
      rewrite (encodePayload_not_empty _ _ _ _ _ Htag Henc). exact Hfields.
    - done.
    - rewrite (Hprop (js "room") topic) by (unfold fields; in_list).
      unfold str_eqb. by apply bool_decide_eq_true_2.
    - rewrite (Hprop (js "nonce") nonce) by (unfold fields; in_list). by rewrite plain_text_trim.
    - destruct nonce; [done|]. cbn [is_empty orb]. apply Nat.ltb_ge. rewrite Hnl. lia. }
  unfold deliver. cbn [fst snd].
  rewrite (handler_gated topic toNumber data parsed nonce s Hg). cbv zeta.
  rewrite bool_decide_eq_false_2 by done.
  rewrite run_bind, Hv. unfold dispatch. rewrite Hvalid. cbn [negb]. fold a.
  rewrite Hkind, (Hprop (js "nick") nick), (Hprop (js "x") x), (Hprop (js "y") y)
    by (unfold fields; in_list).
  destruct Hkinds as [-> | ->].
  - change (str_eqb (js "join") (js "join")) with true. cbn iota.
    rewrite run_bind. cbn [run nowMs fst snd peers].
    eexists. split; [reflexivity|]. split; [apply lookup_insert_eq|]. done.
  - change (str_eqb (js "state") (js "join")) with false.
    change (str_eqb (js "state") (js "state")) with true. cbn iota.
    rewrite run_bind. cbn [run nowMs fst snd peers].
    eexists. split; [reflexivity|]. split; [apply lookup_insert_eq|]. done.
Qed.
End GameSendFacts.


(** * Examples and counterexamples *)

(** Evaluate a closed goal. *)
Ltac evaluate :=
  vm_compute;
  repeat match goal with |- _ ∧ _ => split end;
  first [reflexivity | discriminate | exact I].


(** The fields of a chat message, with a text full of delimiters, come back
    from the codec. *)
Lemma payload_round_trip_witness :
  ∃ payload parsed,
    encodePayload collation_compare Chat.PROTOCOL (js "msg")
      (sample_fields chat_topic alice (js "ab12") [(js "text", js "a|b=c %")])
    = Some payload
    ∧ decodePayload Chat.PROTOCOL payload = DecodeObj parsed
    ∧ parsed !! js "type" = Some (js "msg")
    ∧ ∀ k v, (k, v) ∈ sample_fields chat_topic alice (js "ab12")
                         [(js "text", js "a|b=c %")] →
             parsed !! k = Some v.
Proof.
  apply (payload_round_trip collation_compare).
  - reflexivity.
  - reflexivity.
  - apply (bool_decide_unpack _). vm_compute. exact I.
  - apply (bool_decide_unpack _). vm_compute. exact I.
Defined.

(** What does not come back: a field named [type] replaces the type; a type
    with [|] is cut; a key with [=] is split at it; a key with [|], the empty
    key and [__proto__] are lost; a value with an unpaired surrogate makes the
    encoder throw. *)
Lemma payload_round_trip_counterexample :
  (round_trip Chat.PROTOCOL (js "msg") [(js "type", js "x")] ≫= (.!! js "type"))
  = Some (js "x")
  ∧ round_trip Chat.PROTOCOL (js "a|b") [(js "k", js "v")] ≫= (.!! js "type")
    = Some (js "a")
  ∧ round_trip Chat.PROTOCOL (js "msg") [(js "a=b", js "c")] ≫= (.!! js "a=b") = None
  ∧ round_trip Chat.PROTOCOL (js "msg") [(js "a=b", js "c")] ≫= (.!! js "a")
    = Some (js "b=c")
  ∧ round_trip Chat.PROTOCOL (js "msg") [(js "a|b", js "c")] ≫= (.!! js "a|b") = None
  ∧ round_trip Chat.PROTOCOL (js "msg") [([], js "c")] ≫= (.!! []) = None
  ∧ round_trip Chat.PROTOCOL (js "msg") [(proto_key, js "c")] ≫= (.!! proto_key) = None
  ∧ round_trip Chat.PROTOCOL (js "msg") [(js "k", [55357])] = None.
Proof. repeat split; vm_compute; reflexivity. Qed.

(** The fields of a chat message encode to the same payload in reverse
    insertion order, and the payload lists them in ascending order; so do
    three fields inserted as [c], [a], [b]. *)
Lemma encode_order_independent_witness :
  let f := sample_fields chat_topic alice (js "ab12") [(js "text", js "hi")] in
  (encodePayload collation_compare Chat.PROTOCOL (js "msg") f
   = encodePayload collation_compare Chat.PROTOCOL (js "msg") (rev f)
   ∧ ∃ es, es ≡ₚ f
           ∧ StronglySorted (λ a b, (collation_compare a b < 0)%Z) es.*1
           ∧ encodePayload collation_compare Chat.PROTOCOL (js "msg") f
             = (λ parts, Chat.PROTOCOL ++ js "|v1|" ++ js "msg" ++ 124 :: join_with 124 parts)
               <$> mapM (λ e, (λ v, e.1 ++ 61 :: v) <$> encodeURIComponent e.2) es)
  ∧ encodePayload collation_compare Chat.PROTOCOL (js "msg")
      [(js "c", js "3"); (js "a", js "1"); (js "b", js "2")]
    = Some (js "pubsub_chat|v1|msg|a=1|b=2|c=3").
Proof.
  intros f. split; [|vm_compute; reflexivity].
  apply encode_order_independent.
  - apply Permutation_rev.
  - apply (bool_decide_unpack _). vm_compute. exact I.
  - vm_compute. reflexivity.
Defined.

(** Under the collation [a] comes before [B], which is not their order by code
    point; and two keys that the collation holds equal are encoded in the
    order of their insertion. *)
Lemma encode_order_counterexample :
  encodePayload collation_compare Chat.PROTOCOL (js "msg")
    [(js "B", js "1"); (js "a", js "2")]
  = Some (js "pubsub_chat|v1|msg|a=2|B=1")
  ∧ code_point_ltb (js "B") (js "a") = true
  ∧ ascending_by_code_point
      (sort_entries collation_compare [(js "B", js "1"); (js "a", js "2")]).*1 = false
  ∧ encodePayload collation_compare Chat.PROTOCOL (js "msg")
      [([233], js "1"); ([101; 769], js "2")]
    ≠ encodePayload collation_compare Chat.PROTOCOL (js "msg")
        [([101; 769], js "2"); ([233], js "1")].
Proof. repeat split; vm_compute; (reflexivity || discriminate). Qed.

(** A chat message that claims the address of alice and is verified to the
    one of bob is filed under the id of bob, and ignored when it comes
    again; the live cursor room remembers the id of an envelope whose
    signature the host then finds invalid, under the address it claims. *)
Lemma message_identity_witness :
  let sent := chat_msg chat_topic alice (js "ab12") (js "hello") in
  let h := deriving_host bob 5000 in
  let first := Chat.deliver decimal_truthy chat_closure (h, Json sent)
                 (Chat.fresh_session ∅) in
  let data := game_join game_topic alice (js "ab12") in
  first.1 ≠ Ignored
  ∧ Chat.seenMsgId first.2 = [bob ++ 58 :: js "ab12"]
  ∧ Chat.deliver decimal_truthy chat_closure (h, Json sent) first.2
    = (Ignored, Chat.count_total first.2)
  ∧ LiveGame.seenMsgId
      (LiveGame.deliver game_topic decimal_number (rejecting_host 0, Json data)
         LiveGame.fresh_session).2
    = [alice ++ 58 :: js "ab12"].
Proof.
  intros sent h first data.
  destruct (message_identity decimal_truthy chat_closure h (Json sent)
              (Chat.fresh_session ∅) game_topic decimal_number (rejecting_host 0) data
              (parsed_of LiveGame.PROTOCOL data) (js "ab12") LiveGame.fresh_session)
    as (_ & Hchat & Hgame & _); [evaluate|evaluate|].
  destruct (message_identity decimal_truthy chat_closure h (Json sent)
              first.2 game_topic decimal_number (rejecting_host 0) data
              (parsed_of LiveGame.PROTOCOL data) (js "ab12") LiveGame.fresh_session)
    as (_ & Hagain & _ & _); [evaluate|evaluate|].
  destruct (Hchat sent (parsed_of Chat.PROTOCOL sent) (js "ab12")
              (ChatFacts.arr_verified (ChatFacts.arrive h sent)))
    as [_ Hnew]; [reflexivity|evaluate|].
  destruct (Hagain sent (parsed_of Chat.PROTOCOL sent) (js "ab12")
              (ChatFacts.arr_verified (ChatFacts.arrive h sent)))
    as [Hseen _]; [reflexivity|evaluate|].
  destruct Hnew as [Hshown Hfiled]; [apply not_elem_of_nil|].
  split; [exact Hshown|]. split; [exact Hfiled|]. split; [|exact Hgame].
  apply Hseen. fold first in Hfiled. rewrite Hfiled. apply list_elem_of_here.
Defined.

(** The live cursor room files an envelope under the address it claims, where
    verification derives another address and where verification fails; the
    chat room uses the claimed address where verification derives none. *)
Lemma message_identity_counterexample :
  let data := game_join game_topic alice (js "ab12") in
  let derived := LiveGame.deliver game_topic decimal_number (deriving_host bob 0, Json data)
                   LiveGame.fresh_session in
  let rejected := LiveGame.deliver game_topic decimal_number (rejecting_host 0, Json data)
                    LiveGame.fresh_session in
  let underived := Chat.deliver decimal_truthy chat_closure
                     (deriving_host [] 5000,
                      Json (chat_msg chat_topic alice (js "ab12") (js "hello")))
                     (Chat.fresh_session ∅) in
  (∃ peer, derived.1 = Accepted (bob, peer))
  ∧ LiveGame.seenMsgId derived.2 = [alice ++ 58 :: js "ab12"]
  ∧ LiveGame.seenMsgId derived.2 ≠ [bob ++ 58 :: js "ab12"]
  ∧ rejected.1 = Ignored
  ∧ LiveGame.seenMsgId rejected.2 = [alice ++ 58 :: js "ab12"]
  ∧ (∃ m, underived.1 = Accepted (Chat.MessageShown m))
  ∧ Chat.seenMsgId underived.2 = [alice ++ 58 :: js "ab12"].
Proof.
  intros data derived rejected underived. split; [by eexists|].
  do 4 (split; [evaluate|]). split; [by eexists|evaluate].
Qed.

(** An envelope for another room, in both rooms. *)
Lemma wrong_room_is_turned_away_witness :
  let data := chat_msg (js "lumen/pubsub_chat/v1/other") alice (js "ab12") (js "hello") in
  let data' := game_join (js "lumen/pubsub_livegame/v1/other") alice (js "ab12") in
  Chat.deliver decimal_truthy chat_closure (stub_host 0, Json data) (Chat.fresh_session ∅)
  = Chat.drop (js "wrong_room") (Chat.count_total (Chat.fresh_session ∅))
  ∧ LiveGame.deliver game_topic decimal_number (stub_host 0, Json data') LiveGame.fresh_session
    = LiveGame.ignored LiveGame.fresh_session.
Proof.
  intros data data'.
  destruct (wrong_room_is_turned_away decimal_truthy chat_closure data
              (parsed_of Chat.PROTOCOL data) (Chat.fresh_session ∅) game_topic decimal_number data'
              (parsed_of LiveGame.PROTOCOL data') LiveGame.fresh_session)
    as (Hc & _ & _ & _ & Hg & _).
  - evaluate.
  - evaluate.
  - evaluate.
  - evaluate.
  - unfold Chat.deliver, LiveGame.deliver. cbn [fst snd]. by rewrite Hc, Hg.
Defined.

(** The live cursor room records no reason for an envelope for another room. *)
Lemma wrong_room_counterexample :
  let data' := game_join (js "lumen/pubsub_livegame/v1/other") alice (js "ab12") in
  let r := LiveGame.deliver game_topic decimal_number (stub_host 0, Json data') LiveGame.fresh_session in
  r.1 = Ignored ∧ r.1 ≠ Dropped (js "wrong_room") ∧ r.2 = LiveGame.fresh_session.
Proof. intros data' r. evaluate. Qed.

(** Without a verifier, a [join] claiming the address of alice becomes the
    peer entry of alice. *)
Lemma missing_verifier_falls_back_witness :
  let data := game_join game_topic alice (js "ab12") in
  let r := LiveGame.deliver game_topic decimal_number (bare_host 7, Json data) LiveGame.fresh_session in
  ∃ peer, r.1 = Accepted (alice, peer) ∧ LiveGame.peers r.2 !! alice = Some peer.
Proof.
  intros data r.
  destruct (missing_verifier_falls_back game_topic decimal_number (bare_host 7) data
              (parsed_of LiveGame.PROTOCOL data) (js "ab12") LiveGame.fresh_session)
    as (_ & peer & H1 & H2).
  - evaluate.
  - evaluate.
  - reflexivity.
  - left. evaluate.
  - by exists peer.
Defined.

(** After an accepted message of alice, her next is rate limited 500 ms later
    and accepted 1100 ms later. *)
Lemma one_admission_per_second_witness :
  let first := chat_msg chat_topic alice (js "n0") (js "hello") in
  let s1 := (Chat.deliver decimal_truthy chat_closure (stub_host 5000, Json first)
               (Chat.fresh_session ∅)).2 in
  let second := chat_msg chat_topic alice (js "n1") (js "again") in
  (Chat.deliver decimal_truthy chat_closure (stub_host 5500, Json second) s1).1
  = Dropped (js "rate_limited")
  ∧ ∃ m, (Chat.deliver decimal_truthy chat_closure (stub_host 6100, Json second) s1).1
         = Accepted (Chat.MessageShown m)
         ∧ Chat.msg_addr m = alice ∧ Chat.msg_text m = js "again".
Proof.
  intros first s1 second.
  pose (e1 := Chat.MessageShown
                {| Chat.msg_id := alice ++ 58 :: js "n0"; Chat.msg_addr := alice;
                   Chat.msg_text := js "hello";
                   Chat.msg_ts := Chat.TsField (js "1700000000000") |}).
  split.
  - destruct (one_admission_per_second decimal_truthy chat_closure (Chat.fresh_session ∅)
                (stub_host 5000) first e1 s1
                (ChatFacts.arrive (stub_host 5500) second)) as (H & _).
    + evaluate.
    + evaluate.
    + evaluate.
    + evaluate.
    + evaluate.
    + apply H. evaluate.
  - destruct (one_admission_per_second decimal_truthy chat_closure (Chat.fresh_session ∅)
                (stub_host 5000) first e1 s1
                (ChatFacts.arrive (stub_host 6100) second)) as (_ & H & _).
    + evaluate.
    + evaluate.
    + evaluate.
    + evaluate.
    + evaluate.
    + destruct H as (m & Hm & Ha & Ht & _).
      * evaluate.
      * evaluate.
      * exists m. split; [exact Hm|]. split; [exact Ha|]. rewrite Ht. evaluate.
Defined.

(** An envelope of unknown type uses up the second of its sender. *)
Lemma rejected_by_type_consumes_slot_witness :
  let poll := sign Chat.PROTOCOL (js "poll") chat_topic alice (js "n0") [] in
  let r1 := Chat.deliver decimal_truthy chat_closure (stub_host 5000, Json poll)
              (Chat.fresh_session ∅) in
  let msg := chat_msg chat_topic alice (js "n1") (js "hello") in
  r1.1 = Dropped (js "unknown_type")
  ∧ Chat.lastAcceptedAt r1.2 !! alice = Some 5000%Z
  ∧ (Chat.deliver decimal_truthy chat_closure (stub_host 5400, Json msg) r1.2).1
    = Dropped (js "rate_limited").
Proof.
  intros poll r1 msg. split; [evaluate|].
  destruct (rejected_by_type_consumes_slot decimal_truthy chat_closure
              (Chat.fresh_session ∅) (ChatFacts.arrive (stub_host 5000) poll)
              (js "unknown_type") (ChatFacts.arrive (stub_host 5400) msg))
    as (H1 & H2 & _).
  - evaluate.
  - evaluate.
  - by left.
  - evaluate.
  - evaluate.
  - evaluate.
  - evaluate.
  - evaluate.
  - split; [exact H1|exact H2].
Defined.



(** * More examples *)


(** After one message of alice under the nick [ann], that is her name. *)
Lemma recorded_names_are_bounded_witness :
  let s := Chat.state_after decimal_truthy chat_closure
             [(stub_host 5000, Json (chat_msg chat_topic alice (js "n0") (js "hello")))]
             (Chat.fresh_session ∅) in
  Chat.nameByAddr s !! alice = Some (js "ann") ∧ (1 ≤ length (js "ann") ≤ 22)%nat.
Proof.
  intros s.
  assert (Chat.nameByAddr s !! alice = Some (js "ann")) as Hname by (vm_compute; reflexivity).
  split; [exact Hname|].
  exact (recorded_names_are_bounded decimal_truthy chat_closure _ ∅ alice (js "ann") Hname).
Defined.

(** A message of alice is ignored when it comes again four seconds and one
    message of bob later. *)
Lemma redelivery_is_ignored_witness :
  let first := chat_msg chat_topic alice (js "n0") (js "hello") in
  let other := (stub_host 6000, Json (chat_msg chat_topic bob (js "n1") (js "hi"))) in
  let s1 := Chat.state_after decimal_truthy chat_closure
              [(stub_host 5000, Json first); other] (Chat.fresh_session ∅) in
  Chat.deliver decimal_truthy chat_closure (stub_host 9000, Json first) s1
  = (Ignored, Chat.count_total s1).
Proof.
  intros first other s1.
  apply (redelivery_is_ignored decimal_truthy chat_closure
           (ChatFacts.arrive (stub_host 5000) first) (stub_host 9000)
           (ChatFacts.arr_verified (ChatFacts.arrive (stub_host 5000) first))
           [other] (Chat.fresh_session ∅)).
  - evaluate.
  - evaluate.
  - reflexivity.
Defined.

(** With bob on the block list, neither of his messages is accepted, while
    the one of alice is. *)
Lemma blocked_address_is_never_accepted_witness :
  let s := Chat.fresh_session {[ bob := blocked_bob ]} in
  let ds := [(stub_host 5000, Json (chat_msg chat_topic bob (js "n0") (js "hello")));
             (stub_host 6000, Json (chat_msg chat_topic alice (js "n1") (js "hi")));
             (stub_host 7000, Json (chat_msg chat_topic bob (js "n2") (js "again")))] in
  Chat.blockedByAddr s !! bob = Some blocked_bob
  ∧ Forall (λ o, ∀ e, o = Accepted e → ChatFacts.event_address e ≠ bob)
      (Chat.deliver_all decimal_truthy chat_closure ds s).1.
Proof.
  intros s ds.
  assert (Chat.blockedByAddr s !! bob = Some blocked_bob) as Hb by (vm_compute; reflexivity).
  split; [exact Hb|].
  exact (blocked_address_is_never_accepted decimal_truthy chat_closure ds s bob blocked_bob Hb).
Defined.

(** The first message of alice is accepted, so it got through every gate. *)
Lemma accepted_only_through_every_gate_witness :
  let h := stub_host 5000 in
  let m := Json (chat_msg chat_topic alice (js "n0") (js "hello")) in
  let s := Chat.fresh_session ∅ in
  ∃ data parsed nonce v,
    m = Json data
    ∧ ChatFacts.verified_as chat_closure h data parsed nonce v
    ∧ ChatFacts.passes_replay_gates (ChatFacts.canonical data v) nonce s
    ∧ (ChatFacts.spam_count (ChatFacts.canonical data v) (env_now h) s
       ≤ AUTO_BLOCK_MAX_MESSAGES)%Z
    ∧ (1000 ≤ env_now h
              - default 0 (Chat.lastAcceptedAt s !! ChatFacts.canonical data v))%Z
    ∧ alice = ChatFacts.canonical data v
    ∧ ChatFacts.valid_msg parsed
    ∧ alice ++ 58 :: js "n0" = ChatFacts.canonical data v ++ 58 :: nonce
    ∧ js "hello" = trim (prop_or_empty parsed (js "text"))
    ∧ last (Chat.messages (Chat.deliver decimal_truthy chat_closure (h, m) s).2)
      = Some {| Chat.msg_id := alice ++ 58 :: js "n0"; Chat.msg_addr := alice;
                Chat.msg_text := js "hello";
                Chat.msg_ts := Chat.TsField (js "1700000000000") |}.
Proof.
  intros h m s.
  destruct (accepted_only_through_every_gate decimal_truthy chat_closure h m s
              (Chat.MessageShown
                 {| Chat.msg_id := alice ++ 58 :: js "n0"; Chat.msg_addr := alice;
                    Chat.msg_text := js "hello";
                    Chat.msg_ts := Chat.TsField (js "1700000000000") |}))
    as (data & parsed & nonce & v & H).
  { vm_compute. reflexivity. }
  exists data, parsed, nonce, v. exact H.
Defined.

(** A payload of version 2 is not of the form that decodes. *)
Lemma decode_is_null_iff_witness :
  decodePayload Chat.PROTOCOL (js "pubsub_chat|v2|msg|text=hi") = DecodeNull
  ↔ ¬ ∃ type rest,
        bar_free type = true
        ∧ js "pubsub_chat|v2|msg|text=hi" = Chat.PROTOCOL ++ js "|v1|" ++ type ++ 124 :: rest.
Proof.
  apply (decode_is_null_iff Chat.PROTOCOL (js "pubsub_chat|v2|msg|text=hi")). reflexivity.
Defined.

(** A digest of three bytes with twelve leading zero bits passes at twelve,
    hence at every lower difficulty, and twelve is at most 24. *)
Lemma pow_is_monotone_and_bounded_witness :
  let h := {| env_now := 0; env_digest := λ _, DigestOk twelve_zero_bits;
              env_verify := λ _, VerifyAbsent |} in
  (12 ≤ 8 * Z.of_nat (length twelve_zero_bits))%Z
  ∧ ∀ lower, (lower ≤ 12)%Z →
             run h (hasValidPow (js "pubsub_chat|v1|msg|") lower) = inr true.
Proof.
  intros h.
  apply (pow_is_monotone_and_bounded h (js "pubsub_chat|v1|msg|") 12 twelve_zero_bits).
  - reflexivity.
  - vm_compute. reflexivity.
Defined.

(** Blocking bob takes his message out of the history of a room in which
    alice and bob have spoken, and unblocking him does not bring it back. *)
Lemma unblock_undoes_block_witness :
  let s := Chat.state_after decimal_truthy chat_closure
             [(stub_host 5000, Json (chat_msg chat_topic alice (js "n0") (js "hello")));
              (stub_host 6000, Json (chat_msg chat_topic bob (js "n1") (js "hi")))]
             (Chat.fresh_session ∅) in
  let s1 := run (stub_host 7000)
              (Chat.blockUser chat_closure (js " lumen1bob ") (js "manual") (js "bob") s) in
  let s2 := ChatApp.unblockUser (js " lumen1bob ") s1 in
  Chat.isBlocked (js " lumen1bob ") s1 = true
  ∧ Chat.isBlocked (js " lumen1bob ") s2 = false
  ∧ (∀ b, b ≠ trim (js " lumen1bob ") →
          Chat.blockedByAddr s2 !! b = Chat.blockedByAddr s !! b)
  ∧ Chat.messages s2
    = filter (λ m, Chat.msg_addr m ≠ trim (js " lumen1bob ")) (Chat.messages s).
Proof.
  intros s.
  apply (unblock_undoes_block chat_closure (stub_host 7000) (js " lumen1bob ")
           (js "manual") (js "bob") s).
  - vm_compute. reflexivity.
  - vm_compute. reflexivity.
  - vm_compute. reflexivity.
Defined.

(** An address called [constructor] is blocked in a room whose block list
    is empty, and stays so. *)
Lemma inherited_names_count_as_blocked_witness :
  Chat.isBlocked (js "constructor") (Chat.fresh_session ∅) = true
  ∧ Chat.isBlocked (js "constructor")
      (ChatApp.unblockUser (js "constructor") (Chat.fresh_session ∅)) = true.
Proof.
  apply (inherited_names_count_as_blocked (js "constructor") (Chat.fresh_session ∅)).
  vm_compute. reflexivity.
Defined.

(** The lobby has one key, with or without spaces around the topic, and
    another room has another. *)
Lemma storage_keys_tell_rooms_apart_witness :
  (is_Some (ChatApp.blocklistStorageKey (js " lumen/pubsub_chat/v1/lobby "))
   ∧ (ChatApp.blocklistStorageKey (js " lumen/pubsub_chat/v1/lobby ")
      = ChatApp.blocklistStorageKey chat_topic
      ↔ trim (js " lumen/pubsub_chat/v1/lobby ") = trim chat_topic))
  ∧ ChatApp.blocklistStorageKey (js "lumen/pubsub_chat/v1/den")
    ≠ ChatApp.blocklistStorageKey chat_topic.
Proof.
  split.
  - apply (storage_keys_tell_rooms_apart (js " lumen/pubsub_chat/v1/lobby ") chat_topic);
      vm_compute; reflexivity.
  - destruct (storage_keys_tell_rooms_apart (js "lumen/pubsub_chat/v1/den")
                chat_topic) as [_ [Hkeys _]]; [vm_compute; reflexivity..|].
    intros Heq. apply Hkeys in Heq. vm_compute in Heq. discriminate Heq.
Defined.

(** After the join of alice under the nick [ann], that is her nick. *)
Lemma game_nicks_are_bounded_witness :
  let s := LiveGame.state_after game_topic decimal_number
             [(stub_host 1000, Json (game_join game_topic alice (js "n0")))]
             LiveGame.fresh_session in
  let p := {| LiveGame.peer_x := 500%float; LiveGame.peer_y := 500%float;
              LiveGame.peer_nick := js "ann"; LiveGame.peer_ts := 1000 |} in
  LiveGame.peers s !! alice = Some p ∧ (1 ≤ length (LiveGame.peer_nick p) ≤ 22)%nat.
Proof.
  intros s p.
  assert (LiveGame.peers s !! alice = Some p) as Hp by (vm_compute; reflexivity).
  split; [exact Hp|].
  exact (game_nicks_are_bounded game_topic decimal_number _ alice p Hp).
Defined.

(** Alice, heard of at 1000, is on the map at 7000 and gone at 7001. *)
Lemma peer_times_out_witness :
  let d := (stub_host 1000, Json (game_join game_topic alice (js "n0"))) in
  let p := {| LiveGame.peer_x := 500%float; LiveGame.peer_y := 500%float;
              LiveGame.peer_nick := js "ann"; LiveGame.peer_ts := 1000 |} in
  let s := (LiveGame.deliver game_topic decimal_number d LiveGame.fresh_session).2 in
  GameApp.prune 7000 (LiveGame.peers s) !! alice = Some p
  ∧ GameApp.prune 7001 (LiveGame.peers s) !! alice = None.
Proof.
  intros d p s. split.
  - apply (peer_times_out game_topic decimal_number (stub_host 1000)
             (Json (game_join game_topic alice (js "n0"))) LiveGame.fresh_session alice p 7000).
    vm_compute. reflexivity.
  - apply (peer_times_out game_topic decimal_number (stub_host 1000)
             (Json (game_join game_topic alice (js "n0"))) LiveGame.fresh_session alice p 7001).
    vm_compute. reflexivity.
Defined.

Lemma demo_host_fair digest : Sender.fair (demo_host_with digest).
Proof. intros i. cbn. by apply N.mod_lt. Qed.

(** Four digits drawn from the start are four zeros. *)
Lemma randHex_is_hexadecimal_witness :
  ∃ s, Sender.randHex 4 demo_host idle = (Sender.after_rolls 4 idle, Sender.Done s)
       ∧ length s = 4%nat
       ∧ Forall (λ c, c ∈ Sender.HEX_ALPHABET) s.
Proof.
  apply (randHex_is_hexadecimal 4 demo_host idle). apply demo_host_fair.
Defined.

(** On a host whose digest turns down what ends in 0, mining comes back
    from its second attempt, with the nonce of sixteen ones. *)
Lemma mining_returns_the_first_valid_nonce_witness :
  Sender.ChatSend.minePowPayload collation_compare 5 (js "msg") [] POW_DIFFICULTY_BITS
    picky_host idle
  = (Sender.after_rolls 32 idle,
     Sender.Done
       {| Sender.ChatSend.mined_payload := js "pubsub_chat|v1|msg|nonce=1111111111111111";
          Sender.ChatSend.mined_nonce := js "1111111111111111";
          Sender.ChatSend.mined_attempts := 2 |}).
Proof.
  apply (mining_returns_the_first_valid_nonce collation_compare 5 1 (js "msg") []
           POW_DIFFICULTY_BITS picky_host idle
           (js "pubsub_chat|v1|msg|nonce=1111111111111111")).
  - lia.
  - intros i Hi. assert (i = 0%nat) as -> by lia.
    exists (js "pubsub_chat|v1|msg|nonce=0000000000000000").
    split; vm_compute; reflexivity.
  - vm_compute. reflexivity.
  - vm_compute. reflexivity.
Defined.

(** What ann sends is accepted by a peer that has just connected to the
    lobby, and shown as [hello] of alice. *)
Lemma sent_message_is_accepted_witness :
  let out := last_sent demo_send.1 in
  Sender.sent demo_send.1 = Sender.sent idle ++ [out]
  ∧ ∃ entry,
      (Chat.deliver decimal_truthy chat_closure (stub_host 5000, Json (Sender.out_data out))
         (Chat.fresh_session ∅)).1
      = Accepted (Chat.MessageShown entry)
      ∧ Chat.msg_addr entry
        = ChatFacts.canonical (Sender.out_data out)
            (ChatFacts.arr_verified
               (ChatFacts.arrive (stub_host 5000) (Sender.out_data out)))
      ∧ Chat.msg_text entry = trim (js " hello ")
      ∧ Sender.out_topic out = chat_topic.
Proof.
  intros out.
  assert (Sender.sent demo_send.1 = Sender.sent idle ++ [out]) as Hsent
    by (vm_compute; reflexivity).
  split; [exact Hsent|].
  apply (sent_message_is_accepted collation_compare 1 (demo_app (js "ann") (js " hello "))
           demo_host idle demo_send.1 demo_send.2 out decimal_truthy chat_closure
           (stub_host 5000)
           (ChatFacts.arr_verified (ChatFacts.arrive (stub_host 5000) (Sender.out_data out)))
           ∅).
  - apply surjective_pairing.
  - exact Hsent.
  - apply demo_host_fair.
  - vm_compute. reflexivity.
  - vm_compute. reflexivity.
  - vm_compute. reflexivity.
  - vm_compute. reflexivity.
  - reflexivity.
  - reflexivity.
  - evaluate.
  - vm_compute. reflexivity.
  - vm_compute. discriminate.
Defined.

(** What ann has sent is in her own history once she has sent it, and her
    own handler ignores it when the lobby brings it back. *)
Lemma own_message_is_shown_once_witness :
  let out := last_sent demo_send.1 in
  let app := demo_app (js "ann") (js " hello ") in
  let app' := app_after demo_send app in
  let x := ChatFacts.arrive (stub_host 5000) (Sender.out_data out) in
  let id := e_address (Sender.out_data out) ++ 58 :: ChatFacts.arr_nonce x in
  Chat.deliver decimal_truthy chat_closure (stub_host 5000, Json (Sender.out_data out))
    (Sender.ChatSend.store app')
  = (Ignored, Chat.count_total (Sender.ChatSend.store app'))
  ∧ (id ∈ Chat.seenMsgId (Sender.ChatSend.store app)
     ∨ ∃ entry, last (Chat.messages (Sender.ChatSend.store app')) = Some entry
                ∧ Chat.msg_id entry = id
                ∧ Chat.msg_addr entry = e_address (Sender.out_data out)
                ∧ Chat.msg_text entry = trim (Sender.ChatSend.text app)).
Proof.
  intros out app app' x id.
  apply (own_message_is_shown_once collation_compare 1 app demo_host idle demo_send.1 app'
           out decimal_truthy chat_closure (stub_host 5000)
           (ChatFacts.arr_parsed x) (ChatFacts.arr_nonce x) (ChatFacts.arr_verified x)).
  - vm_compute. reflexivity.
  - vm_compute. reflexivity.
  - vm_compute. reflexivity.
  - apply demo_host_fair.
  - vm_compute. reflexivity.
  - vm_compute. reflexivity.
  - vm_compute. reflexivity.
  - vm_compute. reflexivity.
  - evaluate.
  - vm_compute. reflexivity.
Defined.

(** After the send of ann, a second message, [again], is not handed to the
    network while the clock shows less than a second more, and is handed to
    it a second later. *)
Lemma sends_are_a_second_apart_witness :
  let app := demo_app (js "ann") (js " hello ") in
  let app' := app_after demo_send app in
  let next := Sender.ChatSend.set_text (js "again") app' in
  (1000 ≤ Sender.clock demo_host (Sender.ticks idle) - Sender.ChatSend.lastSentAt app)%Z
  ∧ Sender.ChatSend.lastSentAt app' = Sender.clock demo_host (S (Sender.ticks idle))
  ∧ (∃ u', Sender.ChatSend.sendMessage collation_compare 1 next demo_host demo_send.1
           = (u', Sender.Done next)
           ∧ Sender.sent u' = Sender.sent demo_send.1)
  ∧ Sender.sent (Sender.ChatSend.sendMessage collation_compare 1 next demo_host
                   (a_second_later demo_send.1)).1
    ≠ Sender.sent demo_send.1.
Proof.
  intros app app' next.
  destruct (sends_are_a_second_apart collation_compare 1 app demo_host idle demo_send.1
              app') as (Hgap & Hlast & Hnext).
  - vm_compute. reflexivity.
  - vm_compute. discriminate.
  - split; [exact Hgap|]. split; [exact Hlast|]. split.
    + apply Hnext; [reflexivity|vm_compute; reflexivity].
    + vm_compute. discriminate.
Defined.

(** With a nick whose cut ends in half an emoji, nothing goes out. *)
Lemma unencodable_nick_blocks_sending_witness :
  encodeURIComponent (Sender.safe_nick emoji_nick) = None
  ∧ Sender.sent (Sender.ChatSend.sendMessage collation_compare 1
                   (demo_app emoji_nick (js "hello")) demo_host idle).1
    = Sender.sent idle.
Proof.
  assert (encodeURIComponent (Sender.safe_nick emoji_nick) = None) as Hnick
    by (vm_compute; reflexivity).
  split; [exact Hnick|].
  exact (unencodable_nick_blocks_sending collation_compare 1
           (demo_app emoji_nick (js "hello")) demo_host idle Hnick).
Defined.

(** The join that ann announces puts alice on the map of a peer under the
    nick of the announcement; the [x] of [1200.5] is clamped to 1000 and
    the [y] of [300.0] is read as 300. *)
Lemma announced_peer_is_shown_witness :
  let out := last_sent demo_join.1 in
  ∃ peer,
    (LiveGame.deliver game_topic decimal_number (stub_host 5000, Json (Sender.out_data out))
       LiveGame.fresh_session).1 = Accepted (alice, peer)
    ∧ LiveGame.peers
        (LiveGame.deliver game_topic decimal_number
           (stub_host 5000, Json (Sender.out_data out)) LiveGame.fresh_session).2
      !! alice = Some peer
    ∧ LiveGame.peer_x peer = 1000%float ∧ LiveGame.peer_y peer = 300%float
    ∧ LiveGame.peer_ts peer = 5000%Z
    ∧ LiveGame.peer_nick peer = js "ann".
Proof.
  intros out.
  destruct (announced_peer_is_shown collation_compare decimal_number game_topic (js "join")
              (js "ann") (js "1200.5") (js "300.0") demo_host idle demo_join.1 demo_join.2
              out (stub_host 5000)
              {| LiveGame.v_ok := true; LiveGame.v_signatureValid := true;
                 LiveGame.v_derivedAddress := alice; LiveGame.v_error := [] |}
              LiveGame.fresh_session)
    as (peer & Hout & Hpeer & Hx & Hy & Hts & Hnick).
  - apply surjective_pairing.
  - vm_compute. reflexivity.
  - by left.
  - apply demo_host_fair.
  - vm_compute. reflexivity.
  - vm_compute. reflexivity.
  - vm_compute. reflexivity.
  - vm_compute. reflexivity.
  - vm_compute. reflexivity.
  - vm_compute. reflexivity.
  - vm_compute. reflexivity.
  - reflexivity.
  - vm_compute. apply not_elem_of_nil.
  - exists peer. split; [exact Hout|]. split; [exact Hpeer|].
    split; [rewrite Hx; vm_compute; reflexivity|].
    split; [rewrite Hy; vm_compute; reflexivity|].
    split; [exact Hts|exact Hnick].
Defined.
